(** * Google Photos Takeout metadata merge

    A shallow embedding of [aux_functions.py] and [process_folder.py]:
    the content sniffer, the name normalizer, the media resolver, the
    live-photo partner finder, the output placer, the metadata fusion and
    the per-descriptor loop, over an explicit model of the file system and
    of the external metadata tool.

    Modelling conventions.
    - Text is a [string] of bytes (UTF-8).  Case mapping, whitespace and
      digit classes act on the ASCII range; other bytes are left alone.
    - The file system is a tree of directories and regular files (no
      symbolic links, no permissions).  Relative paths are resolved from
      the root of the tree, [".."] is resolved lexically.
    - Reading a file does not move its access time (a volume mounted
      [noatime]); what is stated on the files a run keeps leaves access
      times out.
    - Python exceptions are a [result]: [Ok v] or [Raise e].
    - The local time zone is UTC; [time_t] has 64 bits. *)

From Stdlib Require Import ZArith List Ascii String Lia.
From Stdlib Require Import Strings.Byte.
From Stdlib Require Import Floats.PrimFloat Floats.FloatOps.
From stdpp Require Import base strings gmap list pretty.

Open Scope string_scope.
Set Warnings "-register-all".
Set Default Proof Using "Type".
#[global] Arguments Ascii.eqb !_ !_ / : simpl nomatch.
#[global] Arguments String.eqb !_ !_ / : simpl nomatch.

(** ** Exceptions *)

Inductive exn :=
  | FileNotFoundError
  | NotADirectoryError
  | IsADirectoryError
  | FileExistsError
  | SameFileError
  | JSONDecodeError
  | AttributeError
  | TypeError
  | ValueError
  | OverflowError
  | OSError
  | RecursionError
  | SystemExit
  | NonTermination.

Inductive result (A : Type) :=
  | Ok (a : A)
  | Raise (e : exn).
Arguments Ok {A} a.
Arguments Raise {A} e.

#[global] Instance result_ret : MRet result := fun A a => Ok a.
#[global] Instance result_bind : MBind result := fun A B k m =>
  match m with
  | Ok a => k a
  | Raise e => Raise e
  end.

(** [try: m except Exception: h] *)
Definition try_except {A} (m : result A) (h : result A) : result A :=
  match m with
  | Ok a => Ok a
  | Raise _ => h
  end.

Definition raises {A} (r : result A) : bool :=
  match r with
  | Ok _ => false
  | Raise _ => true
  end.

(** ** Python [str] methods used by the program *)

Module Str.

Definition chr (n : nat) : ascii := ascii_of_nat n.
Definition LF : string := String (chr 10) "".
Definition DQUOTE : string := String (chr 34) "".

(** [str.isspace] on one character. *)
Definition is_space (c : ascii) : bool :=
  let n := nat_of_ascii c in
  ((9 <=? n) && (n <=? 13) || (28 <=? n) && (n <=? 32))%nat.

Definition is_digit (c : ascii) : bool :=
  let n := nat_of_ascii c in ((48 <=? n) && (n <=? 57))%nat.

Definition lower_char (c : ascii) : ascii :=
  let n := nat_of_ascii c in
  if ((65 <=? n) && (n <=? 90))%nat then ascii_of_nat (n + 32) else c.

Definition upper_char (c : ascii) : ascii :=
  let n := nat_of_ascii c in
  if ((97 <=? n) && (n <=? 122))%nat then ascii_of_nat (n - 32) else c.

Fixpoint map (f : ascii -> ascii) (s : string) : string :=
  match s with
  | "" => ""
  | String c r => String (f c) (map f r)
  end.

Definition lower (s : string) : string := map lower_char s.
Definition upper (s : string) : string := map upper_char s.
Definition casefold (s : string) : string := map lower_char s.

(** [s.startswith(p)] *)
Fixpoint startswith (s p : string) {struct p} : bool :=
  match p, s with
  | "", _ => true
  | String _ _, "" => false
  | String a p', String b s' => Ascii.eqb a b && startswith s' p'
  end.

Fixpoint endswith_char (s : string) (c : ascii) : bool :=
  match s with
  | "" => false
  | String a "" => Ascii.eqb a c
  | String _ r => endswith_char r c
  end.

Fixpoint contains_char (c : ascii) (s : string) : bool :=
  match s with
  | "" => false
  | String a r => Ascii.eqb a c || contains_char c r
  end.

Fixpoint drop (n : nat) (s : string) : string :=
  match n, s with
  | O, _ => s
  | S k, "" => ""
  | S k, String _ r => drop k r
  end.

(** [s.replace(old, "")] for a non-empty [old]: occurrences are removed
    left to right, without overlap. *)
Fixpoint remove_go (old : string) (skip : nat) (s : string) : string :=
  match s with
  | "" => ""
  | String c r =>
      match skip with
      | S k => remove_go old k r
      | O => if startswith s old
             then remove_go old (String.length old - 1) r
             else String c (remove_go old 0 r)
      end
  end.

Definition remove (old s : string) : string :=
  match old with
  | "" => s
  | _ => remove_go old 0 s
  end.

Fixpoint lstrip (p : ascii -> bool) (s : string) : string :=
  match s with
  | "" => ""
  | String c r => if p c then lstrip p r else s
  end.

Fixpoint rstrip (p : ascii -> bool) (s : string) : string :=
  match s with
  | "" => ""
  | String c r =>
      match rstrip p r with
      | "" => if p c then "" else String c ""
      | r' => String c r'
      end
  end.

(** [s.strip()] *)
Definition strip (s : string) : string := rstrip is_space (lstrip is_space s).

(** [s.split(sep)] for a one-character separator. *)
Fixpoint split (sep : ascii) (s : string) : list string :=
  match s with
  | "" => [""]
  | String c r =>
      if Ascii.eqb c sep then "" :: split sep r
      else match split sep r with
           | [] => [String c ""]
           | h :: t => String c h :: t
           end
  end.

(** [sep.join(l)] *)
Fixpoint join (sep : string) (l : list string) : string :=
  match l with
  | [] => ""
  | [x] => x
  | x :: r => x ++ sep ++ join sep r
  end.

End Str.

(** ** [posixpath] *)

Module PosixPath.

Definition is_sep (c : ascii) : bool := Ascii.eqb c "/".
Definition is_dot (c : ascii) : bool := Ascii.eqb c ".".

Fixpoint all_chars (p : ascii -> bool) (s : string) : bool :=
  match s with
  | "" => true
  | String c r => p c && all_chars p r
  end.

(** [(p[:i], p[i:])] with [i = p.rfind('/') + 1] *)
Fixpoint split_at_sep (p : string) : string * string :=
  match p with
  | "" => ("", "")
  | String c r =>
      let '(h, t) := split_at_sep r in
      match h with
      | "" => if is_sep c then ("/", t) else ("", String c t)
      | _ => (String c h, t)
      end
  end.

(** [(s[:i], s[i:])] with [i = s.rfind(c)], [None] when [c] is not in [s] *)
Fixpoint rpartition (c : ascii) (s : string) : option (string * string) :=
  match s with
  | "" => None
  | String a r =>
      match rpartition c r with
      | Some (h, t) => Some (String a h, t)
      | None => if Ascii.eqb a c then Some ("", s) else None
      end
  end.

Definition basename (p : string) : string := snd (split_at_sep p).

Definition dirname (p : string) : string :=
  let head := fst (split_at_sep p) in
  if negb (head =? "") && negb (all_chars is_sep head)
  then Str.rstrip is_sep head
  else head.

Definition join (a b : string) : string :=
  if Str.startswith b "/" then b
  else if (a =? "") || Str.endswith_char a "/" then a ++ b
  else a ++ "/" ++ b.

(** [os.path.join] over a list of parts *)
Definition join_all (l : list string) : string :=
  match l with
  | [] => ""
  | a :: r => fold_left join r a
  end.

(** The extension is what follows the last dot of the last component,
    unless only dots precede it there. *)
Definition splitext (p : string) : string * string :=
  let '(head, name) := split_at_sep p in
  match rpartition "." name with
  | Some (pre, ext) => if all_chars is_dot pre then (p, "") else (head ++ pre, ext)
  | None => (p, "")
  end.

Definition normpath_step (initial_slashes : nat) (new_comps : list string)
    (comp : string) : list string :=
  if (comp =? "") || (comp =? ".") then new_comps
  else if negb (comp =? "..")
          || ((initial_slashes =? 0)%nat && bool_decide (new_comps = []))
          || (match last new_comps with Some l => l =? ".." | None => false end)
       then new_comps ++ [comp]
       else removelast new_comps.

Fixpoint repeat_sep (n : nat) : string :=
  match n with
  | O => ""
  | S k => String "/" (repeat_sep k)
  end.

Definition normpath (path : string) : string :=
  if path =? "" then "."
  else
    let initial_slashes :=
      if Str.startswith path "/"
      then if Str.startswith path "//" && negb (Str.startswith path "///")
           then 2 else 1
      else 0 in
    let comps := fold_left (normpath_step initial_slashes) (Str.split "/" path) [] in
    let path := repeat_sep initial_slashes ++ Str.join "/" comps in
    if path =? "" then "." else path.

(** The working directory is the root of the tree. *)
Definition getcwd : string := "/".

Definition abspath (path : string) : string :=
  if Str.startswith path "/" then normpath path
  else normpath (join getcwd path).

Fixpoint commonprefix_len (a b : list string) : nat :=
  match a, b with
  | x :: a', y :: b' => if x =? y then S (commonprefix_len a' b') else 0
  | _, _ => 0
  end.

Definition nonempty_parts (p : string) : list string :=
  filter (fun x => x ≠ "") (Str.split "/" p).

Definition relpath (path start : string) : result string :=
  if path =? "" then Raise ValueError
  else
    let start_list := nonempty_parts (abspath start) in
    let path_list := nonempty_parts (abspath path) in
    let i := commonprefix_len start_list path_list in
    let rel_list :=
      (repeat ".." (length start_list - i) ++ skipn i path_list)%list in
    match rel_list with
    | [] => Ok "."
    | _ => Ok (join_all rel_list)
    end.

End PosixPath.

(** ** Python values, as [json.load] builds them

    A dict is the list of its items, each key once, in insertion order. *)

Inductive pyval :=
  | PNone
  | PBool (b : bool)
  | PInt (z : Z)
  | PFloat (f : float)
  | PStr (s : string)
  | PList (l : list pyval)
  | PDict (d : list (string * pyval)).

(** ** The file system *)

Module FS.

(** A regular file: its bytes, what [json.load] makes of them ([None]
    when they are not a JSON document) and its access and modification
    times in epoch seconds.

    The access time is the one [os.utime] or [shutil.copy2] wrote last: a
    read leaves it alone, as on a volume mounted [noatime].  Where a read
    moves it, the access times of the files the program reads, and of the
    copies made from them, differ from the ones here; the properties on
    what a run keeps are therefore stated on bytes, descriptor value and
    modification time. *)
Record file := mk_file {
  f_data : list byte;
  f_json : option pyval;
  f_atime : Z;
  f_mtime : Z;
}.

Inductive node :=
  | File (f : file)
  | Dir (entries : list (string * node)).

(** The state of the world is the root directory. *)
Abbreviation world := node (only parsing).

Record dir_entry := mk_entry {
  e_name : string;
  e_path : string;
  e_is_file : bool;
}.
Definition e_is_dir (e : dir_entry) : bool := negb (e_is_file e).

Fixpoint entry_lookup (name : string) (es : list (string * node)) : option node :=
  match es with
  | [] => None
  | (k, n) :: r => if k =? name then Some n else entry_lookup name r
  end.

Fixpoint entry_set (name : string) (n : node) (es : list (string * node))
    : list (string * node) :=
  match es with
  | [] => [(name, n)]
  | (k, m) :: r => if k =? name then (k, n) :: r else (k, m) :: entry_set name n r
  end.

Definition components_step (stack : list string) (c : string) : list string :=
  if (c =? "") || (c =? ".") then stack
  else if c =? ".." then tail stack
  else c :: stack.

(** The directory names a path walks through from the root, innermost last. *)
Definition components (p : string) : list string :=
  rev (fold_left components_step (Str.split "/" p) []).

Fixpoint walk (cs : list string) (n : node) : option node :=
  match cs with
  | [] => Some n
  | c :: cs' =>
      match n with
      | File _ => None
      | Dir es =>
          match entry_lookup c es with
          | Some child => walk cs' child
          | None => None
          end
      end
  end.

Definition resolve (w : world) (p : string) : option node :=
  if p =? "" then None else walk (components p) w.

(** [os.path.exists] *)
Definition exists_ (w : world) (p : string) : bool :=
  match resolve w p with
  | Some _ => true
  | None => false
  end.

Definition isfile (w : world) (p : string) : bool :=
  match resolve w p with
  | Some (File _) => true
  | _ => false
  end.

(** [open(p, 'rb')] and the like, on a regular file *)
Definition open_ (w : world) (p : string) : result file :=
  match resolve w p with
  | Some (File f) => Ok f
  | Some (Dir _) => Raise IsADirectoryError
  | None => Raise FileNotFoundError
  end.

(** [os.scandir]: the entries in the order the directory holds them. *)
Definition scandir (w : world) (p : string) : result (list dir_entry) :=
  match resolve w p with
  | Some (Dir es) =>
      Ok (List.map (fun '(name, n) =>
            mk_entry name (PosixPath.join p name)
                     (match n with File _ => true | Dir _ => false end)) es)
  | Some (File _) => Raise NotADirectoryError
  | None => Raise FileNotFoundError
  end.

(** Rewrite of the node at the end of a path whose parent exists. *)
Fixpoint update (cs : list string) (g : option node -> result node) (n : node)
    : result node :=
  match cs with
  | [] => g (Some n)
  | c :: cs' =>
      match n with
      | File _ => Raise NotADirectoryError
      | Dir es =>
          match entry_lookup c es, cs' with
          | Some child, _ =>
              child' ← update cs' g child; Ok (Dir (entry_set c child' es))
          | None, [] =>
              child' ← g None; Ok (Dir (entry_set c child' es))
          | None, _ => Raise FileNotFoundError
          end
      end
  end.

Fixpoint mkdirs (cs : list string) (n : node) : result node :=
  match cs with
  | [] => match n with
          | Dir _ => Ok n
          | File _ => Raise FileExistsError
          end
  | c :: cs' =>
      match n with
      | File _ => Raise NotADirectoryError
      | Dir es =>
          child' ← mkdirs cs' (default (Dir []) (entry_lookup c es));
          Ok (Dir (entry_set c child' es))
      end
  end.

(** [os.makedirs(p, exist_ok=True)] *)
Definition makedirs (w : world) (p : string) : result world :=
  if p =? "" then Raise FileNotFoundError else mkdirs (components p) w.

Definition put_file (f : file) (o : option node) : result node :=
  match o with
  | Some (Dir _) => Raise IsADirectoryError
  | _ => Ok (File f)
  end.

(** [shutil.copy2]: bytes, then access and modification times; into the
    directory when [dst] is one. *)
Definition copy2 (w : world) (src dst : string) : result world :=
  f ← open_ w src;
  let dst := match resolve w dst with
             | Some (Dir _) => PosixPath.join dst (PosixPath.basename src)
             | _ => dst
             end in
  if dst =? "" then Raise FileNotFoundError
  else if bool_decide (components src = components dst) then Raise SameFileError
  else update (components dst) (put_file f) w.

Definition set_times (a m : Z) (o : option node) : result node :=
  match o with
  | Some (File f) => Ok (File (mk_file (f_data f) (f_json f) a m))
  | Some (Dir es) => Ok (Dir es)
  | None => Raise FileNotFoundError
  end.

(** [os.utime(p, (a, m))] *)
Definition utime (w : world) (p : string) (a m : Z) : result world :=
  if p =? "" then Raise FileNotFoundError
  else update (components p) (set_times a m) w.

End FS.

(** ** What the program consumes from outside

    [float_str] is [str] on a float.  [subprocess_run cmd w] is
    [subprocess.run(cmd, capture_output=True, text=True)]: the return code,
    [stdout + stderr] and the world the process leaves behind, or [None]
    when the executable is not found. *)

Class External := {
  float_str : float -> string;
  subprocess_run : list string -> FS.world -> option (Z * string * FS.world);
}.

(** What the progress bar consumes: [format_fixed x d] is [f"{x:.{d}f}"]. *)

Class Console := {
  format_fixed : float -> Z -> string;
}.

(** ** Python builtins on values *)

Module Py.

Definition truthy (v : pyval) : bool :=
  match v with
  | PNone => false
  | PBool b => b
  | PInt z => negb (z =? 0)%Z
  | PFloat f => negb (PrimFloat.eqb f 0%float)
  | PStr s => negb (s =? "")
  | PList l => negb (bool_decide (length l = 0))
  | PDict d => negb (bool_decide (length d = 0))
  end.

(** [v is None] *)
Definition is_None (v : pyval) : bool :=
  match v with
  | PNone => true
  | _ => false
  end.

Definition isinstance_dict (v : pyval) : bool :=
  match v with
  | PDict _ => true
  | _ => false
  end.

Fixpoint dict_lookup (k : string) (d : list (string * pyval)) : option pyval :=
  match d with
  | [] => None
  | (k', v) :: r => if k' =? k then Some v else dict_lookup k r
  end.

(** [v.get(k, dflt)]: only a dict has the method. *)
Definition get_default (v : pyval) (k : string) (dflt : pyval) : result pyval :=
  match v with
  | PDict d => Ok (default dflt (dict_lookup k d))
  | _ => Raise AttributeError
  end.

Definition get (v : pyval) (k : string) : result pyval := get_default v k PNone.

Definition digit_val (c : ascii) : Z := Z.of_nat (nat_of_ascii c - 48).

(** Decimal digits, single underscores allowed between two digits. *)
Fixpoint parse_digits (acc : Z) (after_digit : bool) (s : string) : option Z :=
  match s with
  | "" => if after_digit then Some acc else None
  | String c r =>
      if Str.is_digit c then parse_digits (acc * 10 + digit_val c) true r
      else if Ascii.eqb c "_" && after_digit then parse_digits acc false r
      else None
  end.

Fixpoint count_digits (s : string) : nat :=
  match s with
  | "" => 0
  | String c r => (if Str.is_digit c then 1 else 0) + count_digits r
  end.

(** [sys.get_int_max_str_digits()] *)
Definition INT_MAX_STR_DIGITS : nat := 4300.

(** The white space [int] skips at both ends of a text: tab, newline,
    vertical tab, form feed, carriage return and blank.  (The separators
    U+001C to U+001F, which [str.strip] removes, are not skipped.) *)
Definition is_int_space (c : ascii) : bool :=
  let n := nat_of_ascii c in
  ((9 <=? n) && (n <=? 13) || (n =? 32))%nat.

Definition int_of_str (s : string) : result Z :=
  let s := Str.rstrip is_int_space (Str.lstrip is_int_space s) in
  let '(neg, body) :=
    match s with
    | String "-" r => (true, r)
    | String "+" r => (false, r)
    | _ => (false, s)
    end in
  if (INT_MAX_STR_DIGITS <? count_digits body)%nat then Raise ValueError
  else match parse_digits 0 false body with
       | Some z => Ok (if neg then - z else z)%Z
       | None => Raise ValueError
       end.

Definition int_of_float (f : float) : result Z :=
  match Prim2SF f with
  | SpecFloat.S754_zero _ => Ok 0%Z
  | SpecFloat.S754_infinity _ => Raise OverflowError
  | SpecFloat.S754_nan => Raise ValueError
  | SpecFloat.S754_finite s m e =>
      let a := match e with
               | Zneg k => (Zpos m / 2 ^ Zpos k)%Z
               | _ => (Zpos m * 2 ^ e)%Z
               end in
      Ok (if s then - a else a)%Z
  end.

(** [float(z)] on an [int], rounded to the nearest float.  (Python raises
    [OverflowError] from 2^1024 on, where this gives infinity; the lengths
    of lists are far below.) *)
Definition float_of_int (z : Z) : float :=
  match z with
  | Z0 => 0%float
  | Zpos m => SF2Prim (SpecFloat.binary_round FloatOps.prec FloatOps.emax false m 0)
  | Zneg m => SF2Prim (SpecFloat.binary_round FloatOps.prec FloatOps.emax true m 0)
  end.

(** [s * n] on a [str] *)
Definition times (s : string) (n : Z) : string :=
  String.concat "" (repeat s (Z.to_nat n)).

(** [int(v)] *)
Definition int (v : pyval) : result Z :=
  match v with
  | PInt z => Ok z
  | PBool b => Ok (if b then 1 else 0)%Z
  | PFloat f => int_of_float f
  | PStr s => int_of_str s
  | PNone | PList _ | PDict _ => Raise TypeError
  end.

Definition hex_digit (n : nat) : ascii :=
  if (n <? 10)%nat then ascii_of_nat (48 + n) else ascii_of_nat (87 + n).

Definition repr_char (q : ascii) (c : ascii) : string :=
  let n := nat_of_ascii c in
  if Ascii.eqb c q || Ascii.eqb c "\" then String "\" (String c "")
  else if (n =? 9)%nat then "\t"
  else if (n =? 10)%nat then "\n"
  else if (n =? 13)%nat then "\r"
  else if (n <? 32)%nat || (n =? 127)%nat
       then "\x" ++ String (hex_digit (n / 16)) (String (hex_digit (n mod 16)) "")
  else String c "".

Fixpoint repr_chars (q : ascii) (s : string) : string :=
  match s with
  | "" => ""
  | String c r => repr_char q c ++ repr_chars q r
  end.

(** [repr] of a [str] *)
Definition repr_str (s : string) : string :=
  let q := if Str.contains_char "'" s && negb (Str.contains_char (Str.chr 34) s)
           then Str.chr 34 else "'"%char in
  String q (repr_chars q s) ++ String q "".

Section Rendering.
Context `{External}.

Fixpoint repr (v : pyval) : string :=
  match v with
  | PNone => "None"
  | PBool b => if b then "True" else "False"
  | PInt z => pretty z
  | PFloat f => float_str f
  | PStr s => repr_str s
  | PList l => "[" ++ Str.join ", " (List.map repr l) ++ "]"
  | PDict d =>
      "{" ++ Str.join ", "
               (List.map (fun kv => repr_str (fst kv) ++ ": " ++ repr (snd kv)) d)
          ++ "}"
  end.

(** [str(v)], which is also what an f-string field renders *)
Definition str (v : pyval) : string :=
  match v with
  | PStr s => s
  | _ => repr v
  end.

End Rendering.

(** ** [datetime], in UTC *)

(** The instants [datetime.fromtimestamp] accepts: from 0001-01-02
    00:00:00 (the first day of year 1 is refused) to 9999-12-31 23:59:59. *)
Definition MIN_TIMESTAMP : Z := -62135510400.
Definition MAX_TIMESTAMP : Z := 253402300799.

(** The range of the platform's [time_t], and the instants whose year
    [gmtime] can hold. *)
Definition MIN_TIME_T : Z := -9223372036854775808.
Definition MAX_TIME_T : Z := 9223372036854775807.
Definition MIN_GMTIME : Z := -67768040609740800.
Definition MAX_GMTIME : Z := 67768036191676799.

(** [datetime.fromtimestamp(ts)] on an [int] *)
Definition fromtimestamp (ts : Z) : result Z :=
  if ((ts <? MIN_TIME_T) || (MAX_TIME_T <? ts))%Z then Raise OverflowError
  else if ((ts <? MIN_GMTIME) || (MAX_GMTIME <? ts))%Z then Raise OSError
  else if ((MIN_TIMESTAMP <=? ts) && (ts <=? MAX_TIMESTAMP))%Z then Ok ts
  else Raise ValueError.

(** [dt.timestamp()] *)
Definition timestamp (dt : Z) : Z := dt.

(** Year, month and day of a day number counted from 1970-01-01. *)
Definition civil_from_days (days : Z) : Z * Z * Z :=
  (let z := days + 719468 in
   let era := z / 146097 in
   let doe := z - era * 146097 in
   let yoe := (doe - doe / 1460 + doe / 36524 - doe / 146096) / 365 in
   let doy := doe - (365 * yoe + yoe / 4 - yoe / 100) in
   let mp := (5 * doy + 2) / 153 in
   let d := doy - (153 * mp + 2) / 5 + 1 in
   let m := if mp <? 10 then mp + 3 else mp - 9 in
   let y := yoe + era * 400 + (if m <=? 2 then 1 else 0) in
   (y, m, d))%Z.

Definition pad (width : nat) (z : Z) : string :=
  let s := pretty z in
  String.concat "" (repeat "0" (width - String.length s)) ++ s.

(** [dt.strftime('%Y:%m:%d %H:%M:%S')]: the year as it is, without
    leading zeros; the other fields on two digits. *)
Definition strftime (dt : Z) : string :=
  let '(y, m, d) := civil_from_days (dt / 86400) in
  let s := (dt mod 86400)%Z in
  pretty y ++ ":" ++ pad 2 m ++ ":" ++ pad 2 d ++ " "
    ++ pad 2 (s / 3600) ++ ":" ++ pad 2 (s mod 3600 / 60) ++ ":" ++ pad 2 (s mod 60).

End Py.

(** ** aux_functions.py *)

Module aux_functions.

(** *** Progress bar

    A generator: what it prints and what it yields, in order. *)

Inductive emitted (A : Type) :=
  | Printed (text : string)
  | Yielded (item : A).
Arguments Printed {A} text.
Arguments Yielded {A} item.

Section Progress.
Context `{Console}.

(** The local [filled] of [render]. *)
Definition filled (total length i : Z) : Z :=
  if (total =? 0)%Z then length else (length * i / total)%Z.

(** The local [bar] of [render]. *)
Definition bar (total length : Z) (fill : string) (i : Z) : string :=
  Py.times fill (filled total length i)
  ++ Py.times "-" (length - filled total length i).

(** The text [render(i)] prints; it ends without a newline. *)
Definition render (total : Z) (prefix suffix : string) (decimals length : Z)
    (fill : string) (i : Z) : string :=
  let percent :=
    if (total =? 0)%Z then format_fixed (Py.float_of_int 100) decimals
    else format_fixed (PrimFloat.div (Py.float_of_int (100 * i))
                                     (Py.float_of_int total)) decimals in
  String (Str.chr 13) "" ++ prefix ++ " [" ++ bar total length fill i ++ "] "
    ++ percent ++ "% " ++ suffix.

Definition progress_bar {A} (iterable : list A) (prefix suffix : string)
    (decimals length : Z) (fill : string) : list (emitted A) :=
  let items := iterable in
  let total := Z.of_nat (List.length items) in
  let render := render total prefix suffix decimals length fill in
  List.app
    (Printed (render 0%Z)
     :: flat_map (fun '(i, item) => [Yielded item; Printed (render (Z.of_nat i))])
          (combine (seq 1 (List.length items)) items))
    [Printed Str.LF].

End Progress.

Definition in_list (s : string) (l : list string) : bool := existsb (String.eqb s) l.

(** *** Google Takeout JSON helpers *)

Definition SIDE_SUFFIXES : list string :=
  ["supplemental-metadata"; "supp-metadata"; "suppl"; "supp"].

(** The optional counter [(\(\d+\))?] followed by [$], which also matches
    before a newline that ends the text. *)
Definition at_end (s : string) : bool := (s =? "") || (s =? Str.LF).

Definition counter_then_end (s : string) : bool :=
  at_end s ||
  match s with
  | String "(" r =>
      let rest := Str.lstrip Str.is_digit r in
      (String.length rest <? String.length r)%nat &&
      match rest with
      | String ")" t => at_end t
      | _ => false
      end
  | _ => false
  end.

(** [SIDE_SUFFIX_RE] matches the whole of [s] (up to a final newline). *)
Definition side_suffix_match (s : string) : bool :=
  match s with
  | String "." r =>
      existsb (fun alt => Str.startswith (Str.casefold r) alt
                          && counter_then_end (Str.drop (String.length alt) r))
              SIDE_SUFFIXES
  | _ => false
  end.

(** [SIDE_SUFFIX_RE.sub('', base)]: the leftmost match runs to the end. *)
Fixpoint strip_json_suffix (base : string) : string :=
  match base with
  | "" => ""
  | String c r =>
      if side_suffix_match base
      then (if Str.endswith_char base (Str.chr 10) then Str.LF else "")
      else String c (strip_json_suffix r)
  end.

Definition UNSAFE_CHARS : list string :=
  ["%"; "<"; ">"; "="; ":"; "?"; "¿"; "*"; "#"; "&"; "{"; "}"; Str.LF; "@"; "!"; "+";
   Str.LF; Str.DQUOTE; "'"].

(** [re.sub(r"\s{2,}", " ", s)]; [run] is the first character of the run of
    white space being read and whether a second one was seen. *)
Fixpoint collapse_spaces (run : option (ascii * bool)) (s : string) : string :=
  let flush := match run with
               | None => ""
               | Some (c, false) => String c ""
               | Some (_, true) => " "
               end in
  match s with
  | "" => flush
  | String c r =>
      if Str.is_space c
      then collapse_spaces (match run with
                            | None => Some (c, false)
                            | Some (c0, _) => Some (c0, true)
                            end) r
      else flush ++ String c (collapse_spaces None r)
  end.

Definition fix_title (title : string) : string :=
  let cleaned := fold_left (fun cleaned ch => Str.remove ch cleaned) UNSAFE_CHARS title in
  Str.strip (collapse_spaces None cleaned).

(** [re.sub(r"\.+", ".", s)] *)
Fixpoint collapse_dots (s : string) : string :=
  match s with
  | "" => ""
  | String c r =>
      if PosixPath.is_dot c && Str.startswith r "." then collapse_dots r
      else String c (collapse_dots r)
  end.

Definition sanitize_json_title (base : string) : string :=
  let s := strip_json_suffix (fix_title base) in
  let s := collapse_dots s in
  Str.rstrip PosixPath.is_dot s.

(** *** Magic sniffers *)

Definition PNG_SIG : list byte := [x89; x50; x4e; x47; x0d; x0a; x1a; x0a].
Definition TIFF_LE : list byte := [x49; x49; x2a; x00].
Definition TIFF_BE : list byte := [x4d; x4d; x00; x2a].
Definition FTYP : list byte := list_byte_of_string "ftyp".
Definition JPEG_SOI : list byte := [xff; xd8].
Definition ISO_BRANDS_HEIC : list (list byte) :=
  List.map list_byte_of_string ["heic"; "heix"; "heif"; "mif1"].
Definition ISO_BRANDS_MOV : list (list byte) :=
  List.map list_byte_of_string ["qt  "; "pnot"].
Definition ISO_BRANDS_MP4 : list (list byte) :=
  List.map list_byte_of_string ["isom"; "mp41"; "mp42"; "avc1"].

#[global] Instance byte_eq_dec : EqDecision byte := Byte.byte_eq_dec.

(** [b[i:j]] *)
Definition slice (i j : nat) (b : list byte) : list byte := firstn (j - i) (skipn i b).

(** The part of [sniff_type] that follows the read. *)
Definition sniff_header (header : list byte) : option (string * string) :=
  if bool_decide (header = []) then None
  else if bool_decide (slice 0 2 header = JPEG_SOI) then Some ("jpeg", "jpg")
  else if bool_decide (slice 0 8 header = PNG_SIG) then Some ("png", "png")
  else if bool_decide (slice 0 4 header ∈ [TIFF_LE; TIFF_BE]) then Some ("tiff", "tif")
  else if (12 <=? length header)%nat && bool_decide (slice 4 8 header = FTYP) then
    let brand := slice 8 12 header in
    if bool_decide (brand ∈ ISO_BRANDS_HEIC) then Some ("heic", "heic")
    else if bool_decide (brand ∈ ISO_BRANDS_MOV) then Some ("mov", "mov")
    else Some ("mp4", "mp4")
  else None.

(** [f.read(32)] on a file opened in binary mode *)
Definition read_header (w : FS.world) (path : string) : result (list byte) :=
  f ← FS.open_ w path; Ok (firstn 32 (FS.f_data f)).

Definition sniff_type (w : FS.world) (path : string) : result (option (string * string)) :=
  match read_header w path with
  | Raise _ => Ok None
  | Ok header => Ok (sniff_header header)
  end.

(** *** Filename normalization helpers *)

Fixpoint collapse_go (fuel : nat) (base last_ext : string) : string * string :=
  match fuel with
  | O => (base, last_ext)
  | S k =>
      let '(b, e) := PosixPath.splitext base in
      if negb (e =? "") then collapse_go k b e else (base, last_ext)
  end.

(** Every turn of the loop shortens [base], so its length bounds the turns. *)
Definition collapse_extensions (name : string) : string * string :=
  collapse_go (S (String.length name)) name "".

(** *** Media resolver *)

Definition media_exts : list string :=
  ["heic"; "jpg"; "jpeg"; "png"; "tif"; "tiff"; "mov"; "mp4"; "m4v"].

Definition add_variants (edited_word stem ext : string) : list string :=
  let dotext := "." ++ ext in
  List.app
    [ stem ++ dotext;
      stem ++ "-" ++ edited_word ++ dotext;
      stem ++ "-" ++ Str.upper edited_word ++ dotext;
      stem ++ " - " ++ edited_word ++ dotext;
      stem ++ " (" ++ edited_word ++ ")" ++ dotext;
      stem ++ "(1)" ++ dotext;
      stem ++ " (1)" ++ dotext ]
    (flat_map (fun n : nat =>
                 [ stem ++ "(" ++ pretty n ++ ")" ++ dotext;
                   stem ++ " (" ++ pretty n ++ ")" ++ dotext ])
              (seq 2 19)).

Definition candidates (title edited_word : string) : list string :=
  let '(file_name, json_ext) := PosixPath.splitext title in
  List.app
    (flat_map (add_variants edited_word file_name) media_exts)
    (if negb (json_ext =? "")
        && negb (in_list (Str.lower (Str.drop 1 json_ext)) media_exts)
     then flat_map (add_variants edited_word title) media_exts
     else []).

(** The dict [{e.name.casefold(): e.path for e in ... if e.is_file()}],
    read at key [k]: the last entry written under a key is the one kept. *)
Definition casefold_lookup (es : list FS.dir_entry) (k : string) : option string :=
  FS.e_path <$>
    last (filter (fun e => FS.e_is_file e = true ∧ Str.casefold (FS.e_name e) = k) es).

Definition SNIFFED_MEDIA : list string := ["jpeg"; "png"; "tiff"; "heic"; "mov"; "mp4"].
Definition SNIFFED_VIDEO : list string := ["mov"; "mp4"].

Definition sniffs_as (w : FS.world) (kinds : list string) (path : string) : result bool :=
  t ← sniff_type w path;
  Ok (match t with
      | Some (kind, _) => in_list kind kinds
      | None => false
      end).

(** [for x in l: y = f(x); if y: return y] *)
Fixpoint first_some {A B} (f : A -> option B) (l : list A) : option B :=
  match l with
  | [] => None
  | x :: r => match f x with
              | Some y => Some y
              | None => first_some f r
              end
  end.

(** [for x in l: if test(x): return x], where the test may raise *)
Fixpoint first_where {A} (test : A -> result bool) (l : list A) : result (option A) :=
  match l with
  | [] => Ok None
  | x :: r => b ← test x; if b : bool then Ok (Some x) else first_where test r
  end.

Definition search_media (w : FS.world) (path title edited_word : string)
    : result (option string) :=
  let title := sanitize_json_title title in
  let '(file_name, json_ext) := PosixPath.splitext title in
  let candidates := candidates title edited_word in
  (* Fast path: exact case on disk *)
  match List.find (fun cand => FS.exists_ w (PosixPath.join path cand)) candidates with
  | Some cand => Ok (Some (PosixPath.join path cand))
  | None =>
      (* Case-insensitive map of directory files *)
      match FS.scandir w path with
      | Raise FileNotFoundError => Ok None
      | Raise e => Raise e
      | Ok es =>
          match first_some (fun cand => casefold_lookup es (Str.casefold cand)) candidates with
          | Some p => Ok (Some p)
          | None =>
              (* Fallback: prefix scan + header sniff *)
              let base_cf := Str.casefold file_name in
              es ← FS.scandir w path;
              e ← first_where (fun e =>
                     if FS.e_is_file e && Str.startswith (Str.casefold (FS.e_name e)) base_cf
                     then sniffs_as w SNIFFED_MEDIA (FS.e_path e)
                     else Ok false) es;
              Ok (option_map FS.e_path e)
          end
      end
  end.

(** *** Live Photo partner finder *)

Definition find_live_video_partner (w : FS.world) (folder image_basestem : string)
    : result (option string) :=
  let candidates :=
    [ PosixPath.join folder image_basestem;
      PosixPath.join folder (image_basestem ++ ".mov");
      PosixPath.join folder (image_basestem ++ ".MOV");
      PosixPath.join folder (image_basestem ++ ".mp4");
      PosixPath.join folder (image_basestem ++ ".MP4");
      PosixPath.join folder (image_basestem ++ ".m4v") ] in
  c ← first_where (fun c =>
         if FS.exists_ w c then sniffs_as w SNIFFED_VIDEO c else Ok false) candidates;
  match c with
  | Some c => Ok (Some c)
  | None =>
      (* Fallback: scan directory for files that start with stem *)
      match
        es ← FS.scandir w folder;
        e ← first_where (fun e =>
               if FS.e_is_file e
                  && ((FS.e_name e =? image_basestem)
                      || Str.startswith (FS.e_name e) (image_basestem ++ "."))
               then sniffs_as w SNIFFED_VIDEO (FS.e_path e)
               else Ok false) es;
        Ok (option_map FS.e_path e)
      with
      | Raise FileNotFoundError => Ok None
      | r => r
      end
  end.

(** *** ExifTool writing *)

(** The dict [extract_metadata] returns; [None] and [PNone] are Python's
    [None]. *)
Record metadata := mk_meta {
  timestamp : option Z;
  latitude : pyval;
  longitude : pyval;
  altitude : pyval;
}.

(** [json.load] on the opened descriptor *)
Definition json_load (w : FS.world) (json_path : string) : result pyval :=
  f ← FS.open_ w json_path;
  match FS.f_json f with
  | Some j => Ok j
  | None => Raise JSONDecodeError
  end.

(** [isinstance(j.get(key), dict) and j[key].get('timestamp')], then the
    guarded [int(j[key]['timestamp'])] *)
Definition read_timestamp (j : pyval) (key : string) : result (option Z) :=
  field ← Py.get j key;
  if Py.isinstance_dict field then
    t ← Py.get field "timestamp";
    if Py.truthy t then
      Ok (match Py.int t with
          | Ok ts => Some ts
          | Raise _ => None
          end)
    else Ok None
  else Ok None.

Definition extract_metadata (w : FS.world) (json_path : string) : result metadata :=
  j ← json_load w json_path;
  ts ← read_timestamp j "photoTakenTime";
  ts ← match ts with
       | None => read_timestamp j "creationTime"
       | Some _ => Ok ts
       end;
  g ← Py.get_default j "geoData" (PDict []);
  let geo := if Py.truthy g then g else PDict [] in
  lat ← Py.get geo "latitude";
  lon ← Py.get geo "longitude";
  alt ← Py.get geo "altitude";
  Ok (mk_meta ts lat lon alt).

Definition fmt_ts (ts : Z) : result string :=
  dt ← Py.fromtimestamp ts; Ok (Py.strftime dt).

(** [if ts:] on an [int] or [None] *)
Definition ts_truthy (ts : option Z) : bool :=
  match ts with
  | Some z => negb (z =? 0)%Z
  | None => false
  end.

Section Tool.
Context `{External}.

Definition valid_num (x : pyval) : bool :=
  negb (Py.is_None x) && negb (Py.str x =? "").

Definition build_exiftool_args (w : FS.world) (target_path : string) (meta : metadata)
    : result (list string) :=
  let ts := timestamp meta in
  let lat := latitude meta in
  let lon := longitude meta in
  let alt := altitude meta in
  let args := ["-overwrite_original"] in
  args ← (if ts_truthy ts then
            dt ← fmt_ts (default 0%Z ts);
            Ok (List.app args
                  [ "-DateTimeOriginal=" ++ dt;
                    "-CreateDate=" ++ dt;
                    "-ModifyDate=" ++ dt;
                    "-P";
                    "-FileCreateDate<CreateDate";
                    "-FileModifyDate<ModifyDate" ])
          else Ok args);
  let args := if valid_num lat && valid_num lon
              then List.app args ["-GPSLatitude=" ++ Py.str lat; "-GPSLongitude=" ++ Py.str lon]
              else args in
  let args := if valid_num alt
              then List.app args ["-GPSAltitude=" ++ Py.str alt]
              else args in
  kind ← sniff_type w target_path;
  let args := match kind with
              | Some (k, _) => if in_list k SNIFFED_VIDEO
                               then List.app ["-api"; "QuickTimeUTC=1"] args
                               else args
              | None => args
              end in
  Ok args.

Definition run_exiftool (w : FS.world) (args : list string) (target : string)
    : Z * string * FS.world :=
  let cmd := List.app ("exiftool" :: args) [target] in
  match subprocess_run cmd w with
  | Some (returncode, out, w') => (returncode, out, w')
  | None => (127%Z, "exiftool not found. Install it and ensure it's in PATH.", w)
  end.

(** *** Filesystem timestamp setter *)

Definition set_fs_times_fallback (w : FS.world) (path : string) (timestamp : Z)
    : FS.world :=
  match dt ← Py.fromtimestamp timestamp;
        let mod_ := Py.timestamp dt in
        FS.utime w path mod_ mod_
  with
  | Ok w' => w'
  | Raise _ => w
  end.

(** *** Apply metadata + filesystem timestamps *)

Definition apply_metadata_and_fs_times (w : FS.world) (target_path : string)
    (meta : metadata) : result (Z * string * FS.world) :=
  args ← build_exiftool_args w target_path meta;
  let '(rc, log, w) := run_exiftool w args target_path in
  let ts := timestamp meta in
  let w := if ts_truthy ts
           then set_fs_times_fallback w target_path (default 0%Z ts)
           else w in
  Ok (rc, log, w).

End Tool.

(** *** Output-only normalization and copy *)

(** The [while os.path.exists(candidate)] loop, from counter [n]. *)
Fixpoint next_free (w : FS.world) (out_dir stem ext : string) (fuel n : nat)
    : option string :=
  match fuel with
  | O => None
  | S k =>
      let candidate := PosixPath.join out_dir (stem ++ "(" ++ pretty n ++ ")" ++ ext) in
      if FS.exists_ w candidate
      then next_free w out_dir stem ext k (S n)
      else Some candidate
  end.

(** More turns than [out_dir] has entries cannot all find their name taken. *)
Definition loop_bound (w : FS.world) (out_dir : string) : nat :=
  match FS.resolve w out_dir with
  | Some (FS.Dir es) => S (length es)
  | _ => 1
  end.

Definition compute_normalized_output (w : FS.world)
    (root_folder out_folder media_path : string) : result (string * FS.world) :=
  let src_dir := PosixPath.dirname media_path in
  rel_dir ← PosixPath.relpath src_dir root_folder;
  let base_name := PosixPath.basename media_path in
  let '(base, last_ext) := collapse_extensions base_name in
  sniff ← sniff_type w media_path;
  let target_ext :=
    match sniff with
    | Some (_, target_ext) => target_ext
    | None => if negb (last_ext =? "") then Str.lower (Str.drop 1 last_ext) else ""
    end in
  let desired_name := if negb (target_ext =? "") then base ++ "." ++ target_ext else base in
  let out_dir := PosixPath.join out_folder rel_dir in
  w ← FS.makedirs w out_dir;
  let dst := PosixPath.join out_dir desired_name in
  if FS.exists_ w dst then
    let '(stem, ext) := PosixPath.splitext desired_name in
    match next_free w out_dir stem ext (loop_bound w out_dir) 1 with
    | Some candidate => Ok (candidate, w)
    | None => Raise NonTermination
    end
  else Ok (dst, w).

Definition copy_media_to_output (w : FS.world)
    (root_folder out_folder media_path : string) : result (string * FS.world) :=
  '(dst, w) ← compute_normalized_output w root_folder out_folder media_path;
  if negb (FS.exists_ w dst) then
    w ← FS.copy2 w media_path dst; Ok (dst, w)
  else Ok (dst, w).

End aux_functions.

(** ** process_folder.py *)

Module process_folder.
Import aux_functions.

Definition EXCLUDE_JSON_BASE : list string := ["metadata"; "shared_album_comments"].

(** [sys.getrecursionlimit()] *)
Definition RECURSION_LIMIT : nat := 1000.

(** The frames on the stack when [get_sidecars] is first called: the
    script and [process_folder]. *)
Definition CALLER_FRAMES : nat := 2.

(** [depth] is the room left on the interpreter's stack, in frames.  A
    call of [get_sidecars] takes one, so a chain of 998 directories below
    the root raises [RecursionError] and a chain of 997 does not.  The
    calls made for one entry ([os.path.splitext], [search_media] and what
    they call) take a few frames more, which are not counted: where a
    directory lies within a few frames of the limit, these calls can raise
    in the script and not here. *)
Fixpoint get_sidecars_rec (depth : nat) (w : FS.world) (folder edited_word : string)
    : result (list (string * option string)) :=
  match depth with
  | O => Raise RecursionError
  | S depth =>
      es ← FS.scandir w folder;
      foldl (fun pairs entry =>
               pairs ← pairs;
               if FS.e_is_dir entry then
                 more ← get_sidecars_rec depth w (FS.e_path entry) edited_word;
                 Ok (List.app pairs more)
               else if FS.e_is_file entry then
                 let '(base, ext) := PosixPath.splitext (FS.e_name entry) in
                 if (Str.lower ext =? ".json") && negb (in_list base EXCLUDE_JSON_BASE) then
                   media ← search_media w folder base edited_word;
                   Ok (List.app pairs [(FS.e_path entry, media)])
                 else Ok pairs
               else Ok pairs)
            (Ok []) es
  end.

Definition get_sidecars (w : FS.world) (folder edited_word : string)
    : result (list (string * option string)) :=
  get_sidecars_rec (RECURSION_LIMIT - CALLER_FRAMES) w folder edited_word.

(** What one turn of the loop did, in order: the history of a run. *)
Inductive event :=
  | Missing (json_path : string)
  | Placed (media_path out_media : string)
  | Written (out_media : string) (rc : Z)
  | LivePlaced (live_path out_live : string)
  | LiveWritten (live_path out_live : string) (rc2 : Z)
  | Linked (live_path : string).

(** The local variables of [process_folder], the world and the history. *)
Record run := mk_run {
  disk : FS.world;
  success : nat;
  failed : nat;
  linked_live : nat;
  seen_live : gset string;
  history : list event;
}.

(** [not p] on a path or [None] *)
Definition no_path (p : option string) : bool :=
  match p with
  | None | Some "" => true
  | Some _ => false
  end.

Section Loop.
Context `{External}.

(** The live-photo part of the loop body. *)
Definition link_live (root_folder out_folder media_path : string) (meta : metadata)
    (r : run) : result run :=
  kind ← sniff_type (disk r) media_path;
  match kind with
  | Some (k, _) =>
      if negb (in_list k SNIFFED_VIDEO) then
        let '(stem, _) := PosixPath.splitext (PosixPath.basename media_path) in
        let folder := PosixPath.dirname media_path in
        live_path ← find_live_video_partner (disk r) folder stem;
        if negb (no_path live_path)
           && negb (bool_decide (default "" live_path ∈ seen_live r)) then
          let live_path := default "" live_path in
          '(out_live, w) ← copy_media_to_output (disk r) root_folder out_folder live_path;
          '(rc2, log2, w) ← apply_metadata_and_fs_times w out_live meta;
          let h := List.app (history r)
                     [LivePlaced live_path out_live; LiveWritten live_path out_live rc2] in
          if negb (rc2 =? 0)%Z then
            Ok (mk_run w (success r) (failed r) (linked_live r) (seen_live r) h)
          else
            Ok (mk_run w (success r) (failed r) (linked_live r + 1)
                       ({[live_path]} ∪ seen_live r) (List.app h [Linked live_path]))
        else Ok r
      else Ok r
  | None => Ok r
  end.

(** The body of the [for json_path, media_path in sidecars] loop. *)
Definition process_one (root_folder out_folder : string) (r : run)
    (unit_ : string * option string) : result run :=
  let '(json_path, media_path) := unit_ in
  if no_path media_path then
    Ok (mk_run (disk r) (success r) (failed r + 1) (linked_live r) (seen_live r)
               (List.app (history r) [Missing json_path]))
  else
    let media_path := default "" media_path in
    '(out_media, w) ← copy_media_to_output (disk r) root_folder out_folder media_path;
    meta ← extract_metadata w json_path;
    '(rc, log, w) ← apply_metadata_and_fs_times w out_media meta;
    let success := if negb (rc =? 0)%Z then success r else success r + 1 in
    let h := List.app (history r) [Placed media_path out_media; Written out_media rc] in
    link_live root_folder out_folder media_path meta
      (mk_run w success (failed r) (linked_live r) (seen_live r) h).

Fixpoint process_all (root_folder out_folder : string) (r : run)
    (sidecars : list (string * option string)) : result run :=
  match sidecars with
  | [] => Ok r
  | u :: rest =>
      r ← process_one root_folder out_folder r u;
      process_all root_folder out_folder r rest
  end.

Definition process_folder (w : FS.world) (root_folder edited_word out_folder : string)
    : result run :=
  sidecars ← get_sidecars w root_folder edited_word;
  process_all root_folder out_folder (mk_run w 0 0 0 ∅ []) sidecars.

End Loop.

End process_folder.

(** ** merge_metadata.py *)

Module merge_metadata.

Section Script.
Context `{External}.

(** The script, once its arguments are parsed: [raise SystemExit(1)] when
    the source folder does not exist. *)
Definition main (w : FS.world) (source_folder output_folder edited_word : string)
    : result process_folder.run :=
  if negb (FS.exists_ w source_folder) then Raise SystemExit
  else
    w ← FS.makedirs w output_folder;
    process_folder.process_folder w source_folder edited_word output_folder.

End Script.

End merge_metadata.

(** ** Predicates used to state the properties *)

Module Props.
Import aux_functions process_folder.

(** A header carries one of the signatures the sniffer knows. *)
Definition recognized (header : list byte) : Prop :=
  slice 0 2 header = JPEG_SOI
  ∨ slice 0 8 header = PNG_SIG
  ∨ slice 0 4 header = TIFF_LE
  ∨ slice 0 4 header = TIFF_BE
  ∨ ((12 ≤ length header)%nat ∧ slice 4 8 header = FTYP).

(** A directory entry name: not empty, not [.] or [..], without [/]. *)
Definition simple_name (n : string) : bool :=
  negb (n =? "") && negb (n =? ".") && negb (n =? "..")
  && negb (Str.contains_char "/" n).

(** What [w] holds is still there in [w']: every regular file with its
    bytes, descriptor value and times, and every directory. *)
Definition preserved (w w' : FS.world) : Prop :=
  ∀ cs,
    (∀ f, FS.walk cs w = Some (FS.File f) → FS.walk cs w' = Some (FS.File f))
    ∧ (∀ es, FS.walk cs w = Some (FS.Dir es) → ∃ es', FS.walk cs w' = Some (FS.Dir es')).

(** Two file records agree on bytes, descriptor value and modification
    time; the access time, which a read may move, is left out. *)
Definition same_file (f f' : FS.file) : Prop :=
  FS.f_data f = FS.f_data f'
  ∧ FS.f_json f = FS.f_json f'
  ∧ FS.f_mtime f = FS.f_mtime f'.

(** What [w] holds is kept in [w']: every regular file with its bytes,
    descriptor value and modification time, and every directory. *)
Definition kept (w w' : FS.world) : Prop :=
  ∀ cs,
    (∀ f, FS.walk cs w = Some (FS.File f) →
       ∃ f', FS.walk cs w' = Some (FS.File f') ∧ same_file f f')
    ∧ (∀ es, FS.walk cs w = Some (FS.Dir es) → ∃ es', FS.walk cs w' = Some (FS.Dir es')).


(** The request holds a directive that starts with [tag]. *)
Definition has_tag (tag : string) (args : list string) : bool :=
  existsb (fun a => Str.startswith a tag) args.

(** Two texts differ at a position both have. *)
Fixpoint diverge (a b : string) : bool :=
  match a, b with
  | String x a', String y b' => negb (Ascii.eqb y x) || diverge a' b'
  | _, _ => false
  end.

(** *** The history of a run *)

Definition is_missing (e : event) : bool :=
  match e with Missing _ => true | _ => false end.

Definition is_written (e : event) : bool :=
  match e with Written _ _ => true | _ => false end.

Definition is_written_ok (e : event) : bool :=
  match e with Written _ rc => (rc =? 0)%Z | _ => false end.

Definition is_live (e : event) : bool :=
  match e with LivePlaced _ _ | LiveWritten _ _ _ | Linked _ => true | _ => false end.

Definition count (p : event → bool) (h : list event) : nat :=
  length (List.filter p h).






(** Every failed unit, media missing or tool failing, is in the failure
    counter. *)
Definition failures_counted (r : run) : Prop :=
  failed r
  = (count is_missing (history r)
     + (count is_written (history r) - count is_written_ok (history r)))%nat.

(** *** Descriptors *)

(** The value under [key]["timestamp"], when [key] holds an object. *)
Definition declared_timestamp (d : list (string * pyval)) (key : string)
    : option pyval :=
  match Py.dict_lookup key d with
  | Some (PDict t) => Py.dict_lookup "timestamp" t
  | _ => None
  end.

(** Every byte is in the ASCII range. *)
Definition ascii_only (s : string) : bool :=
  PosixPath.all_chars (fun c => (nat_of_ascii c <? 128)%nat) s.

(** A value that is not a text, or a text of ASCII characters. *)
Definition ascii_value (v : pyval) : bool :=
  match v with
  | PStr s => ascii_only s
  | _ => true
  end.

(** Missing, falsy, or not convertible by [int].  (A text is looked at
    when it is made of ASCII characters: [int] also reads the digits and
    skips the spaces of other scripts.) *)
Definition unusable (o : option pyval) : Prop :=
  match o with
  | None => True
  | Some t => Py.truthy t = false ∨ (ascii_value t = true ∧ ∃ e, Py.int t = Raise e)
  end.

(** What [int] makes of a truthy value, when it makes something. *)
Definition usable_timestamp (o : option pyval) : option Z :=
  match o with
  | Some t => if Py.truthy t
              then match Py.int t with
                   | Ok ts => Some ts
                   | Raise _ => None
                   end
              else None
  | None => None
  end.

(** The fields of [geoData], none when it is absent or falsy. *)
Definition geo_fields (d : list (string * pyval)) : list (string * pyval) :=
  match Py.dict_lookup "geoData" d with
  | Some (PDict g) => g
  | _ => []
  end.

(** [geoData] is absent, falsy or an object. *)
Definition geo_well_formed (d : list (string * pyval)) : Prop :=
  match Py.dict_lookup "geoData" d with
  | None => True
  | Some g => Py.truthy g = false ∨ Py.isinstance_dict g = true
  end.

Section Claims.
Context `{External}.


(** C4 as the spec words it: in a run, a unit whose media is missing or
    whose write fails adds one to the failure counter. *)
Definition failures_counted_in_run (w : FS.world) (root edited_word out : string)
    : Prop :=
  ∀ r, process_folder w root edited_word out = Ok r → failures_counted r.

(** C3 as the spec words it: with the source root there, no descriptor
    makes the run raise. *)
Definition run_survives_descriptors (w : FS.world) (root out edited_word : string)
    : Prop :=
  FS.exists_ w root = true → ∃ r, merge_metadata.main w root out edited_word = Ok r.

(** C6 as the spec words it: GPS directives are requested exactly when
    latitude and longitude are both there. *)
Definition gps_only_with_lat_lon (w : FS.world) (target : string) (meta : metadata)
    : Prop :=
  ∀ args, build_exiftool_args w target meta = Ok args →
    has_tag "-GPS" args = valid_num (latitude meta) && valid_num (longitude meta).


End Claims.

(** *** Titles *)

(** No white space stands next to white space. *)
Fixpoint single_spaced (s : string) : bool :=
  match s with
  | "" => true
  | String c r =>
      negb (Str.is_space c
            && match r with
               | String d _ => Str.is_space d
               | "" => false
               end)
      && single_spaced r
  end.

(** No dot stands next to a dot. *)
Fixpoint no_double_dot (s : string) : bool :=
  match s with
  | "" => true
  | String c r => negb (PosixPath.is_dot c && Str.startswith r ".") && no_double_dot r
  end.

(** *** What a generator gives *)

(** The items it yields, in order. *)
Definition yields {A} (l : list (emitted A)) : list A :=
  flat_map (fun e => match e with
                     | Yielded x => [x]
                     | Printed _ => []
                     end) l.

(** The texts it prints, in order. *)
Definition prints {A} (l : list (emitted A)) : list string :=
  flat_map (fun e => match e with
                     | Printed s => [s]
                     | Yielded _ => []
                     end) l.

(** *** Worlds *)

(** The same tree, every regular file with the same bytes and descriptor
    value; times may differ. *)
Definition same_content (w w' : FS.world) : Prop :=
  ∀ cs,
    match FS.walk cs w, FS.walk cs w' with
    | Some (FS.File f), Some (FS.File f') =>
        FS.f_data f = FS.f_data f' ∧ FS.f_json f = FS.f_json f'
    | Some (FS.Dir _), Some (FS.Dir _) => True
    | None, None => True
    | _, _ => False
    end.

(** Away from the node at [cs], what [w] holds is still there in [w']. *)
Definition untouched_but (cs : list string) (w w' : FS.world) : Prop :=
  ∀ cs', cs' ≠ cs →
    (∀ f, FS.walk cs' w = Some (FS.File f) → FS.walk cs' w' = Some (FS.File f))
    ∧ (∀ es, FS.walk cs' w = Some (FS.Dir es) → ∃ es', FS.walk cs' w' = Some (FS.Dir es')).

Section Tools.
Context `{External}.

(** [exiftool] changes nothing but the file it is given, and leaves a file
    there. *)
Definition confined_tool : Prop :=
  ∀ args target w rc log w',
    subprocess_run (List.app ("exiftool" :: args) [target]) w = Some (rc, log, w') →
    untouched_but (FS.components target) w w'
    ∧ (FS.exists_ w target = true → FS.exists_ w' target = true).

End Tools.

(** [name] with the counter [n] in front of its extension. *)
Definition numbered (name : string) (n : nat) : string :=
  let '(stem, ext) := PosixPath.splitext name in
  stem ++ "(" ++ pretty n ++ ")" ++ ext.

(** The output directory and the name a source asks for, before any
    numbering: the base of its name with the extension of its content
    or, when the content is not recognized, its innermost extension in
    lower case.  This is what [compute_normalized_output] works out
    before it makes the directory and looks for a free name. *)
Definition wanted (w : FS.world) (root_folder out_folder media_path : string)
    : result (string * string) :=
  rel_dir ← PosixPath.relpath (PosixPath.dirname media_path) root_folder;
  let '(base, last_ext) := collapse_extensions (PosixPath.basename media_path) in
  sniff ← sniff_type w media_path;
  let target_ext :=
    match sniff with
    | Some (_, target_ext) => target_ext
    | None => if negb (last_ext =? "") then Str.lower (Str.drop 1 last_ext) else ""
    end in
  Ok (PosixPath.join out_folder rel_dir,
      if negb (target_ext =? "") then base ++ "." ++ target_ext else base).

(** A source that can be placed: a regular file under an entry name,
    whose output directory can be made. *)
Definition placeable (w : FS.world) (root_folder out_folder media_path : string)
    : Prop :=
  simple_name (PosixPath.basename media_path) = true
  ∧ FS.isfile w media_path = true
  ∧ ∃ d name w', wanted w root_folder out_folder media_path = Ok (d, name)
                 ∧ FS.makedirs w d = Ok w'.


(** The destinations of the placements of a run, in order. *)
Definition outputs (h : list event) : list string :=
  flat_map (fun e => match e with
                     | Placed _ o | LivePlaced _ o => [o]
                     | _ => []
                     end) h.

(** Every directory holds simple names, each once. *)
Fixpoint well_formed (n : FS.node) : bool :=
  match n with
  | FS.File _ => true
  | FS.Dir es =>
      forallb (fun kc => simple_name (fst kc) && well_formed (snd kc)) es
      && bool_decide (NoDup (List.map fst es))
  end.

(** An entry name that [get_sidecars] takes for a descriptor. *)
Definition is_descriptor_name (name : string) : bool :=
  let '(base, ext) := PosixPath.splitext name in
  (Str.lower ext =? ".json") && negb (in_list base EXCLUDE_JSON_BASE).

(** The descriptors of a tree: for each regular file with such a name,
    the directories that lead to it from the top and its name; in the
    order [os.scandir] gives the entries, a subdirectory being gone
    through where it stands. *)
Fixpoint descriptor_places (n : FS.node) : list (list string * string) :=
  match n with
  | FS.File _ => []
  | FS.Dir es =>
      foldr (fun kc acc =>
               List.app
                 (match snd kc with
                  | FS.File _ => if is_descriptor_name (fst kc) then [([], fst kc)] else []
                  | FS.Dir _ =>
                      List.map (fun place => (fst kc :: fst place, snd place))
                        (descriptor_places (snd kc))
                  end) acc) [] es
  end.

(** The descriptors found through one entry of a directory. *)
Definition entry_places (kc : string * FS.node) : list (list string * string) :=
  match snd kc with
  | FS.File _ => if is_descriptor_name (fst kc) then [([], fst kc)] else []
  | FS.Dir _ =>
      List.map (fun place => (fst kc :: fst place, snd place))
        (descriptor_places (snd kc))
  end.

(** The entry of the top directory a place goes through. *)
Definition place_key (place : list string * string) : string :=
  match fst place with
  | [] => snd place
  | c :: _ => c
  end.

(** [os.path.join(folder, *ds)] *)
Definition join_under (folder : string) (ds : list string) : string :=
  fold_left PosixPath.join ds folder.

(** The pair [get_sidecars] lists for the descriptor at [place] below
    [folder]: its path, and what the resolver finds for its base in the
    directory that holds it. *)
Definition listed_for (w : FS.world) (folder edited_word : string)
    (pair : string * option string) (place : list string * string) : Prop :=
  let d := join_under folder (fst place) in
  fst pair = PosixPath.join d (snd place)
  ∧ search_media w d (fst (PosixPath.splitext (snd place))) edited_word = Ok (snd pair).

(** Frames left free under the recursion limit, for the caller's frames
    and for the calls made on the entries of the deepest directory. *)
Definition STACK_MARGIN : nat := 100.

(** The number of directories on the longest way down a tree. *)
Fixpoint height (n : FS.node) : nat :=
  match n with
  | FS.File _ => 0
  | FS.Dir es => S (foldr (fun kc acc => Nat.max (height (snd kc)) acc) 0%nat es)
  end.

(** What a run keeps, from the world [w0] it started in: what [w0] held,
    and the destinations it wrote, each of them once. *)
Definition keeps (w0 : FS.world) (r : run) : Prop :=
  preserved w0 (disk r)
  ∧ NoDup (outputs (history r))
  ∧ Forall (fun o => FS.exists_ (disk r) o = true) (outputs (history r)).

End Props.

(** ** Concrete inputs *)

Module Examples.
Import FS.

Definition jpeg_bytes : list byte := [xff; xd8; xff; xe0; x00; x10].
Definition mov_bytes : list byte :=
  List.app [x00; x00; x00; x14] (List.app (list_byte_of_string "ftypqt  ") [x00; x00; x00; x00]).

Definition media (data : list byte) : node := File (mk_file data None 1000 1000).
Definition descriptor (j : option pyval) : node := File (mk_file [] j 2000 2000).

(** An export with a header-less file next to a photo. *)
Definition truncated_world : world :=
  Dir [("takeout", Dir [("album", Dir [("IMG_7.jpg", media [xff])])])].

(** Two photos whose names normalize to [photo.jpg]. *)
Definition collision_world : world :=
  Dir [("takeout", Dir [("album", Dir [
         ("photo.jpg", media jpeg_bytes);
         ("photo.v2.jpg", media (List.app jpeg_bytes [x01]))])])].

(** The same, once the first photo is placed under [/out]. *)
Definition collision_world_1 : world :=
  match aux_functions.copy_media_to_output collision_world "/takeout" "/out"
          "/takeout/album/photo.jpg" with
  | Ok (_, w) => w
  | Raise _ => collision_world
  end.

(** ... and once the second is. *)
Definition collision_world_2 : world :=
  match aux_functions.copy_media_to_output collision_world_1 "/takeout" "/out"
          "/takeout/album/photo.v2.jpg" with
  | Ok (_, w) => w
  | Raise _ => collision_world_1
  end.

(** One photo, to be placed twice. *)
Definition single_world : world :=
  Dir [("takeout", Dir [("album", Dir [("photo.jpg", media jpeg_bytes)])])].

(** The same, once the photo is placed under [/out]. *)
Definition single_world_1 : world :=
  match aux_functions.copy_media_to_output single_world "/takeout" "/out"
          "/takeout/album/photo.jpg" with
  | Ok (_, w) => w
  | Raise _ => single_world
  end.

(** A directory that holds only the edited variant of a photo. *)
Definition edited_world : world :=
  Dir [("takeout", Dir [("album", Dir [("IMG_2-edited.jpg", media jpeg_bytes)])])].

(** No [exiftool] on the PATH.  No float occurs in the examples, so how
    one prints does not matter here. *)
Definition no_exiftool : External :=
  {| float_str := fun _ => "nan"; subprocess_run := fun _ _ => None |}.

(** An [exiftool] that fails on every file and touches nothing. *)
Definition failing_exiftool : External :=
  {| float_str := fun _ => "nan";
     subprocess_run := fun _ w => Some (1%Z, "Error: File format error", w) |}.

(** An [exiftool] that reports success and touches nothing. *)
Definition working_exiftool : External :=
  {| float_str := fun _ => "nan";
     subprocess_run := fun _ w => Some (0%Z, "    1 image files updated", w) |}.

(** A placed photo whose descriptor gave [timestamp = 0]. *)
Definition epoch_world : world :=
  Dir [("out", Dir [("album", Dir [("photo.jpg", media jpeg_bytes)])])].

Definition epoch_meta : aux_functions.metadata :=
  aux_functions.mk_meta (Some 0%Z) PNone PNone PNone.

(** A descriptor with an altitude and no position. *)
Definition altitude_only_meta : aux_functions.metadata :=
  aux_functions.mk_meta None PNone PNone (PInt 35).

(** A descriptor dated 1970-01-01 00:00:00 UTC. *)
Definition epoch_descriptor : pyval :=
  PDict [("title", PStr "photo.jpg");
         ("photoTakenTime", PDict [("timestamp", PStr "0")])].

Definition epoch_source : world :=
  Dir [("takeout", Dir [("album", Dir [
         ("photo.jpg", media jpeg_bytes);
         ("photo.jpg.json", descriptor (Some epoch_descriptor))])])].

(** A descriptor that is not a JSON document, next to its photo. *)
Definition broken_descriptor_world : world :=
  Dir [("takeout", Dir [("album", Dir [
         ("photo.jpg", media jpeg_bytes);
         ("photo.jpg.json", File (mk_file [x7b] None 2000 2000))])])].

(** The same, once the photo is placed under [/out]. *)
Definition broken_descriptor_world_1 : world :=
  match aux_functions.copy_media_to_output broken_descriptor_world "/takeout" "/out"
          "/takeout/album/photo.jpg" with
  | Ok (_, w) => w
  | Raise _ => broken_descriptor_world
  end.

(** A descriptor dated 2020-09-13, with a position. *)
Definition dated_descriptor : pyval :=
  PDict [("title", PStr "photo.jpg");
         ("photoTakenTime", PDict [("timestamp", PStr "1600000000")]);
         ("geoData", PDict [("latitude", PInt 48); ("longitude", PInt 2);
                            ("altitude", PInt 35)])].

(** One photo and its descriptor. *)
Definition one_photo_world : world :=
  Dir [("takeout", Dir [("album", Dir [
         ("photo.jpg", media jpeg_bytes);
         ("photo.jpg.json", descriptor (Some dated_descriptor))])])].

(** Two stills, [photo.jpg] and [photo.v2.jpg], whose live-photo partner
    is the one video [photo.v2.mov]: by name for the second, by the prefix
    scan for the first. *)
Definition shared_video_world : world :=
  Dir [("takeout", Dir [("album", Dir [
         ("photo.jpg", media jpeg_bytes);
         ("photo.jpg.json", descriptor (Some dated_descriptor));
         ("photo.v2.jpg", media jpeg_bytes);
         ("photo.v2.jpg.json", descriptor (Some dated_descriptor));
         ("photo.v2.mov", media mov_bytes)])])].

Definition empty_run (w : world) : process_folder.run :=
  process_folder.mk_run w 0 0 0 ∅ [].

(** The run over [shared_video_world] when [exiftool] is not installed. *)
Definition unlinked_run : process_folder.run :=
  match @process_folder.process_folder no_exiftool shared_video_world
          "/takeout" "edited" "/out" with
  | Ok r => r
  | Raise _ => empty_run shared_video_world
  end.

(** The run over [shared_video_world] when [exiftool] works. *)
Definition linked_run : process_folder.run :=
  match @process_folder.process_folder working_exiftool shared_video_world
          "/takeout" "edited" "/out" with
  | Ok r => r
  | Raise _ => empty_run shared_video_world
  end.

(** A still and a video that is its live-photo partner by the prefix
    scan, each with a descriptor of its own. *)
Definition own_descriptor_world : world :=
  Dir [("takeout", Dir [("album", Dir [
         ("a.jpg", media jpeg_bytes);
         ("a.jpg.json", descriptor (Some dated_descriptor));
         ("a.b.mov", media mov_bytes);
         ("a.b.mov.json", descriptor (Some dated_descriptor))])])].

(** The run over [own_descriptor_world] when [exiftool] works. *)
Definition own_descriptor_run : process_folder.run :=
  match @process_folder.process_folder working_exiftool own_descriptor_world
          "/takeout" "edited" "/out" with
  | Ok r => r
  | Raise _ => empty_run own_descriptor_world
  end.

(** The run over [one_photo_world] when [exiftool] fails. *)
Definition failed_write_run : process_folder.run :=
  match @process_folder.process_folder failing_exiftool one_photo_world
          "/takeout" "edited" "/out" with
  | Ok r => r
  | Raise _ => empty_run one_photo_world
  end.

(** The whole program over [shared_video_world] when [exiftool] works. *)
Definition whole_run : process_folder.run :=
  match @merge_metadata.main working_exiftool shared_video_world
          "/takeout" "/out" "edited" with
  | Ok r => r
  | Raise _ => empty_run shared_video_world
  end.

(** A console whose numbers are not looked at. *)
Definition plain_console : Console := {| format_fixed := fun _ _ => "?" |}.

(** A photo whose name differs from its descriptor's by letter case. *)
Definition upper_case_world : world :=
  Dir [("takeout", Dir [("album", Dir [
         ("IMG_1.JPG", media jpeg_bytes);
         ("img_1.jpg.json", descriptor (Some dated_descriptor))])])].

(** A descriptor whose [photoTakenTime] is empty and whose [creationTime]
    is 2020-09-13; next to its photo. *)
Definition creation_descriptor : pyval :=
  PDict [("title", PStr "photo.jpg");
         ("photoTakenTime", PDict [("timestamp", PStr "")]);
         ("creationTime", PDict [("timestamp", PStr "1600000000")])].

Definition creation_world : world :=
  Dir [("takeout", Dir [("album", Dir [
         ("photo.jpg", media jpeg_bytes);
         ("photo.jpg.json", descriptor (Some creation_descriptor))])])].

(** A descriptor that holds a JSON list. *)
Definition list_descriptor_world : world :=
  Dir [("takeout", Dir [("album", Dir [
         ("photo.jpg", media jpeg_bytes);
         ("photo.jpg.json", descriptor (Some (PList [])))])])].

(** A chain of [n] directories, one inside the other. *)
Fixpoint nested (n : nat) : node :=
  match n with
  | O => Dir []
  | S k => Dir [("d", nested k)]
  end.

(** A descriptor dated in milliseconds. *)
Definition millis_meta : aux_functions.metadata :=
  aux_functions.mk_meta (Some 1600000000000%Z) PNone PNone PNone.

End Examples.

(** * Supporting lemmas *)

(** ** Text *)

(** [simpl] leaves [String.append] alone; this unfolds it on literals. *)
Ltac app_simpl :=
  repeat match goal with
         | |- context [String ?c ?a ++ ?b] =>
             change (String c a ++ b) with (String c (a ++ b))
         | |- context ["" ++ ?b] => change ("" ++ b) with b
         | H : context [String ?c ?a ++ ?b] |- _ =>
             change (String c a ++ b) with (String c (a ++ b)) in H
         | H : context ["" ++ ?b] |- _ => change ("" ++ b) with b in H
         end.

Section TextLemmas.
Import Props.

Lemma string_app_cons c (a b : string) : String c a ++ b = String c (a ++ b).
Proof. reflexivity. Qed.

Lemma string_app_nil_l (s : string) : "" ++ s = s.
Proof. reflexivity. Qed.

Lemma string_app_nil_r (s : string) : s ++ "" = s.
Proof. induction s as [|c s IH]; app_simpl; [done|by rewrite IH]. Qed.

Lemma string_app_assoc (a b c : string) : (a ++ b) ++ c = a ++ b ++ c.
Proof. induction a as [|x a IH]; app_simpl; simpl; [done|by rewrite IH]. Qed.

Lemma string_app_length (a b : string) :
  String.length (a ++ b) = (String.length a + String.length b)%nat.
Proof. induction a as [|x a IH]; app_simpl; simpl; [done|by rewrite IH]. Qed.

Lemma string_app_inv_head (a b c : string) : a ++ b = a ++ c → b = c.
Proof. induction a; app_simpl; intros Heq; [done|]. injection Heq; auto. Qed.

Lemma string_app_inv_tail (a b c : string) : a ++ c = b ++ c → a = b.
Proof.
  revert b. induction a as [|x a IH]; intros [|y b] Heq; app_simpl.
  - done.
  - exfalso. apply (f_equal String.length) in Heq. simpl in Heq.
    rewrite string_app_length in Heq. lia.
  - exfalso. apply (f_equal String.length) in Heq. simpl in Heq.
    rewrite string_app_length in Heq. lia.
  - injection Heq as -> Heq. f_equal. by apply IH.
Qed.

Lemma contains_char_app c (a b : string) :
  Str.contains_char c (a ++ b) = Str.contains_char c a || Str.contains_char c b.
Proof. induction a as [|x a IH]; app_simpl; simpl; [done|]. by rewrite IH, orb_assoc. Qed.

Lemma startswith_app (a b : string) : Str.startswith (a ++ b) a = true.
Proof.
  induction a as [|x a IH]; app_simpl; simpl; [done|].
  by rewrite Ascii.eqb_refl.
Qed.

Lemma eqb_refl_false (a b : string) : a ≠ b → (a =? b) = false.
Proof. apply String.eqb_neq. Qed.

Lemma lower_char_sep c : Ascii.eqb (Str.lower_char c) "/" = Ascii.eqb c "/".
Proof. by destruct c as [[] [] [] [] [] [] [] []]. Qed.

Lemma contains_sep_lower (s : string) :
  Str.contains_char "/" (Str.lower s) = Str.contains_char "/" s.
Proof.
  unfold Str.lower. induction s as [|c s IH]; simpl; [done|].
  by rewrite IH, lower_char_sep.
Qed.

Lemma contains_char_drop c n (s : string) :
  Str.contains_char c s = false → Str.contains_char c (Str.drop n s) = false.
Proof.
  revert s. induction n as [|n IH]; intros [|x s]; simpl; try done.
  intros [_ Hs]%orb_false_elim. by apply IH.
Qed.

(** *** [split] *)

Lemma split_nonempty sep (s : string) : Str.split sep s ≠ [].
Proof.
  induction s as [|c s IH]; simpl; [done|].
  destruct (Ascii.eqb c sep); [done|]. by destruct (Str.split sep s).
Qed.

Lemma split_no_sep sep (s : string) :
  Str.contains_char sep s = false → Str.split sep s = [s].
Proof.
  induction s as [|c s IH]; simpl; [done|].
  intros [Hc Hs]%orb_false_elim. rewrite Hc. by rewrite IH.
Qed.

Lemma split_app_sep sep (a b : string) :
  Str.split sep (a ++ String sep b) = (Str.split sep a ++ Str.split sep b)%list.
Proof.
  induction a as [|c a IH]; app_simpl; simpl.
  - by rewrite Ascii.eqb_refl.
  - destruct (Ascii.eqb c sep); rewrite IH; [done|].
    pose proof (split_nonempty sep a). by destruct (Str.split sep a).
Qed.

Lemma endswith_char_inv (s : string) c :
  Str.endswith_char s c = true → ∃ s', s = s' ++ String c "".
Proof.
  induction s as [|x s IH]; simpl; [done|].
  destruct s as [|y s].
  - intros ->%Ascii.eqb_eq. by exists "".
  - intros [s' Hs']%IH. exists (String x s'). app_simpl. by rewrite Hs'.
Qed.

(** *** [pretty] prints digits *)

Lemma pretty_N_char_no c x : Str.is_digit c = false → Ascii.eqb (pretty_N_char x) c = false.
Proof.
  intros Hc. apply Ascii.eqb_neq. intros <-. revert Hc.
  unfold pretty_N_char. by repeat case_match.
Qed.

Lemma pretty_N_go_no c x (s : string) :
  Str.is_digit c = false →
  Str.contains_char c s = false → Str.contains_char c (pretty_N_go x s) = false.
Proof.
  intros Hc. revert s. induction (N.lt_wf_0 x) as [x _ IH]; intros s Hs.
  assert (x = 0 ∨ 0 < x)%N as [->|?] by lia.
  - by rewrite pretty_N_go_0.
  - rewrite pretty_N_go_step by done. apply IH.
    { by apply N.div_lt. }
    simpl. by rewrite pretty_N_char_no, Hs.
Qed.

Lemma pretty_nat_no c (n : nat) :
  Str.is_digit c = false → Str.contains_char c (pretty n) = false.
Proof.
  intros Hc. unfold pretty, pretty_nat, pretty, pretty_N.
  case_decide; [by destruct c as [[] [] [] [] [] [] [] []]|].
  by apply pretty_N_go_no.
Qed.

End TextLemmas.

(** ** The sniffer *)

Section SnifferLemmas.
Import aux_functions Props.

Lemma sniff_header_short header :
  (length header < 2)%nat → sniff_header header = None.
Proof.
  destruct header as [|b [|b' header]]; simpl; intros Hlen; try lia; [done|].
  unfold sniff_header, slice; simpl.
  repeat (case_bool_decide as Hd; [exfalso; revert Hd|clear Hd]);
    rewrite ?elem_of_cons, ?elem_of_nil; try done.
  intros [Hd|[Hd|[]]]; discriminate Hd.
Qed.

Lemma sniff_header_unrecognized header :
  ¬ recognized header → sniff_header header = None.
Proof.
  intros Hno. unfold sniff_header.
  case_bool_decide; [done|].
  case_bool_decide; [exfalso; apply Hno; by left|].
  case_bool_decide; [exfalso; apply Hno; by right; left|].
  case_bool_decide as Ht.
  { exfalso; apply Hno. rewrite !elem_of_cons, elem_of_nil in Ht.
    destruct Ht as [Ht|[Ht|[]]]; [by right; right; left|by right; right; right; left]. }
  destruct (12 <=? length header)%nat eqn:Hlen; simpl; [|done].
  case_bool_decide; [|done].
  exfalso; apply Hno. apply Nat.leb_le in Hlen. by do 4 right.
Qed.

Lemma sniff_type_ok w path :
  sniff_type w path
  = Ok (match read_header w path with
        | Ok header => sniff_header header
        | Raise _ => None
        end).
Proof. unfold sniff_type. by destruct (read_header w path). Qed.

End SnifferLemmas.

(** ** Paths and the tree *)

Section TreeLemmas.
Import Props FS.

Lemma simple_name_spec n :
  simple_name n = true →
  n ≠ "" ∧ n ≠ "." ∧ n ≠ ".." ∧ Str.contains_char "/" n = false.
Proof.
  unfold simple_name. rewrite !andb_true_iff, !negb_true_iff, !String.eqb_neq.
  by intros [[[? ?] ?] ?].
Qed.

Lemma components_step_simple stack n :
  simple_name n = true → components_step stack n = n :: stack.
Proof.
  intros (H1 & H2 & H3 & _)%simple_name_spec. unfold components_step.
  by rewrite !eqb_refl_false.
Qed.

Lemma join_simple d n :
  simple_name n = true →
  PosixPath.join d n
  = if (d =? "") || Str.endswith_char d "/" then d ++ n else d ++ "/" ++ n.
Proof.
  intros (_ & _ & _ & Hn)%simple_name_spec. unfold PosixPath.join.
  destruct n as [|c n]; [done|]. simpl in *.
  apply orb_false_elim in Hn as [Hc _].
  by rewrite Ascii.eqb_sym, Hc.
Qed.

Lemma join_simple_nonempty d n : simple_name n = true → PosixPath.join d n ≠ "".
Proof.
  intros Hn. rewrite join_simple by done.
  apply simple_name_spec in Hn as (Hne & _).
  destruct n; [done|]. destruct ((d =? "") || Str.endswith_char d "/");
    intros Heq; apply (f_equal String.length) in Heq;
    rewrite ?string_app_length in Heq; simpl in Heq; lia.
Qed.

(** Joining a name to a directory path walks one step further. *)
Lemma components_join d n :
  simple_name n = true →
  components (PosixPath.join d n) = (components d ++ [n])%list.
Proof.
  intros Hn. rewrite join_simple by done. unfold components.
  pose proof Hn as (_ & _ & _ & Hsep)%simple_name_spec.
  destruct (d =? "") eqn:Hd; simpl.
  { apply String.eqb_eq in Hd as ->. app_simpl.
    rewrite (split_no_sep "/" n) by done. simpl. by rewrite components_step_simple by done. }
  destruct (Str.endswith_char d "/") eqn:Hend.
  - apply endswith_char_inv in Hend as [d' ->].
    rewrite string_app_assoc. app_simpl.
    do 2 rewrite split_app_sep. rewrite (split_no_sep "/" n) by done.
    change (Str.split "/" "") with [""].
    rewrite !fold_left_app. simpl. rewrite components_step_simple by done.
    by unfold components_step at 2.
  - app_simpl. rewrite split_app_sep. rewrite (split_no_sep "/" n) by done.
    rewrite fold_left_app. simpl. by rewrite components_step_simple by done.
Qed.

Lemma walk_app cs cs' n :
  walk (cs ++ cs') n = walk cs n ≫= walk cs'.
Proof.
  revert n. induction cs as [|c cs IH]; intros n; simpl; [done|].
  destruct n as [f|es]; [done|]. destruct (entry_lookup c es); [apply IH|done].
Qed.

Lemma resolve_join w d n es :
  resolve w d = Some (Dir es) → simple_name n = true →
  resolve w (PosixPath.join d n) = entry_lookup n es.
Proof.
  unfold resolve. intros Hd Hn.
  rewrite eqb_refl_false by by apply join_simple_nonempty.
  destruct (d =? ""); [done|].
  rewrite components_join, walk_app, Hd by done. simpl.
  by destruct (entry_lookup n es).
Qed.

(** *** Directory entries *)

Lemma entry_lookup_set_eq k n es : entry_lookup k (entry_set k n es) = Some n.
Proof.
  induction es as [|[k' m] es IH]; simpl.
  - by rewrite String.eqb_refl.
  - destruct (k' =? k) eqn:Hk; simpl; by rewrite Hk.
Qed.

Lemma entry_lookup_set_ne k k' n es :
  k ≠ k' → entry_lookup k' (entry_set k n es) = entry_lookup k' es.
Proof.
  intros Hne. induction es as [|[k0 m] es IH]; simpl.
  - by rewrite eqb_refl_false.
  - destruct (k0 =? k) eqn:Hk; simpl.
    + apply String.eqb_eq in Hk as ->. by rewrite eqb_refl_false.
    + by rewrite IH.
Qed.

Lemma entry_lookup_In k n es : entry_lookup k es = Some n → In k (List.map fst es).
Proof.
  induction es as [|[k' m] es IH]; simpl; [done|].
  destruct (k' =? k) eqn:Hk; [apply String.eqb_eq in Hk; auto|auto].
Qed.

(** *** [update] and [mkdirs] *)

Lemma update_walk cs g n n' :
  update cs g n = Ok n' → ∃ x, g (walk cs n) = Ok x ∧ walk cs n' = Some x.
Proof.
  revert n n'. induction cs as [|c cs IH]; intros n n'; simpl.
  { intros Hg. eauto. }
  destruct n as [f|es]; [done|].
  destruct (entry_lookup c es) as [child|] eqn:Hc.
  - destruct (update cs g child) as [child'|] eqn:Hu; simpl; [|done].
    intros [= <-]. apply IH in Hu as (x & Hg & Hw). exists x.
    by rewrite entry_lookup_set_eq.
  - destruct cs as [|c' cs]; [|done].
    destruct (g None) as [child'|] eqn:Hg; simpl; [|done].
    intros [= <-]. exists child'. by rewrite entry_lookup_set_eq.
Qed.


(** Writing where nothing was leaves what was there. *)
Lemma update_fresh_preserved cs g n n' :
  walk cs n = None → update cs g n = Ok n' → preserved n n'.
Proof.
  revert n n'. induction cs as [|c cs IH]; intros n n'; simpl; [done|].
  destruct n as [f|es]; [done|].
  destruct (entry_lookup c es) as [child|] eqn:Hc.
  - intros Hw. destruct (update cs g child) as [child'|] eqn:Hu; simpl; [|done].
    intros [= <-]. specialize (IH _ _ Hw Hu).
    intros [|c0 cs0]; simpl; [split; [done|eauto]|].
    destruct (decide (c = c0)) as [<-|Hne].
    + rewrite Hc, entry_lookup_set_eq. apply IH.
    + rewrite entry_lookup_set_ne by done.
      destruct (entry_lookup c0 es); [|done]. split; eauto.
  - intros _. destruct cs as [|c' cs]; [|done].
    destruct (g None) as [child'|] eqn:Hg; simpl; [|done].
    intros [= <-]. intros [|c0 cs0]; simpl; [split; [done|eauto]|].
    destruct (decide (c = c0)) as [<-|Hne].
    + by rewrite Hc.
    + rewrite entry_lookup_set_ne by done.
      destruct (entry_lookup c0 es); [|done]. split; eauto.
Qed.

Lemma mkdirs_preserved cs n n' : mkdirs cs n = Ok n' → preserved n n'.
Proof.
  revert n n'. induction cs as [|c cs IH]; intros n n'; simpl.
  { destruct n; [done|]. intros [= <-]. intros cs0; split; eauto. }
  destruct n as [f|es]; [done|].
  destruct (mkdirs cs (default (Dir []) (entry_lookup c es))) as [child'|] eqn:Hm;
    simpl; [|done].
  intros [= <-]. specialize (IH _ _ Hm).
  intros [|c0 cs0]; simpl; [split; [done|eauto]|].
  destruct (decide (c = c0)) as [<-|Hne].
  - rewrite entry_lookup_set_eq. destruct (entry_lookup c es); [apply IH|done].
  - rewrite entry_lookup_set_ne by done.
    destruct (entry_lookup c0 es); [|done]. split; eauto.
Qed.

Lemma mkdirs_walk cs n n' : mkdirs cs n = Ok n' → ∃ es, walk cs n' = Some (Dir es).
Proof.
  revert n n'. induction cs as [|c cs IH]; intros n n'; simpl.
  { destruct n; [done|]. intros [= <-]. eauto. }
  destruct n as [f|es]; [done|].
  destruct (mkdirs cs (default (Dir []) (entry_lookup c es))) as [child'|] eqn:Hm;
    simpl; [|done].
  intros [= <-]. rewrite entry_lookup_set_eq. eauto.
Qed.

Lemma preserved_refl w : preserved w w.
Proof. intros cs; split; eauto. Qed.

Lemma preserved_trans w1 w2 w3 : preserved w1 w2 → preserved w2 w3 → preserved w1 w3.
Proof.
  intros H12 H23 cs. split.
  - intros f Hf. by apply H23, H12.
  - intros es [es' Hes]%H12. by apply H23 in Hes.
Qed.

Lemma preserved_exists w w' p : preserved w w' → exists_ w p = true → exists_ w' p = true.
Proof.
  unfold exists_, resolve. intros Hp. destruct (p =? ""); [done|].
  destruct (walk (components p) w) as [[f|es]|] eqn:Hw; [| |done]; intros _.
  - by rewrite (proj1 (Hp _) _ Hw).
  - by destruct (proj2 (Hp _) _ Hw) as [es' ->].
Qed.

Lemma preserved_open w w' p f : preserved w w' → open_ w p = Ok f → open_ w' p = Ok f.
Proof.
  unfold open_, resolve. intros Hp. destruct (p =? ""); [done|].
  destruct (walk (components p) w) as [[f'|es]|] eqn:Hw; [|done|done].
  intros [= ->]. by rewrite (proj1 (Hp _) _ Hw).
Qed.


Lemma open_isfile w p f : open_ w p = Ok f → isfile w p = true.
Proof.
  unfold isfile, open_. by destruct (resolve w p) as [[f'|es]|].
Qed.

Lemma same_file_refl f : same_file f f.
Proof. by repeat split. Qed.

Lemma preserved_kept w w' : preserved w w' → kept w w'.
Proof.
  intros Hp cs. split.
  - intros f Hf. exists f. split; [by apply Hp|apply same_file_refl].
  - apply Hp.
Qed.



End TreeLemmas.

(** ** Names built by the placer *)

Section PlacerLemmas.
Import Props FS aux_functions.

Local Abbreviation no_sep s := (Str.contains_char "/" s = false).

Lemma split_at_sep_snd_no_sep p : no_sep (snd (PosixPath.split_at_sep p)).
Proof.
  induction p as [|c r IH]; simpl; [done|].
  destruct (PosixPath.split_at_sep r) as [h t]. simpl in IH.
  destruct h; [|done]. unfold PosixPath.is_sep.
  destruct (Ascii.eqb c "/") eqn:Hc; simpl; [done|]. by rewrite Hc.
Qed.

Lemma basename_no_sep p : no_sep (PosixPath.basename p).
Proof. apply split_at_sep_snd_no_sep. Qed.

Lemma split_at_sep_no_sep n : no_sep n → PosixPath.split_at_sep n = ("", n).
Proof.
  induction n as [|c r IH]; simpl; [done|].
  intros [Hc Hr]%orb_false_elim. rewrite IH by done.
  unfold PosixPath.is_sep. by rewrite Hc.
Qed.

Lemma rpartition_app c s h t : PosixPath.rpartition c s = Some (h, t) → s = h ++ t.
Proof.
  revert h. induction s as [|a r IH]; intros h; simpl; [done|].
  destruct (PosixPath.rpartition c r) as [[h' t']|].
  - intros [= <- <-]. app_simpl. by rewrite <-(IH h').
  - destruct (Ascii.eqb a c); [|done]. by intros [= <- <-].
Qed.

Lemma split_at_sep_app p h t : PosixPath.split_at_sep p = (h, t) → p = h ++ t.
Proof.
  revert h t. induction p as [|c r IH]; intros h t; simpl.
  { by intros [= <- <-]. }
  destruct (PosixPath.split_at_sep r) as [h' t']. specialize (IH _ _ eq_refl).
  destruct h' as [|x h'].
  - destruct (PosixPath.is_sep c) eqn:Hc; intros [= <- <-]; app_simpl; subst r.
    + apply Ascii.eqb_eq in Hc. by subst c.
    + done.
  - intros [= <- <-]. app_simpl. by rewrite IH.
Qed.

(** Taking an extension off shortens the name. *)
Lemma splitext_shorter p b e :
  PosixPath.splitext p = (b, e) → e ≠ "" → (String.length b < String.length p)%nat.
Proof.
  unfold PosixPath.splitext.
  destruct (PosixPath.split_at_sep p) as [head name] eqn:Hs.
  apply split_at_sep_app in Hs as ->.
  destruct (PosixPath.rpartition "." name) as [[pre ext]|] eqn:Hp.
  - apply rpartition_app in Hp as ->.
    destruct (PosixPath.all_chars PosixPath.is_dot pre); intros [= <- <-]; [done|].
    intros He. rewrite !string_app_length. destruct ext; [done|]. simpl. lia.
  - by intros [= <- <-].
Qed.

(** The loop of [collapse_extensions] ends on its own test, not on the
    bound: what it returns has no extension left. *)
Lemma collapse_go_exits fuel base last_ext :
  (String.length base < fuel)%nat →
  snd (PosixPath.splitext (fst (collapse_go fuel base last_ext))) = "".
Proof.
  revert base last_ext. induction fuel as [|fuel IH]; intros base last_ext Hlen; [lia|].
  simpl. destruct (PosixPath.splitext base) as [b e] eqn:Hs.
  destruct (e =? "") eqn:He; simpl.
  - apply String.eqb_eq in He as ->. by rewrite Hs.
  - apply String.eqb_neq in He. apply IH.
    pose proof (splitext_shorter _ _ _ Hs He). lia.
Qed.

Lemma collapse_extensions_exits name :
  snd (PosixPath.splitext (fst (collapse_extensions name))) = "".
Proof. apply collapse_go_exits. lia. Qed.

Lemma splitext_no_sep n a b :
  no_sep n → PosixPath.splitext n = (a, b) → no_sep a ∧ no_sep b.
Proof.
  intros Hn. unfold PosixPath.splitext. rewrite split_at_sep_no_sep by done.
  destruct (PosixPath.rpartition "." n) as [[pre ext]|] eqn:Hp.
  - apply rpartition_app in Hp as ->.
    rewrite contains_char_app in Hn. apply orb_false_elim in Hn as [Hpre Hext].
    destruct (PosixPath.all_chars PosixPath.is_dot pre); intros [= <- <-].
    + by rewrite contains_char_app, Hpre, Hext.
    + done.
  - by intros [= <- <-].
Qed.

Lemma collapse_go_no_sep fuel base last_ext a b :
  no_sep base → no_sep last_ext →
  collapse_go fuel base last_ext = (a, b) → no_sep a ∧ no_sep b.
Proof.
  revert base last_ext. induction fuel as [|fuel IH]; intros base last_ext Hb He; simpl.
  { by intros [= <- <-]. }
  destruct (PosixPath.splitext base) as [b' e'] eqn:Hs.
  destruct (splitext_no_sep _ _ _ Hb Hs) as [Hb' He'].
  destruct (negb (e' =? "")); [by apply IH|by intros [= <- <-]].
Qed.

Lemma sniff_header_ext_no_sep header k e : sniff_header header = Some (k, e) → no_sep e.
Proof.
  unfold sniff_header.
  repeat (case_bool_decide || case_match); by intros [= <- <-].
Qed.

(** *** The numbered names of the collision loop *)

Lemma candidate_inj stem ext (a b : nat) :
  stem ++ "(" ++ pretty a ++ ")" ++ ext = stem ++ "(" ++ pretty b ++ ")" ++ ext → a = b.
Proof.
  intros Heq. apply string_app_inv_head in Heq. app_simpl.
  injection Heq as Heq. apply string_app_inv_tail in Heq.
  by apply (inj pretty).
Qed.

Lemma candidate_simple stem ext (n : nat) :
  no_sep stem → no_sep ext → simple_name (stem ++ "(" ++ pretty n ++ ")" ++ ext) = true.
Proof.
  intros Hs He. unfold simple_name.
  assert (Str.contains_char "(" (stem ++ "(" ++ pretty n ++ ")" ++ ext) = true) as Hp.
  { rewrite contains_char_app. app_simpl. simpl. by rewrite orb_true_r. }
  rewrite !andb_true_iff, !negb_true_iff. repeat split.
  - apply String.eqb_neq. by intros Heq; rewrite Heq in Hp.
  - apply String.eqb_neq. by intros Heq; rewrite Heq in Hp.
  - apply String.eqb_neq. by intros Heq; rewrite Heq in Hp.
  - rewrite contains_char_app, Hs. app_simpl. simpl.
    rewrite contains_char_app, pretty_nat_no by done. app_simpl. simpl. done.
Qed.

Lemma next_free_None w d stem ext fuel n :
  next_free w d stem ext fuel n = None →
  ∀ i, (i < fuel)%nat →
    exists_ w (PosixPath.join d (stem ++ "(" ++ pretty (n + i)%nat ++ ")" ++ ext)) = true.
Proof.
  revert n. induction fuel as [|fuel IH]; intros n; simpl; [lia|].
  destruct (exists_ w _) eqn:Hex; [|done].
  intros Hnone [|i] Hi.
  - by rewrite Nat.add_0_r.
  - replace (n + S i)%nat with (S n + i)%nat by lia. apply IH; [done|lia].
Qed.

Lemma next_free_Some w d stem ext fuel n c :
  next_free w d stem ext fuel n = Some c → exists_ w c = false.
Proof.
  revert n. induction fuel as [|fuel IH]; intros n; simpl; [done|].
  destruct (exists_ w (PosixPath.join d _)) eqn:Hex; [apply IH|]. by intros [= <-].
Qed.

(** A directory with [length es] entries cannot hold [S (length es)]
    different numbered names: the loop stops within that many turns. *)
Lemma next_free_terminates w d es stem ext n :
  resolve w d = Some (Dir es) → no_sep stem → no_sep ext →
  next_free w d stem ext (S (length es)) n ≠ None.
Proof.
  intros Hd Hs He Hnone.
  pose proof (next_free_None _ _ _ _ _ _ Hnone) as Hall.
  set (name := λ i : nat, stem ++ "(" ++ pretty (n + i)%nat ++ ")" ++ ext).
  assert (NoDup (name <$> seq 0 (S (length es)))) as Hnd.
  { apply NoDup_fmap_2; [|apply NoDup_seq].
    intros i j Hij. apply candidate_inj in Hij. lia. }
  assert (name <$> seq 0 (S (length es)) ⊆+ (List.map fst es)) as Hsub.
  { apply NoDup_submseteq; [done|].
    intros x [i [-> Hi]]%list_elem_of_fmap. apply elem_of_seq in Hi.
    specialize (Hall i ltac:(lia)). unfold exists_ in Hall.
    rewrite (resolve_join _ _ _ es) in Hall by (done || by apply candidate_simple).
    fold (name i) in Hall.
    destruct (entry_lookup (name i) es) eqn:Hl; [|done].
    apply list_elem_of_In. by eapply entry_lookup_In. }
  apply submseteq_length in Hsub.
  rewrite length_fmap, length_seq, length_map in Hsub. lia.
Qed.

(** The loop stops at the first counter whose name is free. *)
Lemma next_free_first w d stem ext fuel n c :
  next_free w d stem ext fuel n = Some c →
  ∃ k, c = PosixPath.join d (stem ++ "(" ++ pretty (n + k)%nat ++ ")" ++ ext)
       ∧ ∀ i, (i < k)%nat →
           exists_ w (PosixPath.join d (stem ++ "(" ++ pretty (n + i)%nat ++ ")" ++ ext))
           = true.
Proof.
  revert n. induction fuel as [|fuel IH]; intros n; simpl; [done|].
  destruct (exists_ w (PosixPath.join d _)) eqn:Hex.
  - intros (k & -> & Hk)%IH. exists (S k). split.
    + by replace (n + S k)%nat with (S n + k)%nat by lia.
    + intros [|i] Hi; [by rewrite Nat.add_0_r|].
      replace (n + S i)%nat with (S n + i)%nat by lia. apply Hk. lia.
  - intros [= <-]. exists 0%nat. rewrite Nat.add_0_r. split; [done|]. lia.
Qed.

End PlacerLemmas.

(** ** The placer *)

Section Placer.
Import Props FS aux_functions.

Lemma mkdirs_raise cs n e : mkdirs cs n = Raise e → e ≠ NonTermination.
Proof.
  revert n. induction cs as [|c cs IH]; intros n; simpl.
  { destruct n; [|done]. by intros [= <-]. }
  destruct n as [f|es]; [by intros [= <-]|].
  destruct (mkdirs cs _) eqn:Hm; simpl; [done|]. intros [= <-]. by eapply IH.
Qed.

Lemma makedirs_spec w p w' :
  makedirs w p = Ok w' → preserved w w' ∧ ∃ es, resolve w' p = Some (Dir es).
Proof.
  unfold makedirs, resolve. destruct (p =? ""); [done|]. intros Hm. split.
  - by eapply mkdirs_preserved.
  - by eapply mkdirs_walk.
Qed.

(** The name the placer returns is free in the world it returns, and the
    world it returns has only gained directories. *)
Lemma compute_normalized_output_free w root out m dst w' :
  compute_normalized_output w root out m = Ok (dst, w') →
  exists_ w' dst = false ∧ preserved w w'.
Proof.
  unfold compute_normalized_output.
  destruct (PosixPath.relpath _ root) as [rel_dir|]; simpl; [|done].
  destruct (collapse_extensions _) as [base last_ext].
  rewrite sniff_type_ok. simpl.
  destruct (makedirs w _) as [w1|] eqn:Hmk; simpl; [|done].
  apply makedirs_spec in Hmk as [Hpres _].
  destruct (exists_ w1 (PosixPath.join _ _)) eqn:Hex.
  - destruct (PosixPath.splitext _) as [stem ext].
    destruct (next_free _ _ _ _ _ _) as [c|] eqn:Hnf; [|done].
    intros [= <- <-]. split; [by eapply next_free_Some|done].
  - by intros [= <- <-].
Qed.

(** The collision loop finds a free name: the bound on its turns is never
    what stops it. *)
Lemma compute_normalized_output_terminates w root out m :
  compute_normalized_output w root out m ≠ Raise NonTermination.
Proof.
  unfold compute_normalized_output.
  destruct (PosixPath.relpath _ root) as [rel_dir|] eqn:Hrel; simpl.
  2: { unfold PosixPath.relpath in Hrel. repeat case_match; by simplify_eq. }
  destruct (collapse_extensions _) as [base last_ext] eqn:Hce.
  assert (Str.contains_char "/" base = false ∧ Str.contains_char "/" last_ext = false)
    as [Hbase Hlast].
  { eapply collapse_go_no_sep; [apply basename_no_sep| |exact Hce]. done. }
  rewrite sniff_type_ok. simpl.
  set (sn := match read_header w m with Ok h => sniff_header h | Raise _ => None end).
  set (te := match sn with Some (_, t) => t | None => _ end).
  set (desired := if negb (te =? "") then _ else base).
  assert (Str.contains_char "/" desired = false) as Hdes.
  { assert (Str.contains_char "/" te = false) as Hte.
    { subst te. destruct sn as [[k e]|] eqn:Hsn.
      - subst sn. destruct (read_header w m); [by eapply sniff_header_ext_no_sep|done].
      - destruct (negb (last_ext =? "")); [|done].
        rewrite contains_sep_lower. by destruct last_ext; [|apply orb_false_elim in Hlast as [_ ?]]. }
    subst desired. destruct (negb (te =? "")); [|done].
    rewrite contains_char_app, Hbase. app_simpl. simpl. done. }
  clearbody desired. clear te sn.
  destruct (makedirs w _) as [w1|] eqn:Hmk; simpl.
  2: { unfold makedirs in Hmk. destruct (_ =? ""); [by injection Hmk as <-|].
       intros [= ->]. by eapply mkdirs_raise. }
  apply makedirs_spec in Hmk as [_ [es Hes]].
  destruct (exists_ w1 (PosixPath.join _ _)); [|done].
  destruct (PosixPath.splitext desired) as [stem ext] eqn:Hse.
  unfold loop_bound. rewrite Hes.
  destruct (next_free _ _ _ _ _ _) eqn:Hnf; [done|]. exfalso.
  eapply splitext_no_sep in Hse as [Hstem Hext]; [|done].
  exact (next_free_terminates _ _ _ _ _ _ Hes Hstem Hext Hnf).
Qed.

Lemma copy_media_to_output_spec w root out m dst w2 :
  copy_media_to_output w root out m = Ok (dst, w2) →
  (∀ p, exists_ w p = true → p ≠ dst)
  ∧ preserved w w2
  ∧ ∃ f, open_ w2 m = Ok f ∧ open_ w2 dst = Ok f.
Proof.
  unfold copy_media_to_output.
  destruct (compute_normalized_output w root out m) as [[dst' w1]|] eqn:Hc; simpl; [|done].
  apply compute_normalized_output_free in Hc as [Hfree Hpres]. rewrite Hfree. simpl.
  destruct (copy2 w1 m dst') as [w2'|] eqn:Hcp; simpl; [|done].
  intros [= -> ->]. unfold copy2 in Hcp.
  destruct (open_ w1 m) as [f|] eqn:Hf; simpl in Hcp; [|done].
  pose proof Hfree as Hres. unfold exists_ in Hres.
  destruct (resolve w1 dst) eqn:Hr; [done|]. clear Hres.
  destruct (dst =? "") eqn:Hne; [done|]. case_bool_decide; [done|].
  unfold resolve in Hr. rewrite Hne in Hr.
  pose proof (update_fresh_preserved _ _ _ _ Hr Hcp) as Hpres2.
  apply update_walk in Hcp as (x & Hx & Hw). rewrite Hr in Hx. injection Hx as <-.
  split; [|split].
  - intros p Hp ->. apply (preserved_exists _ _ _ Hpres) in Hp. congruence.
  - by eapply preserved_trans.
  - exists f. split; [by eapply preserved_open|].
    unfold open_, resolve. by rewrite Hne, Hw.
Qed.

End Placer.

(** ** Placements that return *)

Section PlaceLemmas.
Import Props FS aux_functions.

Local Abbreviation no_sep s := (Str.contains_char "/" s = false).















End PlaceLemmas.

(** * Properties *)

(** ** The content sniffer *)

Section Sniffer.
Import aux_functions Props.

(** C8. [sniff_type] never raises: whatever the path, it returns a value;
    it returns [None] when the file cannot be read, when it holds fewer
    than two bytes (none included) and when its header carries no known
    signature. *)
Theorem sniff_type_total (w : FS.world) (path : string) :
  (∃ r, sniff_type w path = Ok r)
  ∧ (∀ e, read_header w path = Raise e → sniff_type w path = Ok None)
  ∧ (∀ f, FS.open_ w path = Ok f → (length (FS.f_data f) < 2)%nat →
       sniff_type w path = Ok None)
  ∧ (∀ header, read_header w path = Ok header → ¬ recognized header →
       sniff_type w path = Ok None).
Proof.
  rewrite sniff_type_ok. split; [by eexists|]. split; [|split].
  - by intros e ->.
  - intros f Hf Hlen. unfold read_header. rewrite Hf. simpl.
    rewrite sniff_header_short; [done|]. rewrite length_firstn. lia.
  - intros header -> Hno. by rewrite sniff_header_unrecognized.
Qed.

End Sniffer.

Lemma sniff_type_total_witness :
  aux_functions.sniff_type Examples.truncated_world "/takeout/album/IMG_7.jpg" = Ok None.
Proof.
  refine (proj1 (proj2 (proj2
    (sniff_type_total Examples.truncated_world "/takeout/album/IMG_7.jpg"))) _ eq_refl _).
  simpl. lia.
Defined.

(** ** The output placer *)

Section PlacerProperties.
Import Props FS aux_functions.

(** A placement never picks a path that exists, whatever was done to the
    output tree since the earlier placements. *)
Lemma placement_avoids_existing w root out m dst w' p :
  copy_media_to_output w root out m = Ok (dst, w') → exists_ w p = true → p ≠ dst.
Proof. intros (Hfresh & _)%copy_media_to_output_spec. apply Hfresh. Qed.



(** The second source of that example can be placed once the first is. *)
Example second_source_placeable :
  placeable Examples.collision_world_1 "/takeout" "/out" "/takeout/album/photo.v2.jpg".
Proof.
  split; [reflexivity|]. split; [reflexivity|].
  exists "/out/album", "photo.jpg".
  eexists. split; vm_compute; reflexivity.
Qed.

(** The spec's example: the second of two sources normalizing to
    [photo.jpg] is placed as [photo(1).jpg]. *)
Example placing_colliding_names :
  ∃ w1 w2,
    copy_media_to_output Examples.collision_world "/takeout" "/out"
      "/takeout/album/photo.jpg" = Ok ("/out/album/photo.jpg", w1)
    ∧ copy_media_to_output w1 "/takeout" "/out"
        "/takeout/album/photo.v2.jpg" = Ok ("/out/album/photo(1).jpg", w2).
Proof. do 2 eexists. split; vm_compute; reflexivity. Qed.

(** The guard of [copy_media_to_output] never skips the copy: the name it
    tests was chosen free. *)
Lemma copy_guard_always_taken w root out m dst w' :
  compute_normalized_output w root out m = Ok (dst, w') →
  negb (exists_ w' dst) = true.
Proof. intros [-> _]%compute_normalized_output_free. done. Qed.

(** C1 (the code departs from it). Placing the same, unchanged source a
    second time does not skip the copy: the destination of the first run
    exists, so the placer numbers the name and copies again. *)
Theorem placing_twice_duplicates :
  ∃ w1 w2 f,
    copy_media_to_output Examples.single_world "/takeout" "/out"
      "/takeout/album/photo.jpg" = Ok ("/out/album/photo.jpg", w1)
    ∧ copy_media_to_output w1 "/takeout" "/out"
        "/takeout/album/photo.jpg" = Ok ("/out/album/photo(1).jpg", w2)
    ∧ open_ w2 "/out/album/photo.jpg" = Ok f
    ∧ open_ w2 "/out/album/photo(1).jpg" = Ok f.
Proof. do 3 eexists. repeat split; vm_compute; reflexivity. Qed.

End PlacerProperties.

(** ** Metadata fusion *)

Section TagLemmas.
Import Props.

Lemma has_tag_app tag a b : has_tag tag (a ++ b) = has_tag tag a || has_tag tag b.
Proof. apply existsb_app. Qed.

Lemma has_tag_cons tag a l : has_tag tag (a :: l) = Str.startswith a tag || has_tag tag l.
Proof. reflexivity. Qed.

Lemma has_tag_nil tag : has_tag tag [] = false.
Proof. reflexivity. Qed.

Lemma startswith_app_true pre x tag :
  Str.startswith pre tag = true → Str.startswith (pre ++ x) tag = true.
Proof.
  revert pre. induction tag as [|b tag IH]; intros [|a pre]; simpl; try done.
  intros [Hab Hrest]%andb_true_iff. app_simpl. simpl. rewrite Hab. by apply IH.
Qed.

Lemma startswith_app_false pre x tag :
  diverge pre tag = true → Str.startswith (pre ++ x) tag = false.
Proof.
  revert pre. induction tag as [|b tag IH]; intros [|a pre]; simpl; try done.
  app_simpl. simpl. destruct (Ascii.eqb b a); simpl; [apply IH|done].
Qed.

End TagLemmas.

(** Decide which directives of a request start with a literal tag. *)
Ltac tags :=
  cbn [List.concat List.app];
  rewrite ?has_tag_app, ?has_tag_cons, ?has_tag_nil;
  repeat match goal with
         | |- context [Str.startswith (?pre ++ ?x) ?tag] =>
             first [ rewrite (startswith_app_true pre x tag) by reflexivity
                   | rewrite (startswith_app_false pre x tag) by reflexivity ]
         end;
  try reflexivity.

Section FusionLemmas.
Import Props FS aux_functions.
Context `{External}.

(** The request, spelled out: the fixed part, the date part, the position,
    the altitude, and the QuickTime switch in front for a video. *)
Lemma build_exiftool_args_eq w target meta :
  build_exiftool_args w target meta
  = dates ← (if ts_truthy (timestamp meta) then
               dt ← fmt_ts (default 0%Z (timestamp meta));
               Ok [ "-DateTimeOriginal=" ++ dt; "-CreateDate=" ++ dt;
                    "-ModifyDate=" ++ dt; "-P";
                    "-FileCreateDate<CreateDate"; "-FileModifyDate<ModifyDate" ]
             else Ok []);
    let video : list string :=
      match match read_header w target with
            | Ok header => sniff_header header
            | Raise _ => None
            end with
      | Some (k, _) => if in_list k SNIFFED_VIDEO then ["-api"; "QuickTimeUTC=1"] else []
      | None => []
      end in
    let position : list string :=
      if valid_num (latitude meta) && valid_num (longitude meta)
      then ["-GPSLatitude=" ++ Py.str (latitude meta);
            "-GPSLongitude=" ++ Py.str (longitude meta)]
      else [] in
    let height : list string :=
      if valid_num (altitude meta)
      then ["-GPSAltitude=" ++ Py.str (altitude meta)]
      else [] in
    Ok (List.concat [video; ["-overwrite_original"]; dates; position; height]).
Proof.
  unfold build_exiftool_args. rewrite sniff_type_ok.
  destruct (ts_truthy (timestamp meta)); simpl.
  - destruct (fmt_ts _) as [dt|]; simpl; [|done].
    repeat case_match; simpl; by rewrite ?app_nil_r.
  - repeat case_match; simpl; by rewrite ?app_nil_r.
Qed.

Lemma fromtimestamp_in_range ts :
  (Py.MIN_TIMESTAMP ≤ ts ≤ Py.MAX_TIMESTAMP)%Z → Py.fromtimestamp ts = Ok ts.
Proof.
  intros [Hlo Hhi]. unfold Py.fromtimestamp.
  assert ((ts <? Py.MIN_TIME_T) || (Py.MAX_TIME_T <? ts) = false)%Z as ->.
  { apply orb_false_iff. split; apply Z.ltb_ge;
      unfold Py.MIN_TIME_T, Py.MAX_TIME_T, Py.MIN_TIMESTAMP, Py.MAX_TIMESTAMP in *; lia. }
  assert ((ts <? Py.MIN_GMTIME) || (Py.MAX_GMTIME <? ts) = false)%Z as ->.
  { apply orb_false_iff. split; apply Z.ltb_ge;
      unfold Py.MIN_GMTIME, Py.MAX_GMTIME, Py.MIN_TIMESTAMP, Py.MAX_TIMESTAMP in *; lia. }
  apply Z.leb_le in Hlo, Hhi. by rewrite Hlo, Hhi.
Qed.

Lemma fromtimestamp_out_of_range ts :
  ¬ (Py.MIN_TIMESTAMP ≤ ts ≤ Py.MAX_TIMESTAMP)%Z → ∃ e, Py.fromtimestamp ts = Raise e.
Proof.
  intros Hout. unfold Py.fromtimestamp.
  destruct ((ts <? Py.MIN_TIME_T) || (Py.MAX_TIME_T <? ts))%Z; [by eexists|].
  destruct ((ts <? Py.MIN_GMTIME) || (Py.MAX_GMTIME <? ts))%Z; [by eexists|].
  destruct (Z.leb_spec Py.MIN_TIMESTAMP ts), (Z.leb_spec ts Py.MAX_TIMESTAMP);
    cbn [andb]; (by eexists) || (exfalso; apply Hout; lia).
Qed.

Lemma fmt_ts_in_range ts :
  (Py.MIN_TIMESTAMP ≤ ts ≤ Py.MAX_TIMESTAMP)%Z → fmt_ts ts = Ok (Py.strftime ts).
Proof. intros Hr. unfold fmt_ts. by rewrite (fromtimestamp_in_range ts Hr). Qed.


End FusionLemmas.

Section FusionProperties.
Import Props FS aux_functions.
Context `{External}.

(** C6 (amended). The position directives [-GPSLatitude=] and
    [-GPSLongitude=] are requested exactly when latitude and longitude are
    both valid; [-GPSAltitude=] is requested exactly when the altitude is
    valid, with or without a position. *)
Theorem gps_directives (w : world) (target : string) (meta : metadata)
    (args : list string) :
  build_exiftool_args w target meta = Ok args →
  has_tag "-GPSLatitude=" args = valid_num (latitude meta) && valid_num (longitude meta)
  ∧ has_tag "-GPSLongitude=" args = valid_num (latitude meta) && valid_num (longitude meta)
  ∧ has_tag "-GPSAltitude=" args = valid_num (altitude meta).
Proof.
  rewrite build_exiftool_args_eq.
  destruct (match read_header w target with Ok h => sniff_header h | Raise _ => None end)
    as [[k e]|]; [destruct (in_list k SNIFFED_VIDEO)|];
    (destruct (ts_truthy (timestamp meta));
     [destruct (fmt_ts _) as [dt|]; [|done]|]);
    simpl; intros [= <-];
    destruct (valid_num (latitude meta) && valid_num (longitude meta));
    destruct (valid_num (altitude meta)); repeat split; tags.
Qed.

End FusionProperties.

Lemma gps_directives_witness :
  Props.has_tag "-GPSAltitude="
    ["-overwrite_original"; "-GPSLatitude=48"; "-GPSLongitude=2"; "-GPSAltitude=35"]
  = true.
Proof.
  refine (eq_trans (proj2 (proj2
    (@gps_directives Examples.working_exiftool Examples.epoch_world
       "/out/album/photo.jpg"
       (aux_functions.mk_meta None (PInt 48) (PInt 2) (PInt 35)) _ _))) _).
  - vm_compute. reflexivity.
  - vm_compute. reflexivity.
Defined.

(** The altitude alone is enough for a GPS directive. *)
Lemma gps_without_position :
  ¬ @Props.gps_only_with_lat_lon Examples.working_exiftool Examples.epoch_world
      "/out/album/photo.jpg" Examples.altitude_only_meta.
Proof.
  intros Hclaim.
  specialize (Hclaim ["-overwrite_original"; "-GPSAltitude=35"]).
  vm_compute in Hclaim. by specialize (Hclaim eq_refl).
Qed.

Section TimestampProperties.
Import Props FS aux_functions.
Context `{External}.

Lemma ts_truthy_nonzero ts : ts ≠ 0%Z → ts_truthy (Some ts) = true.
Proof. intros Hts. simpl. by apply negb_true_iff, Z.eqb_neq. Qed.

(** C10. A timestamp equal to 0 is treated as no timestamp at all: the
    request is the one built without a timestamp, it holds none of the
    date directives, and the world [apply_metadata_and_fs_times] returns
    is the one the tool left, the filesystem fallback being skipped. *)
Theorem zero_timestamp_is_absent (w : world) (target : string) (lat lon alt : pyval) :
  build_exiftool_args w target (mk_meta (Some 0%Z) lat lon alt)
  = build_exiftool_args w target (mk_meta None lat lon alt)
  ∧ apply_metadata_and_fs_times w target (mk_meta (Some 0%Z) lat lon alt)
    = apply_metadata_and_fs_times w target (mk_meta None lat lon alt)
  ∧ ∃ args,
      build_exiftool_args w target (mk_meta (Some 0%Z) lat lon alt) = Ok args
      ∧ has_tag "-DateTimeOriginal=" args = false
      ∧ has_tag "-CreateDate=" args = false
      ∧ has_tag "-ModifyDate=" args = false
      ∧ has_tag "-FileCreateDate<" args = false
      ∧ has_tag "-FileModifyDate<" args = false
      ∧ apply_metadata_and_fs_times w target (mk_meta (Some 0%Z) lat lon alt)
        = Ok (run_exiftool w args target).
Proof.
  split; [done|]. split; [done|].
  unfold apply_metadata_and_fs_times. rewrite build_exiftool_args_eq.
  cbn [timestamp latitude longitude altitude ts_truthy Z.eqb negb].
  eexists. split; [reflexivity|].
  destruct (match read_header w target with Ok h => sniff_header h | Raise _ => None end)
    as [[k e]|]; [destruct (in_list k SNIFFED_VIDEO)|];
    destruct (valid_num lat && valid_num lon); destruct (valid_num alt);
    (repeat split; [tags..|]);
    simpl; by destruct (run_exiftool _ _ _) as [[rc log] w1].
Qed.

(** Such a record does come out of extraction: the descriptor says
    ["timestamp": "0"]. *)
Example extracted_zero_timestamp :
  extract_metadata Examples.epoch_source "/takeout/album/photo.jpg.json"
  = Ok Examples.epoch_meta.
Proof. vm_compute. reflexivity. Qed.


End TimestampProperties.



(** The ends of the range: the first day of year 1 is refused, and the
    request builder raises before the tool is run. *)
Example first_day_of_year_1_refused :
  Py.fromtimestamp (-62135596800) = Raise ValueError
  ∧ Py.fromtimestamp (-62135510401) = Raise ValueError
  ∧ Py.fromtimestamp (-62135510400) = Ok (-62135510400)%Z
  ∧ Py.fromtimestamp 253402300799 = Ok 253402300799%Z
  ∧ Py.fromtimestamp 253402300800 = Raise ValueError
  ∧ raises (@aux_functions.apply_metadata_and_fs_times Examples.failing_exiftool
              Examples.epoch_world "/out/album/photo.jpg"
              (aux_functions.mk_meta (Some (-62135596800)%Z) PNone PNone PNone)) = true.
Proof. repeat split; vm_compute; reflexivity. Qed.

(** ** The media resolver *)

Section Resolver.
Import Props FS aux_functions.

Lemma find_ext {A} (f g : A → bool) l :
  (∀ x, In x l → f x = g x) → List.find f l = List.find g l.
Proof.
  induction l as [|x l IH]; simpl; [done|]. intros Hfg.
  rewrite (Hfg x) by auto. destruct (g x); [done|]. apply IH. auto.
Qed.

(** The exact-case phase, on names that are plain entry names: it finds
    the first candidate the directory holds. *)
Lemma find_in_directory w d es cands :
  resolve w d = Some (Dir es) →
  forallb simple_name cands = true →
  List.find (fun cand => exists_ w (PosixPath.join d cand)) cands
  = List.find (fun cand => bool_decide (is_Some (entry_lookup cand es))) cands.
Proof.
  intros Hd Hall. apply find_ext. intros c Hc.
  rewrite forallb_forall in Hall. unfold exists_.
  rewrite (resolve_join _ _ _ es) by auto.
  by destruct (entry_lookup c es).
Qed.

Lemma add_variants_edited ew stem ext :
  In (stem ++ "-" ++ ew ++ "." ++ ext) (add_variants ew stem ext)
  ∧ In (stem ++ "-" ++ Str.upper ew ++ "." ++ ext) (add_variants ew stem ext)
  ∧ In (stem ++ " - " ++ ew ++ "." ++ ext) (add_variants ew stem ext)
  ∧ In (stem ++ " (" ++ ew ++ ")" ++ "." ++ ext) (add_variants ew stem ext).
Proof.
  unfold add_variants. repeat split; apply in_or_app; left; simpl; auto 10.
Qed.

(** C9. In a directory that holds only [IMG_2-edited.jpg], resolving the
    title [IMG_2.jpg] with the word [edited] returns the path of that
    file; and whatever the title and the word, the candidates hold the four
    edited forms of the stem for every extension of the priority list. *)
Theorem search_media_finds_edited (w : world) (d : string) (f : file) :
  resolve w d = Some (Dir [("IMG_2-edited.jpg", File f)]) →
  search_media w d "IMG_2.jpg" "edited"
  = Ok (Some (PosixPath.join d "IMG_2-edited.jpg"))
  ∧ ∀ title ew ext,
      In ext media_exts →
      let stem := fst (PosixPath.splitext title) in
      In (stem ++ "-" ++ ew ++ "." ++ ext) (candidates title ew)
      ∧ In (stem ++ "-" ++ Str.upper ew ++ "." ++ ext) (candidates title ew)
      ∧ In (stem ++ " - " ++ ew ++ "." ++ ext) (candidates title ew)
      ∧ In (stem ++ " (" ++ ew ++ ")" ++ "." ++ ext) (candidates title ew).
Proof.
  intros Hd. split.
  - unfold search_media.
    replace (sanitize_json_title "IMG_2.jpg") with "IMG_2.jpg" by (vm_compute; reflexivity).
    replace (PosixPath.splitext "IMG_2.jpg") with ("IMG_2", ".jpg")
      by (vm_compute; reflexivity).
    rewrite (find_in_directory _ _ _ _ Hd) by (vm_compute; reflexivity).
    replace (List.find _ (candidates "IMG_2.jpg" "edited")) with (Some "IMG_2-edited.jpg")
      by (vm_compute; reflexivity).
    reflexivity.
  - intros title ew ext Hext stem. subst stem. unfold candidates.
    destruct (PosixPath.splitext title) as [file_name json_ext]. simpl fst.
    pose proof (add_variants_edited ew file_name ext) as (H1 & H2 & H3 & H4).
    repeat split; apply in_or_app; left; apply in_flat_map; eauto.
Qed.

Lemma search_media_finds_edited_witness :
  search_media Examples.edited_world "/takeout/album" "IMG_2.jpg" "edited"
  = Ok (Some "/takeout/album/IMG_2-edited.jpg").
Proof.
  refine (proj1 (search_media_finds_edited Examples.edited_world "/takeout/album"
                   _ _)).
  vm_compute. reflexivity.
Defined.

End Resolver.

(** ** Descriptors *)

Section Descriptors.
Import Props FS aux_functions.

Lemma read_timestamp_dict d key :
  read_timestamp (PDict d) key = Ok (usable_timestamp (declared_timestamp d key)).
Proof.
  unfold read_timestamp, declared_timestamp, usable_timestamp, Py.get, Py.get_default.
  cbn [mbind result_bind].
  destruct (Py.dict_lookup key d) as [[]|]; try reflexivity.
  cbn [default from_option id Py.isinstance_dict mbind result_bind].
  destruct (Py.dict_lookup "timestamp" _) as [t|]; cbn [default from_option id];
    [by destruct (Py.truthy t)|reflexivity].
Qed.

Lemma usable_timestamp_unusable o : unusable o → usable_timestamp o = None.
Proof.
  unfold unusable, usable_timestamp. destruct o as [t|]; [|done].
  intros [->|[_ [e ->]]]; [done|]. by destruct (Py.truthy t).
Qed.

(** Extraction from a descriptor that is a JSON object. *)
Lemma extract_metadata_object w json_path f d :
  open_ w json_path = Ok f → f_json f = Some (PDict d) → geo_well_formed d →
  extract_metadata w json_path
  = Ok (mk_meta
          (match usable_timestamp (declared_timestamp d "photoTakenTime") with
           | Some ts => Some ts
           | None => usable_timestamp (declared_timestamp d "creationTime")
           end)
          (default PNone (Py.dict_lookup "latitude" (geo_fields d)))
          (default PNone (Py.dict_lookup "longitude" (geo_fields d)))
          (default PNone (Py.dict_lookup "altitude" (geo_fields d)))).
Proof.
  intros Hopen Hjson Hgeo. unfold extract_metadata, json_load.
  rewrite Hopen. cbn [mbind result_bind]. rewrite Hjson. cbn [mbind result_bind].
  rewrite !read_timestamp_dict. cbn [mbind result_bind].
  assert (Py.get_default (PDict d) "geoData" (PDict []) = Ok (PDict (geo_fields d))
          ∨ ∃ g, Py.get_default (PDict d) "geoData" (PDict []) = Ok g
                 ∧ Py.truthy g = false ∧ geo_fields d = []) as Hg.
  { unfold Py.get_default, geo_fields, geo_well_formed in *.
    destruct (Py.dict_lookup "geoData" d) as [g|]; cbn [default from_option id];
      [|by left].
    destruct Hgeo as [Hf|Hdict].
    - right. exists g. repeat split; [done|]. destruct g as [| | | | | |g]; try done.
      by destruct g.
    - left. by destruct g. }
  destruct (usable_timestamp (declared_timestamp d "photoTakenTime")) as [ts|];
    cbn [mbind result_bind];
    (destruct Hg as [->|(g & -> & Hf & ->)]; cbn [mbind result_bind];
     [by destruct (geo_fields d)|by rewrite Hf]).
Qed.

Lemma geo_fields_falsy d g :
  geo_well_formed d → Py.dict_lookup "geoData" d = Some g → Py.truthy g = false →
  geo_fields d = [].
Proof.
  unfold geo_well_formed, geo_fields. intros Hgeo Hg Hf. rewrite Hg in Hgeo |- *.
  destruct g as [| | | | | |g]; try done. by destruct g.
Qed.

End Descriptors.

Section DescriptorsInRun.
Import Props FS aux_functions process_folder.
Context `{External}.

Lemma process_all_app root out r before after :
  process_all root out r (before ++ after)
  = r' ← process_all root out r before; process_all root out r' after.
Proof.
  revert r. induction before as [|u before IH]; intros r; simpl; [done|].
  destruct (process_one root out r u) as [r1|]; cbn [mbind result_bind]; [apply IH|done].
Qed.

(** C3 (amended). A descriptor that parses to a JSON object whose
    [geoData] is absent, falsy or an object never makes extraction raise:
    timestamp fields that are missing, falsy or not convertible to an
    integer are treated as absent, a usable [photoTakenTime] is the one
    taken and a usable [creationTime] the one taken in its place; each
    position field is the one [geoData] holds and [None] when it holds
    none, so all three are [None] when [geoData] is absent or falsy.  A
    descriptor that is not a JSON document makes [extract_metadata] raise,
    and the run that comes to its unit, once the media is copied, ends
    there with that exception. *)
Theorem descriptor_fields_tolerated (w : world) (json_path : string) (f : file) :
  open_ w json_path = Ok f →
  (∀ d, f_json f = Some (PDict d) → geo_well_formed d →
     ∃ meta,
       extract_metadata w json_path = Ok meta
       ∧ (unusable (declared_timestamp d "photoTakenTime") →
          unusable (declared_timestamp d "creationTime") →
          timestamp meta = None)
       ∧ (∀ t ts, declared_timestamp d "photoTakenTime" = Some t →
            Py.truthy t = true → Py.int t = Ok ts → timestamp meta = Some ts)
       ∧ (unusable (declared_timestamp d "photoTakenTime") →
          ∀ t ts, declared_timestamp d "creationTime" = Some t →
            Py.truthy t = true → Py.int t = Ok ts → timestamp meta = Some ts)
       ∧ latitude meta = default PNone (Py.dict_lookup "latitude" (geo_fields d))
       ∧ longitude meta = default PNone (Py.dict_lookup "longitude" (geo_fields d))
       ∧ altitude meta = default PNone (Py.dict_lookup "altitude" (geo_fields d))
       ∧ (Py.dict_lookup "geoData" d = None
          ∨ (∃ g, Py.dict_lookup "geoData" d = Some g ∧ Py.truthy g = false) →
          latitude meta = PNone ∧ longitude meta = PNone ∧ altitude meta = PNone))
  ∧ (f_json f = None →
     extract_metadata w json_path = Raise JSONDecodeError
     ∧ ∀ w0 root edited_word out before after media r out_media,
         get_sidecars w0 root edited_word
         = Ok (before ++ (json_path, Some media) :: after)%list →
         process_all root out (mk_run w0 0 0 0 ∅ []) before = Ok r →
         media ≠ "" →
         copy_media_to_output (disk r) root out media = Ok (out_media, w) →
         process_folder w0 root edited_word out = Raise JSONDecodeError).
Proof.
  intros Hopen. split.
  - intros d Hjson Hgeo. eexists. split; [by apply (extract_metadata_object _ _ f d)|].
    cbn [timestamp latitude longitude altitude].
    split; [|split; [|split; [|split; [|split; [|split]]]]]; try reflexivity.
    + intros U1 U2. by rewrite !usable_timestamp_unusable.
    + intros t ts Ht Htr Hint. unfold usable_timestamp at 1. by rewrite Ht, Htr, Hint.
    + intros U1 t ts Ht Htr Hint. rewrite (usable_timestamp_unusable _ U1).
      unfold usable_timestamp. by rewrite Ht, Htr, Hint.
    + intros [Hno|(g & Hg & Hf)].
      * unfold geo_fields. by rewrite Hno.
      * by rewrite (geo_fields_falsy d g Hgeo Hg Hf).
  - intros Hjson.
    assert (extract_metadata w json_path = Raise JSONDecodeError) as Hraise.
    { unfold extract_metadata, json_load.
      rewrite Hopen. cbn [mbind result_bind]. by rewrite Hjson. }
    split; [done|].
    intros w0 root edited_word out before after media r out_media Hside Hbefore Hmedia
      Hcopy.
    unfold process_folder. rewrite Hside. cbn [mbind result_bind].
    rewrite process_all_app, Hbefore. cbn [mbind result_bind process_all].
    unfold process_one.
    assert (no_path (Some media) = false) as -> by by destruct media.
    cbn [default from_option id]. rewrite Hcopy. cbn [mbind result_bind].
    by rewrite Hraise.
Qed.

End DescriptorsInRun.

Lemma descriptor_fields_tolerated_witness :
  (∃ meta,
     aux_functions.extract_metadata Examples.one_photo_world
       "/takeout/album/photo.jpg.json" = Ok meta
     ∧ aux_functions.timestamp meta = Some 1600000000%Z
     ∧ aux_functions.latitude meta = PInt 48)
  ∧ aux_functions.extract_metadata Examples.broken_descriptor_world_1
      "/takeout/album/photo.jpg.json" = Raise JSONDecodeError
  ∧ @process_folder.process_folder Examples.working_exiftool
      Examples.broken_descriptor_world "/takeout" "edited" "/out"
    = Raise JSONDecodeError.
Proof.
  split; [|split].
  - destruct (proj1 (@descriptor_fields_tolerated Examples.working_exiftool
                       Examples.one_photo_world "/takeout/album/photo.jpg.json"
                       (FS.mk_file [] (Some Examples.dated_descriptor) 2000 2000)
                       eq_refl)
                _ eq_refl (or_intror eq_refl))
      as (meta & Hmeta & _ & Hts & _ & Hlat & _).
    exists meta. split; [exact Hmeta|]. split; [|exact Hlat].
    apply (Hts (PStr "1600000000") 1600000000%Z); reflexivity.
  - refine (proj1 (proj2 (@descriptor_fields_tolerated Examples.working_exiftool
                            Examples.broken_descriptor_world_1
                            "/takeout/album/photo.jpg.json" _ eq_refl) eq_refl)).
  - refine (proj2 (proj2 (@descriptor_fields_tolerated Examples.working_exiftool
                            Examples.broken_descriptor_world_1
                            "/takeout/album/photo.jpg.json" _ eq_refl) eq_refl)
              Examples.broken_descriptor_world "/takeout" "edited" "/out" []
              [] "/takeout/album/photo.jpg"
              (Examples.empty_run Examples.broken_descriptor_world)
              "/out/album/photo.jpg" _ eq_refl _ _).
    + vm_compute. reflexivity.
    + discriminate.
    + vm_compute. reflexivity.
Defined.

(** A descriptor that is not JSON ends the run with the exception. *)
Lemma broken_descriptor_aborts_run :
  ¬ @Props.run_survives_descriptors Examples.working_exiftool
      Examples.broken_descriptor_world "/takeout" "/out" "edited".
Proof.
  intros Hclaim. destruct Hclaim as [r Hr]; [vm_compute; reflexivity|].
  vm_compute in Hr. discriminate Hr.
Qed.

(** ** The loop of [process_folder] *)

Section LoopLemmas.
Import Props FS aux_functions process_folder.
Context `{External}.

(** What the live-photo step can do to a run. *)
Lemma link_live_cases root out media meta r r' :
  link_live root out media meta r = Ok r' →
  r' = r
  ∨ (∃ p o w rc2,
       (p ∉ seen_live r) ∧ rc2 ≠ 0%Z
       ∧ r' = mk_run w (success r) (failed r) (linked_live r) (seen_live r)
                (history r ++ [LivePlaced p o; LiveWritten p o rc2]))
  ∨ (∃ p o w,
       (p ∉ seen_live r)
       ∧ r' = mk_run w (success r) (failed r) (linked_live r + 1)
                ({[p]} ∪ seen_live r)
                (history r ++ [LivePlaced p o; LiveWritten p o 0%Z; Linked p])).
Proof.
  unfold link_live. rewrite sniff_type_ok. cbn [mbind result_bind].
  destruct (match read_header (disk r) media with
            | Ok h => sniff_header h
            | Raise _ => None
            end) as [[k e]|]; [|intros [= <-]; by left].
  destruct (negb (in_list k SNIFFED_VIDEO)); [|intros [= <-]; by left].
  destruct (PosixPath.splitext (PosixPath.basename media)) as [stem ext].
  destruct (find_live_video_partner _ _ _) as [live_path|]; cbn [mbind result_bind];
    [|done].
  destruct (negb (no_path live_path)); cbn [andb]; [|intros [= <-]; by left].
  case_bool_decide as Hseen; cbn [negb]; [intros [= <-]; by left|].
  destruct (copy_media_to_output _ _ _ _) as [[out_live w]|]; cbn [mbind result_bind];
    [|done].
  destruct (apply_metadata_and_fs_times _ _ _) as [[[rc2 log2] w']|];
    cbn [mbind result_bind]; [|done].
  destruct (rc2 =? 0)%Z eqn:Hrc; cbn [negb]; intros [= <-]; right.
  - right. apply Z.eqb_eq in Hrc as ->. rewrite <-app_assoc. eauto 10.
  - left. apply Z.eqb_neq in Hrc. eauto 10.
Qed.

(** What one turn of the loop can do to a run. *)
Lemma process_one_cases root out r json_path media r' :
  process_one root out r (json_path, media) = Ok r' →
  (no_path media = true
   ∧ r' = mk_run (disk r) (success r) (failed r + 1) (linked_live r) (seen_live r)
            (history r ++ [Missing json_path]))
  ∨ (∃ m out_media meta rc w,
       no_path media = false
       ∧ link_live root out m meta
           (mk_run w (if (rc =? 0)%Z then success r + 1 else success r) (failed r)
              (linked_live r) (seen_live r)
              (history r ++ [Placed m out_media; Written out_media rc]))
         = Ok r').
Proof.
  unfold process_one. destruct (no_path media); [intros [= <-]; by left|].
  destruct (copy_media_to_output _ _ _ _) as [[out_media w]|]; cbn [mbind result_bind];
    [|done].
  destruct (extract_metadata _ _) as [meta|]; cbn [mbind result_bind]; [|done].
  destruct (apply_metadata_and_fs_times _ _ _) as [[[rc log] w']|];
    cbn [mbind result_bind]; [|done].
  intros Hlink. right. exists (default "" media), out_media, meta, rc, w'.
  split; [done|]. by destruct (rc =? 0)%Z.
Qed.

Lemma count_app p h b : count p (h ++ b) = (count p h + count p b)%nat.
Proof. unfold count. by rewrite List.filter_app, length_app. Qed.


End LoopLemmas.

Section LoopProperties.
Import Props FS aux_functions process_folder.
Context `{External}.







End LoopProperties.

Section Counters.
Import Props FS aux_functions process_folder.
Context `{External}.

Lemma link_live_counts root out media meta r r' :
  link_live root out media meta r = Ok r' →
  success r' = success r ∧ failed r' = failed r
  ∧ ∃ b, history r' = (history r ++ b)%list
         ∧ count is_missing b = 0%nat
         ∧ count is_written b = 0%nat
         ∧ count is_written_ok b = 0%nat.
Proof.
  intros [->|[(p & o & w & rc2 & _ & _ & ->)|(p & o & w & _ & ->)]]%link_live_cases;
    cbn [success failed history]; (split; [done|]); (split; [done|]).
  - exists []. by rewrite app_nil_r.
  - by eexists.
  - by eexists.
Qed.

Lemma process_one_counts root out r u r' :
  process_one root out r u = Ok r' →
  ∃ b, history r' = (history r ++ b)%list
       ∧ failed r' = (failed r + count is_missing b)%nat
       ∧ success r' = (success r + count is_written_ok b)%nat
       ∧ (count is_missing b + count is_written b = 1)%nat.
Proof.
  destruct u as [json_path media].
  intros [[_ ->]|(m & out_media & meta & rc & w & _ & Hlink)]%process_one_cases.
  - eexists. cbn [history failed success]. split; [done|]. unfold count. simpl.
    repeat split; lia.
  - apply link_live_counts in Hlink as (Hs & Hf & b & Hh & Hm & Hw & Hok).
    cbn [history failed success] in *.
    exists ([Placed m out_media; Written out_media rc] ++ b)%list.
    rewrite Hh, <-app_assoc. split; [done|].
    rewrite !count_app, Hm, Hw, Hok, Hs, Hf.
    unfold count. simpl. destruct (rc =? 0)%Z; simpl; repeat split; lia.
Qed.

Lemma process_all_counts root out sidecars r r' :
  process_all root out r sidecars = Ok r' →
  ∃ b, history r' = (history r ++ b)%list
       ∧ failed r' = (failed r + count is_missing b)%nat
       ∧ success r' = (success r + count is_written_ok b)%nat
       ∧ (count is_missing b + count is_written b = length sidecars)%nat.
Proof.
  revert r. induction sidecars as [|u rest IH]; intros r; simpl.
  { intros [= <-]. exists []. rewrite app_nil_r. unfold count. simpl.
    repeat split; lia. }
  destruct (process_one root out r u) as [r1|] eqn:Hone; cbn [mbind result_bind]; [|done].
  intros Hrest. apply process_one_counts in Hone as (b1 & Hh1 & Hf1 & Hs1 & Hn1).
  apply IH in Hrest as (b2 & Hh2 & Hf2 & Hs2 & Hn2).
  exists (b1 ++ b2)%list. rewrite Hh2, Hh1, <-app_assoc. split; [done|].
  rewrite !count_app. repeat split; lia.
Qed.

(** C4 (amended). A unit whose media is missing does not stop the run and
    adds one to the failure counter, nothing else; a unit whose metadata
    write returns a non-zero code does not stop the run either, goes on to
    its live-photo step and is counted neither as a success nor as a
    failure.  In a run that ends, the failure counter is the number of units
    without media, the success counter the number of writes that returned
    0, and every unit of the list was gone through. *)
Theorem failures_and_successes (root out : string) (r : run) (json_path : string) :
  process_one root out r (json_path, None)
  = Ok (mk_run (disk r) (success r) (failed r + 1) (linked_live r) (seen_live r)
          (history r ++ [Missing json_path]))
  ∧ (∀ media out_media w1 meta rc log w2,
       media ≠ "" →
       copy_media_to_output (disk r) root out media = Ok (out_media, w1) →
       extract_metadata w1 json_path = Ok meta →
       apply_metadata_and_fs_times w1 out_media meta = Ok (rc, log, w2) →
       rc ≠ 0%Z →
       process_one root out r (json_path, Some media)
       = link_live root out media meta
           (mk_run w2 (success r) (failed r) (linked_live r) (seen_live r)
              (history r ++ [Placed media out_media; Written out_media rc])))
  ∧ (∀ w edited_word r',
       process_folder w root edited_word out = Ok r' →
       failed r' = count is_missing (history r')
       ∧ success r' = count is_written_ok (history r')
       ∧ ∃ sidecars,
           get_sidecars w root edited_word = Ok sidecars
           ∧ length sidecars
             = (count is_missing (history r') + count is_written (history r'))%nat).
Proof.
  split; [done|]. split.
  - intros media out_media w1 meta rc log w2 Hmedia Hcopy Hmeta Happly Hrc.
    unfold process_one.
    assert (no_path (Some media) = false) as -> by by destruct media.
    cbn [default from_option id]. rewrite Hcopy. cbn [mbind result_bind].
    rewrite Hmeta. cbn [mbind result_bind]. rewrite Happly. cbn [mbind result_bind].
    apply Z.eqb_neq in Hrc. by rewrite Hrc.
  - intros w edited_word r'. unfold process_folder.
    destruct (get_sidecars w root edited_word) as [sidecars|]; cbn [mbind result_bind];
      [|done].
    intros (b & Hh & Hf & Hs & Hn)%process_all_counts.
    cbn [history failed success] in *. rewrite app_nil_l in Hh. subst b.
    repeat split; [done|done|]. by exists sidecars.
Qed.

End Counters.

Lemma failures_and_successes_witness :
  process_folder.failed Examples.failed_write_run
  = Props.count Props.is_missing (process_folder.history Examples.failed_write_run).
Proof.
  refine (proj1 (proj2 (proj2
    (@failures_and_successes Examples.failing_exiftool "/takeout" "/out"
       (Examples.empty_run Examples.one_photo_world) "")) Examples.one_photo_world
    "edited" Examples.failed_write_run _)).
  vm_compute. reflexivity.
Defined.

(** One photo, one descriptor, a tool that fails: the run ends with no
    success and no failure counted. *)
Lemma failed_write_not_counted :
  ¬ @Props.failures_counted_in_run Examples.failing_exiftool Examples.one_photo_world
      "/takeout" "edited" "/out".
Proof.
  intros Hclaim.
  specialize (Hclaim Examples.failed_write_run ltac:(vm_compute; reflexivity)).
  vm_compute in Hclaim. discriminate Hclaim.
Qed.


(** A linked video that has a descriptor of its own comes up again as the
    media of that descriptor: it is copied a second time, under a numbered
    name, and fused again. *)
Example linked_video_placed_as_media :
  process_folder.history Examples.own_descriptor_run
  = [ process_folder.Placed "/takeout/album/a.jpg" "/out/album/a.jpg";
      process_folder.Written "/out/album/a.jpg" 0;
      process_folder.LivePlaced "/takeout/album/a.b.mov" "/out/album/a.mov";
      process_folder.LiveWritten "/takeout/album/a.b.mov" "/out/album/a.mov" 0;
      process_folder.Linked "/takeout/album/a.b.mov";
      process_folder.Placed "/takeout/album/a.b.mov" "/out/album/a(1).mov";
      process_folder.Written "/out/album/a(1).mov" 0 ].
Proof. vm_compute. reflexivity. Qed.


(** The same run, event by event. *)
Example unlinked_run_history :
  process_folder.history Examples.unlinked_run
  = [ process_folder.Placed "/takeout/album/photo.jpg" "/out/album/photo.jpg";
      process_folder.Written "/out/album/photo.jpg" 127;
      process_folder.LivePlaced "/takeout/album/photo.v2.mov" "/out/album/photo.mov";
      process_folder.LiveWritten "/takeout/album/photo.v2.mov" "/out/album/photo.mov" 127;
      process_folder.Placed "/takeout/album/photo.v2.jpg" "/out/album/photo(1).jpg";
      process_folder.Written "/out/album/photo(1).jpg" 127;
      process_folder.LivePlaced "/takeout/album/photo.v2.mov" "/out/album/photo(1).mov";
      process_folder.LiveWritten "/takeout/album/photo.v2.mov" "/out/album/photo(1).mov"
        127 ].
Proof. vm_compute. reflexivity. Qed.

(** * Further properties *)

(** ** Titles *)

Section TitleLemmas.
Import Props aux_functions.

(** *** [replace] *)

Lemma remove_go_absent c old skip s :
  Str.contains_char c s = false →
  Str.contains_char c (Str.remove_go old skip s) = false.
Proof.
  revert skip. induction s as [|a s IH]; intros skip; simpl; [done|].
  intros [Ha Hs]%orb_false_elim.
  destruct skip; [|by apply IH].
  destruct (Str.startswith _ _); [by apply IH|].
  simpl. rewrite Ha. by apply IH.
Qed.

Lemma remove_absent c old s :
  Str.contains_char c s = false → Str.contains_char c (Str.remove old s) = false.
Proof. destruct old; [done|]. apply remove_go_absent. Qed.

Lemma remove_char_gone c s : Str.contains_char c (Str.remove (String c "") s) = false.
Proof.
  unfold Str.remove. induction s as [|a s IH]; simpl; [done|].
  rewrite andb_true_r. destruct (Ascii.eqb c a) eqn:Hca; [done|].
  simpl. by rewrite Ascii.eqb_sym, Hca.
Qed.

Lemma remove_go_id c rest s :
  Str.contains_char c s = false → Str.remove_go (String c rest) 0 s = s.
Proof.
  induction s as [|a s IH]; simpl; [done|].
  intros [Ha Hs]%orb_false_elim.
  rewrite Ascii.eqb_sym in Ha. rewrite Ha. simpl. by rewrite IH.
Qed.

Lemma fold_remove_absent c l s :
  Str.contains_char c s = false →
  Str.contains_char c (fold_left (fun cleaned ch => Str.remove ch cleaned) l s) = false.
Proof.
  revert s. induction l as [|o l IH]; intros s Hs; simpl; [done|].
  apply IH. by apply remove_absent.
Qed.

Lemma fold_remove_gone c l s :
  In (String c "") l →
  Str.contains_char c (fold_left (fun cleaned ch => Str.remove ch cleaned) l s) = false.
Proof.
  revert s. induction l as [|o l IH]; intros s; simpl; [done|].
  intros [->|Hin]; [|by apply IH].
  apply fold_remove_absent, remove_char_gone.
Qed.

Lemma fold_remove_id l s :
  Forall (fun old => match old with
                     | String c _ => Str.contains_char c s = false
                     | "" => True
                     end) l →
  fold_left (fun cleaned ch => Str.remove ch cleaned) l s = s.
Proof.
  induction 1 as [|old l Hold _ IH]; simpl; [done|].
  destruct old as [|c rest]; [done|].
  unfold Str.remove at 2. by rewrite remove_go_id.
Qed.

(** *** Runs of white space *)

Lemma collapse_spaces_absent c run s :
  Ascii.eqb " " c = false →
  match run with
  | Some (c0, false) => Ascii.eqb c0 c = false
  | _ => True
  end →
  Str.contains_char c s = false →
  Str.contains_char c (collapse_spaces run s) = false.
Proof.
  intros Hsp. revert run. induction s as [|a s IH]; intros run Hrun; simpl.
  - intros _. destruct run as [[c0 []]|]; simpl; by rewrite ?Hsp, ?Hrun.
  - intros [Ha Hs]%orb_false_elim. destruct (Str.is_space a).
    + apply IH; [|done]. by destruct run as [[c0 []]|].
    + rewrite contains_char_app. simpl. rewrite Ha, (IH None I Hs).
      destruct run as [[c0 []]|]; simpl; by rewrite ?Hsp, ?Hrun.
Qed.

Lemma collapse_spaces_single run s : single_spaced (collapse_spaces run s) = true.
Proof.
  revert run. induction s as [|a s IH]; intros run; simpl.
  - destruct run as [[c0 []]|]; simpl; by rewrite ?andb_false_r.
  - destruct (Str.is_space a) eqn:Ha; [apply IH|].
    destruct run as [[c0 []]|]; app_simpl; simpl;
      rewrite Ha, ?andb_false_r; simpl; apply IH.
Qed.

Lemma collapse_spaces_id s :
  single_spaced s = true →
  collapse_spaces None s = s
  ∧ ∀ c, match s with
         | String d _ => Str.is_space d = false
         | "" => True
         end → collapse_spaces (Some (c, false)) s = String c s.
Proof.
  induction s as [|a s IH]; [done|].
  cbn [single_spaced]. intros [Ha Hs]%andb_true_iff.
  destruct (IH Hs) as [IHn IHs]. simpl. destruct (Str.is_space a) eqn:Hsa.
  - split; [|done]. apply IHs. destruct s as [|d s]; [done|].
    simpl in Ha. by destruct (Str.is_space d).
  - app_simpl. rewrite IHn. split; [done|]. intros c _. by app_simpl.
Qed.

(** *** [strip] *)

Lemma lstrip_suffix p s : ∃ pre, s = pre ++ Str.lstrip p s.
Proof.
  induction s as [|a s [pre IH]]; simpl; [by exists ""|].
  destruct (p a); [|by exists ""].
  exists (String a pre). app_simpl. by rewrite <-IH.
Qed.

Lemma rstrip_prefix p s : ∃ post, s = Str.rstrip p s ++ post.
Proof.
  induction s as [|a s [post IH]]; simpl; [by exists ""|].
  destruct (Str.rstrip p s) as [|b r'].
  - destruct (p a); [by exists (String a s)|]. exists s. by app_simpl.
  - exists post. app_simpl. by rewrite <-IH.
Qed.

Lemma lstrip_head p s :
  match Str.lstrip p s with
  | String c _ => p c = false
  | "" => True
  end.
Proof.
  induction s as [|a s IH]; simpl; [done|].
  destruct (p a) eqn:Ha; [done|]. simpl. done.
Qed.

Lemma lstrip_id p s :
  match s with
  | String c _ => p c = false
  | "" => True
  end → Str.lstrip p s = s.
Proof. destruct s as [|a s]; simpl; [done|]. by intros ->. Qed.

Lemma rstrip_head p s :
  match s with
  | String c _ => p c = false
  | "" => True
  end →
  match Str.rstrip p s with
  | String c _ => p c = false
  | "" => True
  end.
Proof.
  destruct s as [|a s]; simpl; [done|]. intros Ha.
  destruct (Str.rstrip p s); by rewrite ?Ha.
Qed.

Lemma rstrip_idemp p s : Str.rstrip p (Str.rstrip p s) = Str.rstrip p s.
Proof.
  induction s as [|a s IH]; simpl; [done|].
  destruct (Str.rstrip p s) as [|b r'] eqn:Hr.
  - destruct (p a) eqn:Ha; simpl; [done|]. by rewrite Ha.
  - simpl in IH |- *. by rewrite IH.
Qed.

Lemma rstrip_not_endswith p s c : p c = true → Str.endswith_char (Str.rstrip p s) c = false.
Proof.
  intros Hc. induction s as [|a s IH]; simpl; [done|].
  destruct (Str.rstrip p s) as [|b r'] eqn:Hr.
  - destruct (p a) eqn:Ha; simpl; [done|].
    destruct (Ascii.eqb a c) eqn:Hac; [|done].
    apply Ascii.eqb_eq in Hac. congruence.
  - done.
Qed.

Lemma lstrip_absent c p s :
  Str.contains_char c s = false → Str.contains_char c (Str.lstrip p s) = false.
Proof.
  destruct (lstrip_suffix p s) as [pre Hs]. rewrite Hs at 1.
  rewrite contains_char_app. by intros [_ ?]%orb_false_elim.
Qed.

Lemma rstrip_absent c p s :
  Str.contains_char c s = false → Str.contains_char c (Str.rstrip p s) = false.
Proof.
  destruct (rstrip_prefix p s) as [post Hs]. rewrite Hs at 1.
  rewrite contains_char_app. by intros [? _]%orb_false_elim.
Qed.

Lemma single_spaced_app_r a b : single_spaced (a ++ b) = true → single_spaced b = true.
Proof.
  induction a as [|c a IH]; app_simpl; [done|].
  cbn [single_spaced]. intros [_ Hr]%andb_true_iff. by apply IH.
Qed.

Lemma single_spaced_app_l a b : single_spaced (a ++ b) = true → single_spaced a = true.
Proof.
  induction a as [|c a IH]; app_simpl; [done|].
  cbn [single_spaced]. intros [Hc Hr]%andb_true_iff.
  rewrite (IH Hr), andb_true_r. destruct a as [|d a]; [by rewrite andb_false_r|].
  by app_simpl.
Qed.

Lemma strip_single s : single_spaced s = true → single_spaced (Str.strip s) = true.
Proof.
  intros Hs. unfold Str.strip.
  destruct (lstrip_suffix Str.is_space s) as [pre Hpre].
  destruct (rstrip_prefix Str.is_space (Str.lstrip Str.is_space s)) as [post Hpost].
  rewrite Hpre in Hs. apply single_spaced_app_r in Hs.
  rewrite Hpost in Hs. by apply single_spaced_app_l in Hs.
Qed.

(** *** [fix_title] *)

Lemma unsafe_not_blank c : In (String c "") UNSAFE_CHARS → Ascii.eqb " " c = false.
Proof.
  unfold UNSAFE_CHARS. simpl.
  intros Hin.
  repeat (destruct Hin as [Hin|Hin]; [try discriminate Hin; by injection Hin as <-|]).
  done.
Qed.

Lemma fix_title_absent c title :
  Ascii.eqb " " c = false →
  Str.contains_char c title = false → Str.contains_char c (fix_title title) = false.
Proof.
  intros Hsp Hc. unfold fix_title, Str.strip.
  apply rstrip_absent, lstrip_absent, collapse_spaces_absent; [done|done|].
  by apply fold_remove_absent.
Qed.

Lemma fix_title_no_unsafe c title :
  In (String c "") UNSAFE_CHARS → Str.contains_char c (fix_title title) = false.
Proof.
  intros Hin. unfold fix_title, Str.strip.
  apply rstrip_absent, lstrip_absent, collapse_spaces_absent;
    [by apply unsafe_not_blank|done|].
  by apply fold_remove_gone.
Qed.

Lemma fix_title_stripped title :
  Str.lstrip Str.is_space (fix_title title) = fix_title title
  ∧ Str.rstrip Str.is_space (fix_title title) = fix_title title.
Proof.
  unfold fix_title, Str.strip. split.
  - apply lstrip_id, rstrip_head, lstrip_head.
  - apply rstrip_idemp.
Qed.

Lemma ascii_only_absent c s :
  (128 ≤ nat_of_ascii c)%nat → ascii_only s = true → Str.contains_char c s = false.
Proof.
  intros Hc. unfold ascii_only. induction s as [|a s IH]; simpl; [done|].
  intros [Ha Hs]%andb_true_iff. rewrite (IH Hs), orb_false_r.
  apply Nat.ltb_lt in Ha. destruct (Ascii.eqb a c) eqn:Hac; [|done].
  apply Ascii.eqb_eq in Hac. subst a. lia.
Qed.

End TitleLemmas.

Section SuffixLemmas.
Import Props aux_functions.

Lemma endswith_char_contains s c : Str.endswith_char s c = true → Str.contains_char c s = true.
Proof.
  intros [s' ->]%endswith_char_inv. rewrite contains_char_app. simpl.
  by rewrite Ascii.eqb_refl, orb_true_r.
Qed.

Lemma lstrip_absent_in c p s :
  Str.contains_char c s = true → p c = false → Str.contains_char c (Str.lstrip p s) = true.
Proof.
  intros Hs Hc. induction s as [|a s IH]; simpl in *; [done|].
  destruct (p a) eqn:Ha; [|done]. apply IH.
  destruct (Ascii.eqb a c) eqn:Hac; [|done].
  apply Ascii.eqb_eq in Hac. congruence.
Qed.

Lemma lstrip_all p d x t :
  (∀ c, p c = false → Str.contains_char c d = false) → p x = false →
  Str.lstrip p (d ++ String x t) = String x t.
Proof.
  intros Hd Hx. induction d as [|a d IH]; app_simpl; simpl; [by rewrite Hx|].
  destruct (p a) eqn:Ha.
  - apply IH. intros c Hc. specialize (Hd c Hc). simpl in Hd.
    by apply orb_false_elim in Hd as [_ ?].
  - specialize (Hd a Ha). simpl in Hd. by rewrite Ascii.eqb_refl in Hd.
Qed.

Lemma pretty_N_go_nonempty x (s : string) : s ≠ "" → pretty_N_go x s ≠ "".
Proof.
  revert s. induction (N.lt_wf_0 x) as [x _ IH]; intros s Hs.
  assert (x = 0 ∨ 0 < x)%N as [->|?] by lia.
  - by rewrite pretty_N_go_0.
  - rewrite pretty_N_go_step by done. apply IH; [by apply N.div_lt|done].
Qed.

Lemma pretty_nat_nonempty (n : nat) : pretty n ≠ "".
Proof.
  unfold pretty, pretty_nat, pretty, pretty_N. case_decide; [done|].
  assert (0 < N.of_nat n)%N by lia.
  rewrite pretty_N_go_step by done. by apply pretty_N_go_nonempty.
Qed.

Lemma casefold_app a b : Str.casefold (a ++ b) = Str.casefold a ++ Str.casefold b.
Proof.
  unfold Str.casefold. induction a as [|c a IH]; app_simpl; simpl; [done|].
  app_simpl. by rewrite IH.
Qed.

Lemma casefold_length s : String.length (Str.casefold s) = String.length s.
Proof. unfold Str.casefold. induction s as [|c s IH]; simpl; [done|]. by rewrite IH. Qed.

Lemma drop_app a b : Str.drop (String.length a) (a ++ b) = b.
Proof. induction a as [|c a IH]; app_simpl; simpl; [by destruct b|done]. Qed.

Lemma lower_char_newline c :
  Ascii.eqb (Str.lower_char c) (Str.chr 10) = Ascii.eqb c (Str.chr 10).
Proof. by destruct c as [[] [] [] [] [] [] [] []]. Qed.

Lemma casefold_contains_newline s :
  Str.contains_char (Str.chr 10) (Str.casefold s) = Str.contains_char (Str.chr 10) s.
Proof.
  unfold Str.casefold. induction s as [|a s IH]; simpl; [done|].
  by rewrite IH, lower_char_newline.
Qed.

(** A match of [SIDE_SUFFIX_RE] holds one dot, its first character. *)
Lemma counter_then_end_no_dot t :
  Str.contains_char "." t = true → counter_then_end t = false.
Proof.
  intros Ht. unfold counter_then_end, at_end.
  destruct (t =? "") eqn:E1; [apply String.eqb_eq in E1; by subst t|].
  destruct (t =? Str.LF) eqn:E2; [apply String.eqb_eq in E2; by subst t|].
  simpl. destruct t as [|a r]; [done|].
  destruct (Ascii.eqb a "(") eqn:Ha;
    [apply Ascii.eqb_eq in Ha; subst a
    |by destruct a as [[] [] [] [] [] [] [] []]].
  simpl in Ht.
  assert (Str.contains_char "." (Str.lstrip Str.is_digit r) = true) as Hrest
    by by apply lstrip_absent_in.
  destruct (Str.lstrip Str.is_digit r) as [|b t'] eqn:Hl; [done|].
  destruct (Ascii.eqb b ")") eqn:Hb;
    [apply Ascii.eqb_eq in Hb; subst b
    |rewrite andb_false_iff; right; by destruct b as [[] [] [] [] [] [] [] []]].
  simpl in Hrest. rewrite andb_false_iff; right.
  destruct (t' =? "") eqn:E3; [apply String.eqb_eq in E3; by subst t'|].
  destruct (t' =? Str.LF) eqn:E4; [apply String.eqb_eq in E4; by subst t'|].
  done.
Qed.

Lemma drop_keeps_dot alt r :
  Str.startswith (Str.casefold r) alt = true →
  Str.contains_char "." alt = false →
  Str.contains_char "." r = true →
  Str.contains_char "." (Str.drop (String.length alt) r) = true.
Proof.
  revert r. induction alt as [|b alt IH]; intros r; [done|].
  destruct r as [|a r]; [done|]. simpl.
  intros [Hba Hst]%andb_true_iff [Hb Halt]%orb_false_elim Hr.
  apply IH; [done|done|].
  destruct (Ascii.eqb a ".") eqn:Ha; [|done].
  apply Ascii.eqb_eq in Ha. subst a. apply Ascii.eqb_eq in Hba. by subst b.
Qed.

Lemma side_suffix_match_one_dot c r :
  Str.contains_char "." r = true → side_suffix_match (String c r) = false.
Proof.
  intros Hr. unfold side_suffix_match.
  destruct (Ascii.eqb c ".") eqn:Hc;
    [apply Ascii.eqb_eq in Hc; subst c|by destruct c as [[] [] [] [] [] [] [] []]].
  apply not_true_is_false. intros (alt & Hin & Hm)%existsb_exists.
  apply andb_true_iff in Hm as [Hst Hend].
  rewrite counter_then_end_no_dot in Hend; [done|].
  apply drop_keeps_dot; [done| |done].
  unfold SIDE_SUFFIXES in Hin. simpl in Hin.
  by repeat (destruct Hin as [<-|Hin]; [done|]).
Qed.

Lemma strip_json_suffix_at stem t :
  side_suffix_match (String "." t) = true →
  Str.contains_char (Str.chr 10) t = false →
  strip_json_suffix (stem ++ String "." t) = stem.
Proof.
  intros Hm Hlf. induction stem as [|c stem IH]; app_simpl.
  - cbn [strip_json_suffix]. rewrite Hm.
    destruct (Str.endswith_char _ _) eqn:He; [|done].
    apply endswith_char_contains in He. simpl in He. by rewrite Hlf in He.
  - cbn [strip_json_suffix]. rewrite side_suffix_match_one_dot, IH; [done|].
    rewrite contains_char_app. simpl. by rewrite orb_true_r.
Qed.

Lemma strip_json_suffix_prefix s :
  Str.contains_char (Str.chr 10) s = false → ∃ rest, s = strip_json_suffix s ++ rest.
Proof.
  induction s as [|c s IH]; [by exists ""|].
  intros Hlf. cbn [strip_json_suffix]. destruct (side_suffix_match _).
  - destruct (Str.endswith_char _ _) eqn:He.
    + apply endswith_char_contains in He. by rewrite Hlf in He.
    + by eexists.
  - simpl in Hlf. apply orb_false_elim in Hlf as [_ Hlf].
    destruct (IH Hlf) as [rest Hrest]. exists rest. app_simpl. by rewrite <-Hrest.
Qed.

(** *** Dots *)

Lemma collapse_dots_absent c s :
  Str.contains_char c s = false → Str.contains_char c (collapse_dots s) = false.
Proof.
  induction s as [|a s IH]; simpl; [done|].
  intros [Ha Hs]%orb_false_elim. destruct (_ && _); [by apply IH|].
  simpl. by rewrite Ha, IH.
Qed.

Lemma collapse_dots_startswith s :
  Str.startswith (collapse_dots s) "." = Str.startswith s ".".
Proof.
  induction s as [|a s IH]; [done|]. cbn [collapse_dots].
  destruct (PosixPath.is_dot a && Str.startswith s ".") eqn:Hd; [|done].
  apply andb_true_iff in Hd as [Ha Hs]. rewrite IH, Hs.
  unfold PosixPath.is_dot in Ha. simpl. by rewrite Ascii.eqb_sym, Ha.
Qed.

Lemma collapse_dots_no_double s : no_double_dot (collapse_dots s) = true.
Proof.
  induction s as [|a s IH]; [done|]. cbn [collapse_dots].
  destruct (PosixPath.is_dot a && Str.startswith s ".") eqn:Hd; [done|].
  cbn [no_double_dot]. by rewrite collapse_dots_startswith, Hd, IH.
Qed.

Lemma startswith_app_l a b p :
  a ≠ "" → Str.startswith (a ++ b) (String p "") = Str.startswith a (String p "").
Proof. destruct a; [done|]. by app_simpl. Qed.

Lemma no_double_dot_app_l a b : no_double_dot (a ++ b) = true → no_double_dot a = true.
Proof.
  induction a as [|c a IH]; app_simpl; [done|].
  cbn [no_double_dot]. intros [Hc Hr]%andb_true_iff.
  rewrite (IH Hr), andb_true_r. destruct a as [|d a]; [by rewrite andb_false_r|].
  by rewrite startswith_app_l in Hc.
Qed.

(** *** Extensions *)

Lemma splitext_app p b e : PosixPath.splitext p = (b, e) → p = b ++ e.
Proof.
  unfold PosixPath.splitext.
  destruct (PosixPath.split_at_sep p) as [head name] eqn:Hsplit.
  apply split_at_sep_app in Hsplit.
  destruct (PosixPath.rpartition "." name) as [[pre ext]|] eqn:Hpart.
  - apply rpartition_app in Hpart.
    destruct (PosixPath.all_chars _ _); intros [= <- <-].
    + by rewrite string_app_nil_r.
    + by rewrite string_app_assoc, <-Hpart.
  - intros [= <- <-]. by rewrite string_app_nil_r.
Qed.

Lemma collapse_go_app fuel b0 e0 base ext :
  collapse_go fuel b0 e0 = (base, ext) → ∃ rest, b0 ++ e0 = base ++ ext ++ rest.
Proof.
  revert b0 e0. induction fuel as [|fuel IH]; intros b0 e0; simpl.
  - intros [= <- <-]. exists "". by rewrite string_app_nil_r.
  - destruct (PosixPath.splitext b0) as [b e] eqn:Hsplit.
    destruct (negb (e =? "")).
    + intros (rest & Hrest)%IH. exists (rest ++ e0).
      apply splitext_app in Hsplit.
      by rewrite Hsplit, Hrest, !string_app_assoc.
    + intros [= <- <-]. exists "". by rewrite string_app_nil_r.
Qed.

Lemma collapse_go_untouched fuel b0 e0 base :
  collapse_go fuel b0 e0 = (base, e0) → e0 = "" → base = b0.
Proof.
  revert b0. induction fuel as [|fuel IH]; intros b0; simpl.
  - by intros [= <-].
  - destruct (PosixPath.splitext b0) as [b e] eqn:Hsplit.
    destruct (e =? "") eqn:He; simpl; [by intros [= <-]|].
    intros Hgo ->. exfalso. apply String.eqb_neq in He.
    clear IH Hsplit. revert b e He Hgo.
    induction fuel as [|fuel IH]; intros b e He; simpl; [by intros [= _ ->]|].
    destruct (PosixPath.splitext b) as [b' e'].
    destruct (e' =? "") eqn:He'; simpl; [by intros [= _ ->]|].
    apply IH. by apply String.eqb_neq.
Qed.

(** The bound on the turns plays no part once it exceeds the length. *)
Lemma collapse_go_fuel fuel fuel' base last_ext :
  (String.length base < fuel)%nat → (String.length base < fuel')%nat →
  collapse_go fuel base last_ext = collapse_go fuel' base last_ext.
Proof.
  revert fuel' base last_ext.
  induction fuel as [|fuel IH]; intros fuel' base last_ext Hlen Hlen'; [lia|].
  destruct fuel' as [|fuel']; [lia|]. simpl.
  destruct (PosixPath.splitext base) as [b e] eqn:Hsplit.
  destruct (e =? "") eqn:He; simpl; [done|].
  apply String.eqb_neq in He. pose proof (splitext_shorter _ _ _ Hsplit He).
  apply IH; lia.
Qed.

(** What the loop returns is its input or a base and the extension that
    [splitext] cut off it. *)
Lemma collapse_go_last fuel b0 e0 base ext :
  collapse_go fuel b0 e0 = (base, ext) →
  (base = b0 ∧ ext = e0) ∨ (PosixPath.splitext (base ++ ext) = (base, ext) ∧ ext ≠ "").
Proof.
  revert b0 e0. induction fuel as [|fuel IH]; intros b0 e0; simpl.
  { intros [= <- <-]. by left. }
  destruct (PosixPath.splitext b0) as [b e] eqn:Hsplit.
  destruct (e =? "") eqn:He; simpl; [intros [= <- <-]; by left|].
  apply String.eqb_neq in He.
  intros [[-> ->]|Hlast]%IH; [|by right].
  right. split; [|done]. by rewrite <-(splitext_app _ _ _ Hsplit).
Qed.

End SuffixLemmas.

Section Titles.
Import Props aux_functions.

(** X1. Whatever the title, [fix_title] leaves none of the one-character
    entries of its removal list in it, no white space at either end, and no
    two white-space characters in a row. *)
Theorem fix_title_clean (title : string) :
  (∀ c, In (String c "") UNSAFE_CHARS →
     Str.contains_char c (fix_title title) = false)
  ∧ single_spaced (fix_title title) = true
  ∧ Str.lstrip Str.is_space (fix_title title) = fix_title title
  ∧ Str.rstrip Str.is_space (fix_title title) = fix_title title.
Proof.
  split; [intros c; apply fix_title_no_unsafe|]. split; [|apply fix_title_stripped].
  unfold fix_title. apply strip_single, collapse_spaces_single.
Qed.

(** X2. On an ASCII title [fix_title] is idempotent: cleaning a cleaned
    title changes nothing. *)
Theorem fix_title_idempotent (title : string) :
  ascii_only title = true → fix_title (fix_title title) = fix_title title.
Proof.
  intros Hascii.
  destruct (fix_title_stripped title) as [Hl Hr].
  assert (single_spaced (fix_title title) = true) as Hsingle
    by (unfold fix_title; apply strip_single, collapse_spaces_single).
  unfold fix_title at 1. rewrite fold_remove_id.
  - rewrite (proj1 (collapse_spaces_id _ Hsingle)). unfold Str.strip. by rewrite Hl, Hr.
  - unfold UNSAFE_CHARS, Str.LF, Str.DQUOTE.
    repeat (apply List.Forall_cons;
            [first [ apply fix_title_no_unsafe; unfold UNSAFE_CHARS; simpl; tauto
                   | apply fix_title_absent; [reflexivity|];
                     apply ascii_only_absent; [vm_compute; lia|exact Hascii] ]|]).
    apply List.Forall_nil.
Qed.

(** X3. Whatever the descriptor base name, the sanitized title holds none
    of the one-character entries of the removal list, no two dots in a row
    and no dot at its end. *)
Theorem sanitize_json_title_shape (base : string) :
  (∀ c, In (String c "") UNSAFE_CHARS →
     Str.contains_char c (sanitize_json_title base) = false)
  ∧ no_double_dot (sanitize_json_title base) = true
  ∧ Str.endswith_char (sanitize_json_title base) "." = false.
Proof.
  unfold sanitize_json_title. split; [|split].
  - intros c Hc. apply rstrip_absent, collapse_dots_absent.
    destruct (strip_json_suffix_prefix (fix_title base)) as [rest Hrest].
    { apply fix_title_no_unsafe. unfold UNSAFE_CHARS. simpl. tauto. }
    pose proof (fix_title_no_unsafe c base Hc) as Hno.
    rewrite Hrest, contains_char_app in Hno. by apply orb_false_elim in Hno as [? _].
  - destruct (rstrip_prefix PosixPath.is_dot
                (collapse_dots (strip_json_suffix (fix_title base)))) as [post Hpost].
    pose proof (collapse_dots_no_double (strip_json_suffix (fix_title base))) as Hd.
    rewrite Hpost in Hd. by apply no_double_dot_app_l in Hd.
  - by apply rstrip_not_endswith.
Qed.

(** X4. Each of the four Takeout suffixes, in any letter case and with or
    without a [(n)] counter, is cut off the end of a name together with its
    dot, whatever precedes it; nothing else is cut. *)
Theorem strip_json_suffix_any_case (stem suffix : string) (n : nat) :
  In (Str.casefold suffix) SIDE_SUFFIXES →
  strip_json_suffix (stem ++ "." ++ suffix) = stem
  ∧ strip_json_suffix (stem ++ "." ++ suffix ++ "(" ++ pretty n ++ ")") = stem.
Proof.
  intros Hin.
  assert (Str.contains_char (Str.chr 10) suffix = false) as Hlf.
  { rewrite <-casefold_contains_newline.
    unfold SIDE_SUFFIXES in Hin. simpl in Hin.
    by repeat (destruct Hin as [<-|Hin]; [done|]). }
  assert (∀ counter,
            counter_then_end counter = true →
            side_suffix_match (String "." (suffix ++ counter)) = true) as Hmatch.
  { intros counter Hcounter. unfold side_suffix_match.
    apply existsb_exists. exists (Str.casefold suffix). split; [done|].
    by rewrite casefold_app, startswith_app, casefold_length, drop_app. }
  split.
  - rewrite <-(string_app_nil_r suffix). app_simpl.
    apply strip_json_suffix_at; [by apply Hmatch|by rewrite string_app_nil_r].
  - app_simpl. apply strip_json_suffix_at.
    + apply Hmatch. unfold counter_then_end. apply orb_true_iff. right.
      rewrite lstrip_all; [|intros c Hc; by apply pretty_nat_no|done].
      rewrite string_app_length. simpl.
      apply andb_true_iff. split; [|done]. apply Nat.ltb_lt.
      pose proof (pretty_nat_nonempty n) as Hne.
      destruct (pretty n); [done|simpl; lia].
    + rewrite contains_char_app, Hlf. simpl.
      rewrite contains_char_app, pretty_nat_no; done.
Qed.

(** X5. [collapse_extensions] cuts every extension off a name and returns,
    with what is left, the extension cut last, the innermost one.  A name
    without extension comes back whole, with no extension.  A name with
    one extension comes back split as [splitext] splits it; a name with
    more gives what its base gives.  So the result is a base that has no
    extension left and the extension that [splitext] finds on the base
    followed by it, the two standing at the front of the name. *)
Theorem collapse_extensions_innermost (name : string) :
  (snd (PosixPath.splitext name) = "" → collapse_extensions name = (name, ""))
  ∧ (∀ b e, PosixPath.splitext name = (b, e) → e ≠ "" →
       collapse_extensions name
       = if snd (PosixPath.splitext b) =? "" then (b, e) else collapse_extensions b)
  ∧ ∀ base ext, collapse_extensions name = (base, ext) →
      (∃ rest, name = base ++ ext ++ rest)
      ∧ PosixPath.splitext base = (base, "")
      ∧ (ext = "" → base = name)
      ∧ (ext ≠ "" → PosixPath.splitext (base ++ ext) = (base, ext)).
Proof.
  split; [|split].
  - unfold collapse_extensions. simpl.
    destruct (PosixPath.splitext name) as [b e]. simpl. by intros ->.
  - intros b e Hsplit He. unfold collapse_extensions at 1. simpl. rewrite Hsplit.
    rewrite eqb_refl_false by done. cbn [negb].
    pose proof (splitext_shorter _ _ _ Hsplit He) as Hshort.
    destruct (String.length name) as [|k] eqn:Hlen; [lia|]. simpl.
    destruct (PosixPath.splitext b) as [b' e'] eqn:Hsplit'. cbn [snd].
    destruct (e' =? "") eqn:He'; cbn [negb]; [done|].
    apply String.eqb_neq in He'.
    pose proof (splitext_shorter _ _ _ Hsplit' He') as Hshort'.
    unfold collapse_extensions. simpl. rewrite Hsplit'.
    rewrite eqb_refl_false by done. cbn [negb].
    apply collapse_go_fuel; lia.
  - intros base ext Hc. split; [|split; [|split]].
    + destruct (collapse_go_app _ _ _ _ _ Hc) as [rest Hrest].
      exists rest. by rewrite <-Hrest, string_app_nil_r.
    + pose proof (collapse_extensions_exits name) as Hexit. rewrite Hc in Hexit.
      simpl in Hexit. destruct (PosixPath.splitext base) as [b e] eqn:Hsplit.
      simpl in Hexit. subst e. apply splitext_app in Hsplit.
      rewrite string_app_nil_r in Hsplit. by subst b.
    + intros ->. by apply (collapse_go_untouched _ _ _ _ Hc).
    + intros Hext. by destruct (collapse_go_last _ _ _ _ _ Hc) as [[_ ->]|[Hlast _]].
Qed.

End Titles.

Lemma fix_title_clean_witness :
  Str.contains_char "?" (aux_functions.fix_title "  IMG:  0001?.jpg ") = false.
Proof.
  refine (proj1 (fix_title_clean "  IMG:  0001?.jpg ") "?"%char _).
  unfold aux_functions.UNSAFE_CHARS. simpl. tauto.
Defined.

Lemma sanitize_json_title_shape_witness :
  Str.contains_char "?" (aux_functions.sanitize_json_title "IMG..0001?.jpg.") = false.
Proof.
  refine (proj1 (sanitize_json_title_shape "IMG..0001?.jpg.") "?"%char _).
  unfold aux_functions.UNSAFE_CHARS. simpl. tauto.
Defined.

Lemma fix_title_idempotent_witness :
  aux_functions.fix_title (aux_functions.fix_title "  IMG:  0001?.jpg ")
  = aux_functions.fix_title "  IMG:  0001?.jpg ".
Proof. apply fix_title_idempotent. reflexivity. Defined.

Lemma strip_json_suffix_any_case_witness :
  aux_functions.strip_json_suffix "IMG_0001.jpg.SUPPLEMENTAL-METADATA" = "IMG_0001.jpg"
  ∧ aux_functions.strip_json_suffix "IMG_0001.jpg.SUPPLEMENTAL-METADATA(1)"
    = "IMG_0001.jpg".
Proof.
  apply (strip_json_suffix_any_case "IMG_0001.jpg" "SUPPLEMENTAL-METADATA" 1).
  simpl. left. reflexivity.
Defined.

Lemma collapse_extensions_innermost_witness :
  aux_functions.collapse_extensions "photo.v2.jpg"
  = (if snd (PosixPath.splitext "photo.v2") =? ""
     then ("photo.v2", ".jpg")
     else aux_functions.collapse_extensions "photo.v2")
  ∧ aux_functions.collapse_extensions "photo.v2"
    = (if snd (PosixPath.splitext "photo") =? ""
       then ("photo", ".v2")
       else aux_functions.collapse_extensions "photo")
  ∧ aux_functions.collapse_extensions "photo" = ("photo", "").
Proof.
  split; [|split].
  - apply (proj1 (proj2 (collapse_extensions_innermost "photo.v2.jpg"))
             "photo.v2" ".jpg"); [reflexivity|discriminate].
  - apply (proj1 (proj2 (collapse_extensions_innermost "photo.v2"))
             "photo" ".v2"); [reflexivity|discriminate].
  - apply (proj1 (collapse_extensions_innermost "photo")). reflexivity.
Defined.

(** The extension cut last is the innermost one. *)
Example collapse_extensions_photo :
  aux_functions.collapse_extensions "photo.v2.jpg" = ("photo", ".v2").
Proof. reflexivity. Qed.

(** ** The sniffer reads a header *)

Section SnifferReach.
Import Props FS aux_functions.

Lemma slice_firstn i j n (header : list byte) :
  (j ≤ n)%nat → slice i j (firstn n header) = slice i j header.
Proof.
  intros Hj. unfold slice. rewrite skipn_firstn_comm, firstn_firstn.
  f_equal. lia.
Qed.

Lemma sniff_header_firstn header : sniff_header (firstn 12 header) = sniff_header header.
Proof.
  unfold sniff_header. rewrite !slice_firstn by lia. rewrite length_firstn.
  assert (bool_decide (firstn 12 header = []) = bool_decide (header = [])) as ->
    by (by destruct header).
  by assert ((12 <=? 12 `min` length header) = (12 <=? length header))%nat as ->
    by (destruct (Nat.leb_spec 12 (length header));
        [apply Nat.leb_le|apply Nat.leb_gt]; lia).
Qed.

Lemma sniff_header_kinds header k e :
  sniff_header header = Some (k, e) →
  In (k, e) [("jpeg", "jpg"); ("png", "png"); ("tiff", "tif");
             ("heic", "heic"); ("mov", "mov"); ("mp4", "mp4")].
Proof.
  unfold sniff_header. repeat case_match; intros [= <- <-]; simpl; tauto.
Qed.

(** X6. The sniffer judges a file by its first twelve bytes alone: two
    files that agree on them get the same verdict, whatever their names and
    whatever follows; a verdict is one of six fixed pairs of kind and
    extension. *)
Theorem sniff_type_reads_header (w1 w2 : world) (p1 p2 : string) (f1 f2 : file) :
  open_ w1 p1 = Ok f1 → open_ w2 p2 = Ok f2 →
  firstn 12 (f_data f1) = firstn 12 (f_data f2) →
  sniff_type w1 p1 = sniff_type w2 p2
  ∧ ∀ k e, sniff_type w1 p1 = Ok (Some (k, e)) →
      In (k, e) [("jpeg", "jpg"); ("png", "png"); ("tiff", "tif");
                 ("heic", "heic"); ("mov", "mov"); ("mp4", "mp4")].
Proof.
  intros H1 H2 Heq. rewrite !sniff_type_ok. unfold read_header.
  rewrite H1, H2. cbn [mbind result_bind]. split.
  - f_equal. rewrite <-(sniff_header_firstn (firstn 32 (f_data f1))).
    rewrite <-(sniff_header_firstn (firstn 32 (f_data f2))).
    rewrite !firstn_firstn. simpl. by rewrite Heq.
  - intros k e [= Hk]. by apply sniff_header_kinds in Hk.
Qed.

End SnifferReach.

Lemma sniff_type_reads_header_witness :
  aux_functions.sniff_type Examples.single_world "/takeout/album/photo.jpg"
  = aux_functions.sniff_type Examples.upper_case_world "/takeout/album/IMG_1.JPG".
Proof.
  refine (proj1 (sniff_type_reads_header Examples.single_world Examples.upper_case_world
                   "/takeout/album/photo.jpg" "/takeout/album/IMG_1.JPG" _ _
                   eq_refl eq_refl eq_refl)).
Defined.

(** ** What the resolver and the partner finder return *)

Section DirectoryLemmas.
Import Props FS aux_functions.

Lemma well_formed_walk cs n es :
  well_formed n = true → walk cs n = Some (Dir es) →
  Forall (fun kc => simple_name (fst kc) = true) es
  ∧ NoDup (List.map fst es)
  ∧ Forall (fun kc => well_formed (snd kc) = true) es.
Proof.
  revert n. induction cs as [|c cs IH]; intros n Hwf; simpl.
  - intros [= ->]. cbn [well_formed] in Hwf.
    apply andb_true_iff in Hwf as [Hall Hnd]. apply bool_decide_eq_true in Hnd.
    rewrite forallb_forall in Hall. repeat split; [|done|].
    + apply List.Forall_forall. intros kc Hkc.
      by apply Hall, andb_true_iff in Hkc as [? _].
    + apply List.Forall_forall. intros kc Hkc.
      by apply Hall, andb_true_iff in Hkc as [_ ?].
  - destruct n as [f|es0]; [done|].
    destruct (entry_lookup c es0) as [child|] eqn:Hc; [|done].
    apply IH. cbn [well_formed] in Hwf.
    apply andb_true_iff in Hwf as [Hall _]. rewrite forallb_forall in Hall.
    clear IH. induction es0 as [|[k m] es0 IHes]; [done|]. simpl in Hc.
    destruct (k =? c).
    + injection Hc as ->. specialize (Hall (k, child) (or_introl eq_refl)).
      by apply andb_true_iff in Hall as [_ ?].
    + apply IHes; [|done]. intros x Hx. apply Hall. by right.
Qed.

Lemma entry_lookup_present k n es : In (k, n) es → is_Some (entry_lookup k es).
Proof.
  induction es as [|[k' m] es IH]; [done|]. simpl.
  intros [[= -> ->]|Hin].
  - by rewrite String.eqb_refl.
  - destruct (k' =? k); [done|by apply IH].
Qed.

Lemma entry_lookup_unique k n es :
  NoDup (List.map fst es) → In (k, n) es → entry_lookup k es = Some n.
Proof.
  induction es as [|[k' m] es IH]; [done|]. simpl.
  intros Hnd%NoDup_cons. destruct Hnd as [Hk' Hnd]. intros [[= -> ->]|Hin].
  - by rewrite String.eqb_refl.
  - destruct (k' =? k) eqn:Hk; [|by apply IH].
    apply String.eqb_eq in Hk. subst k'. exfalso. apply Hk'.
    apply list_elem_of_In, in_map_iff. by exists (k, n).
Qed.

Lemma scandir_Ok w d es' :
  scandir w d = Ok es' →
  ∃ es, resolve w d = Some (Dir es)
        ∧ es' = List.map (fun '(name, n) =>
                  mk_entry name (PosixPath.join d name)
                    (match n with File _ => true | Dir _ => false end)) es.
Proof.
  unfold scandir. destruct (resolve w d) as [[f|es]|]; [done| |done].
  intros [= <-]. by exists es.
Qed.

(** What [scandir] lists is there, with the kind it tells. *)
Lemma scandir_entry w d es' e :
  well_formed w = true → scandir w d = Ok es' → In e es' →
  e_path e = PosixPath.join d (e_name e)
  ∧ simple_name (e_name e) = true
  ∧ exists_ w (e_path e) = true
  ∧ isfile w (e_path e) = e_is_file e.
Proof.
  intros Hwf (es & Hres & ->)%scandir_Ok Hin.
  apply in_map_iff in Hin as ([name n] & <- & Hin). cbn [e_path e_name e_is_file].
  assert (walk (components d) w = Some (Dir es)) as Hwalk.
  { unfold resolve in Hres. by destruct (d =? ""). }
  destruct (well_formed_walk _ _ _ Hwf Hwalk) as (Hsimple & Hnd & _).
  rewrite List.Forall_forall in Hsimple. specialize (Hsimple _ Hin). simpl in Hsimple.
  unfold exists_, isfile. rewrite (resolve_join w d name es Hres Hsimple).
  rewrite (entry_lookup_unique _ _ _ Hnd Hin). by destruct n.
Qed.

Lemma first_some_Some {A B} (f : A → option B) l y :
  first_some f l = Some y → ∃ x, In x l ∧ f x = Some y.
Proof.
  induction l as [|x l IH]; [done|]. simpl.
  destruct (f x) as [y'|] eqn:Hx.
  - intros [= ->]. exists x. auto.
  - intros (x' & ? & ?)%IH. exists x'. auto.
Qed.

Lemma first_some_None {A B} (f : A → option B) l x :
  first_some f l = None → In x l → f x = None.
Proof.
  induction l as [|x' l IH]; [done|]. simpl.
  destruct (f x') as [y'|] eqn:Hx; [done|].
  intros Hn [->|Hin]; [done|by apply IH].
Qed.

Lemma first_where_Some {A} (test : A → result bool) l x :
  first_where test l = Ok (Some x) → In x l ∧ test x = Ok true.
Proof.
  induction l as [|x' l IH]; [done|]. simpl.
  destruct (test x') as [[]|] eqn:Hx; cbn [mbind result_bind]; [| |done].
  - intros [= ->]. auto.
  - intros [? ?]%IH. auto.
Qed.

Lemma casefold_lookup_Some es k p :
  casefold_lookup es k = Some p →
  ∃ e, In e es ∧ e_path e = p ∧ e_is_file e = true ∧ Str.casefold (e_name e) = k.
Proof.
  unfold casefold_lookup. intros (e & Hlast & ->)%fmap_Some.
  apply last_Some in Hlast as [l' Hl'].
  assert (e ∈ filter (fun e => e_is_file e = true ∧ Str.casefold (e_name e) = k) es)
    as [[? ?] Hin%list_elem_of_In]%list_elem_of_filter
    by (rewrite Hl'; apply elem_of_app; right; by left).
  by exists e.
Qed.

Lemma casefold_lookup_is_Some es k e :
  In e es → e_is_file e = true → Str.casefold (e_name e) = k →
  is_Some (casefold_lookup es k).
Proof.
  intros Hin Hfile Hk. unfold casefold_lookup. apply fmap_is_Some.
  destruct (last _) eqn:Hlast; [done|]. apply last_None in Hlast.
  assert (e ∈ filter (fun e => e_is_file e = true ∧ Str.casefold (e_name e) = k) es)
    as He by (apply list_elem_of_filter; split; [done|by apply list_elem_of_In]).
  rewrite Hlast in He. by apply elem_of_nil in He.
Qed.

Lemma sniffs_as_true w kinds p :
  sniffs_as w kinds p = Ok true →
  ∃ k e, sniff_type w p = Ok (Some (k, e)) ∧ in_list k kinds = true.
Proof.
  unfold sniffs_as. destruct (sniff_type w p) as [[[k e]|]|]; cbn [mbind result_bind];
    [|done|done].
  intros [= Hk]. by exists k, e.
Qed.

End DirectoryLemmas.

Section ResolverProperties.
Import Props FS aux_functions.

(** X7. In a tree whose directories hold plain names, a path that
    [search_media] returns exists. *)
Theorem search_media_sound (w : world) (d title edited_word fp : string) :
  well_formed w = true →
  search_media w d title edited_word = Ok (Some fp) →
  exists_ w fp = true.
Proof.
  intros Hwf. unfold search_media.
  destruct (PosixPath.splitext (sanitize_json_title title)) as [file_name json_ext].
  destruct (List.find _ _) as [cand|] eqn:Hfind.
  { intros [= <-]. by apply find_some in Hfind as [_ ?]. }
  destruct (scandir w d) as [es|e] eqn:Hscan; [|by destruct e].
  destruct (first_some _ _) as [p|] eqn:Hfirst.
  - intros [= <-]. apply first_some_Some in Hfirst as (cand & _ & Hlook).
    apply casefold_lookup_Some in Hlook as (e & Hin & <- & _).
    by destruct (scandir_entry _ _ _ _ Hwf Hscan Hin) as (_ & _ & ? & _).
  - cbn [mbind result_bind].
    destruct (first_where _ es) as [[e|]|] eqn:Hwhere; cbn [mbind result_bind];
      [|done|done].
    intros [= <-]. apply first_where_Some in Hwhere as [Hin _].
    by destruct (scandir_entry _ _ _ _ Hwf Hscan Hin) as (_ & _ & ? & _).
Qed.

(** X8. Letter case does not hide a media file: when the directory holds a
    regular file whose name equals a candidate name up to case, the
    resolver returns a path, never [None]. *)
Theorem search_media_ignores_case (w : world) (d title edited_word : string)
    (es : list (string * node)) (name cand : string) (f : file) :
  resolve w d = Some (Dir es) →
  In (name, File f) es →
  In cand (candidates (sanitize_json_title title) edited_word) →
  Str.casefold name = Str.casefold cand →
  ∃ fp, search_media w d title edited_word = Ok (Some fp).
Proof.
  intros Hres Hin Hcand Hcase. unfold search_media.
  destruct (PosixPath.splitext (sanitize_json_title title)) as [file_name json_ext].
  destruct (List.find _ _) as [c|]; [by eexists|].
  unfold scandir. rewrite Hres.
  destruct (first_some _ _) as [p|] eqn:Hfirst; [by eexists|].
  exfalso. apply (first_some_None _ _ cand) in Hfirst; [|done].
  eapply is_Some_None. rewrite <-Hfirst.
  apply (casefold_lookup_is_Some _ _
           (mk_entry name (PosixPath.join d name) true)); [|done|done].
  apply in_map_iff. exists (name, File f). split; [reflexivity|exact Hin].
Qed.

(** X9. A path that [find_live_video_partner] returns holds a video by
    its content, a QuickTime or an MP4 header; so a file that sniffs as
    anything else, the still itself to begin with, is never returned. *)
Theorem live_partner_is_video (w : world) (folder stem p : string) :
  find_live_video_partner w folder stem = Ok (Some p) →
  (∃ k e, sniff_type w p = Ok (Some (k, e)) ∧ in_list k SNIFFED_VIDEO = true)
  ∧ ∀ media k e,
      sniff_type w media = Ok (Some (k, e)) → in_list k SNIFFED_VIDEO = false →
      p ≠ media.
Proof.
  intros Hfind.
  assert (sniffs_as w SNIFFED_VIDEO p = Ok true) as Hvideo.
  { revert Hfind. unfold find_live_video_partner.
    destruct (first_where _ _) as [[c|]|] eqn:Hfirst; cbn [mbind result_bind];
      [| |done].
    - intros [= <-]. apply first_where_Some in Hfirst as [_ Htest].
      by destruct (exists_ w c).
    - destruct (scandir w folder) as [es|e]; cbn [mbind result_bind];
        [|by destruct e].
      destruct (first_where _ es) as [[e|]|] eqn:Hscan; cbn [mbind result_bind];
        [| |by destruct e].
      + intros [= <-]. apply first_where_Some in Hscan as [_ Htest].
        by destruct (_ && _).
      + done. }
  apply sniffs_as_true in Hvideo as (k & e & Hsniff & Hk). split; [by exists k, e|].
  intros media k' e' Hmedia Hk' ->. congruence.
Qed.

End ResolverProperties.

Lemma search_media_sound_witness :
  FS.exists_ Examples.upper_case_world "/takeout/album/IMG_1.JPG" = true.
Proof.
  refine (search_media_sound Examples.upper_case_world "/takeout/album" "img_1.jpg"
            "edited" "/takeout/album/IMG_1.JPG" _ _); vm_compute; reflexivity.
Defined.

Lemma search_media_ignores_case_witness :
  ∃ fp, aux_functions.search_media Examples.upper_case_world "/takeout/album"
          "img_1.jpg" "edited" = Ok (Some fp).
Proof.
  refine (search_media_ignores_case Examples.upper_case_world "/takeout/album"
            "img_1.jpg" "edited" _ "IMG_1.JPG" "img_1.jpg" _ eq_refl _ _ eq_refl).
  - left. reflexivity.
  - vm_compute. tauto.
Defined.

Lemma live_partner_is_video_witness :
  ∃ k e,
    aux_functions.sniff_type Examples.shared_video_world "/takeout/album/photo.v2.mov"
    = Ok (Some (k, e))
    ∧ aux_functions.in_list k aux_functions.SNIFFED_VIDEO = true.
Proof.
  refine (proj1 (live_partner_is_video Examples.shared_video_world "/takeout/album"
                   "photo.v2" "/takeout/album/photo.v2.mov" _)).
  vm_compute. reflexivity.
Defined.

(** ** From the descriptor to the request *)

Section NumberLemmas.

Lemma pretty_N_nonempty (x : N) : pretty x ≠ "".
Proof.
  unfold pretty, pretty_N. destruct (decide (x = 0%N)) as [|Hx]; [done|].
  assert (0 < x)%N as Hpos by lia.
  rewrite (pretty_N_go_step x "" Hpos). by apply pretty_N_go_nonempty.
Qed.

Lemma pretty_Z_nonempty (z : Z) : pretty z ≠ "".
Proof.
  destruct z as [|p|p]; [done| |done]. apply (pretty_N_nonempty (Npos p)).
Qed.

End NumberLemmas.

Section DescriptorProperties.
Import Props FS aux_functions.

Lemma read_timestamp_not_dict j key :
  Py.isinstance_dict j = false → read_timestamp j key = Raise AttributeError.
Proof. by destruct j. Qed.

Lemma extract_metadata_bad_geo w json_path f d :
  open_ w json_path = Ok f → f_json f = Some (PDict d) → ¬ geo_well_formed d →
  extract_metadata w json_path = Raise AttributeError.
Proof.
  intros Hopen Hjson Hgeo. unfold extract_metadata, json_load.
  rewrite Hopen. cbn [mbind result_bind]. rewrite Hjson. cbn [mbind result_bind].
  rewrite !read_timestamp_dict. cbn [mbind result_bind].
  unfold geo_well_formed in Hgeo. unfold Py.get_default.
  destruct (Py.dict_lookup "geoData" d) as [g|]; [|done].
  cbn [default from_option id].
  destruct (Py.truthy g) eqn:Htruthy; [|tauto].
  destruct (Py.isinstance_dict g) eqn:Hdict; [tauto|].
  destruct (usable_timestamp (declared_timestamp d "photoTakenTime"));
    cbn [mbind result_bind]; rewrite ?Htruthy; by destruct g.
Qed.

(** X10. [extract_metadata] returns a record exactly when the descriptor
    is a regular file holding a JSON object whose [geoData] is absent,
    falsy or an object.  A JSON value that is not an object, and a
    [geoData] that is truthy without being an object, raise
    [AttributeError]. *)
Theorem extract_metadata_succeeds_iff (w : world) (json_path : string) :
  ((∃ meta, extract_metadata w json_path = Ok meta)
   ↔ ∃ f d, open_ w json_path = Ok f ∧ f_json f = Some (PDict d) ∧ geo_well_formed d)
  ∧ (∀ f j, open_ w json_path = Ok f → f_json f = Some j →
       Py.isinstance_dict j = false →
       extract_metadata w json_path = Raise AttributeError)
  ∧ (∀ f d, open_ w json_path = Ok f → f_json f = Some (PDict d) →
       ¬ geo_well_formed d →
       extract_metadata w json_path = Raise AttributeError).
Proof.
  assert (∀ f j, open_ w json_path = Ok f → f_json f = Some j →
            Py.isinstance_dict j = false →
            extract_metadata w json_path = Raise AttributeError) as Hobject.
  { intros f j Hopen Hjson Hj. unfold extract_metadata, json_load.
    rewrite Hopen. cbn [mbind result_bind]. rewrite Hjson. cbn [mbind result_bind].
    rewrite (read_timestamp_not_dict j "photoTakenTime" Hj). reflexivity. }
  split; [|split; [done|apply extract_metadata_bad_geo]].
  split.
  - intros [meta Hmeta].
    destruct (open_ w json_path) as [f|e] eqn:Hopen;
      [|by unfold extract_metadata, json_load in Hmeta; rewrite Hopen in Hmeta].
    destruct (f_json f) as [j|] eqn:Hjson;
      [|by unfold extract_metadata, json_load in Hmeta;
           rewrite Hopen in Hmeta; cbn [mbind result_bind] in Hmeta;
           rewrite Hjson in Hmeta].
    destruct (Py.isinstance_dict j) eqn:Hj;
      [|by rewrite (Hobject f j) in Hmeta].
    destruct j as [| | | | | |d]; try done.
    exists f, d. repeat split; [done|].
    unfold geo_well_formed.
    destruct (Py.dict_lookup "geoData" d) as [g|] eqn:Hg; [|done].
    destruct (Py.truthy g) eqn:Htruthy; [|by left].
    destruct (Py.isinstance_dict g) eqn:Hdict; [by right|].
    rewrite (extract_metadata_bad_geo w json_path f d) in Hmeta; [done..|].
    unfold geo_well_formed. rewrite Hg. intros [?|?]; congruence.
  - intros (f & d & Hopen & Hjson & Hgeo). eexists.
    by apply (extract_metadata_object _ _ f d).
Qed.

Section Requests.
Context `{External}.

Lemma in_request x video dates position height :
  In x dates ∨ In x position ∨ In x height →
  In x (List.concat [video; ["-overwrite_original"]; dates; position; height]).
Proof.
  intros Hin. apply in_concat.
  destruct Hin as [?|[?|?]]; eexists; (split; [|eassumption]); simpl; tauto.
Qed.

Lemma in_request_of x video dates position height args :
  Ok (List.concat [video; ["-overwrite_original"]; dates; position; height]) = Ok args →
  In x dates ∨ In x position ∨ In x height →
  In x args.
Proof. intros [= <-]. apply in_request. Qed.

(** X11. When [photoTakenTime] gives no usable timestamp, the one of
    [creationTime] is extracted in its place and, when it is not 0 and in
    the range [datetime.fromtimestamp] accepts (from 0001-01-02 to the end
    of year 9999), the request built from the record sets the three dates
    to it, written as [strftime] writes them. *)
Theorem creation_time_reaches_request (w w' : world) (json_path target : string)
    (f : file) (d : list (string * pyval)) (t : pyval) (ts : Z) :
  open_ w json_path = Ok f → f_json f = Some (PDict d) → geo_well_formed d →
  unusable (declared_timestamp d "photoTakenTime") →
  declared_timestamp d "creationTime" = Some t →
  Py.truthy t = true → Py.int t = Ok ts →
  ts ≠ 0%Z → (Py.MIN_TIMESTAMP ≤ ts ≤ Py.MAX_TIMESTAMP)%Z →
  ∃ meta args,
    extract_metadata w json_path = Ok meta
    ∧ timestamp meta = Some ts
    ∧ build_exiftool_args w' target meta = Ok args
    ∧ In ("-DateTimeOriginal=" ++ Py.strftime ts) args
    ∧ In ("-CreateDate=" ++ Py.strftime ts) args
    ∧ In ("-ModifyDate=" ++ Py.strftime ts) args.
Proof.
  intros Hopen Hjson Hgeo Hphoto Hcreation Htruthy Hint Hnz Hrange.
  eexists. eexists. split; [by apply (extract_metadata_object _ _ f d)|].
  rewrite (usable_timestamp_unusable _ Hphoto), Hcreation.
  cbn [usable_timestamp]. rewrite Htruthy, Hint. split; [done|].
  rewrite build_exiftool_args_eq. cbn [timestamp].
  rewrite ts_truthy_nonzero by done. cbn [default from_option id].
  rewrite fmt_ts_in_range by done. cbn [mbind result_bind].
  split; [reflexivity|].
  repeat split; apply in_request; left; simpl; tauto.
Qed.

(** X12. The coordinates of a descriptor reach the request as they are
    written: when [geoData] holds a latitude and a longitude that are
    neither [None] nor an empty text, the request built from the extracted
    record carries both, rendered by [str], whatever else the descriptor
    holds. *)
Theorem position_reaches_request (w w' : world) (json_path target : string)
    (f : file) (d g : list (string * pyval)) (lat lon : pyval)
    (meta : metadata) (args : list string) :
  open_ w json_path = Ok f → f_json f = Some (PDict d) →
  Py.dict_lookup "geoData" d = Some (PDict g) →
  Py.dict_lookup "latitude" g = Some lat → Py.dict_lookup "longitude" g = Some lon →
  valid_num lat = true → valid_num lon = true →
  extract_metadata w json_path = Ok meta →
  build_exiftool_args w' target meta = Ok args →
  latitude meta = lat ∧ longitude meta = lon
  ∧ In ("-GPSLatitude=" ++ Py.str lat) args
  ∧ In ("-GPSLongitude=" ++ Py.str lon) args.
Proof.
  intros Hopen Hjson Hgeo Hlat Hlon Hvlat Hvlon Hmeta.
  rewrite (extract_metadata_object w json_path f d) in Hmeta;
    [|done|done|unfold geo_well_formed; rewrite Hgeo; by right].
  injection Hmeta as <-. unfold geo_fields. rewrite Hgeo, Hlat, Hlon.
  cbn [default from_option id]. rewrite build_exiftool_args_eq.
  cbn [timestamp latitude longitude altitude]. rewrite Hvlat, Hvlon. cbn [andb].
  destruct (ts_truthy _); [destruct (fmt_ts _) as [dt|]; [|done]|];
    cbn [mbind result_bind]; intros Hargs;
    (repeat split; [done..| |]); apply (in_request_of _ _ _ _ _ _ Hargs);
    right; left; simpl; tauto.
Qed.

(** X13. A coordinate counts as given unless it is [None] or an empty
    text: numbers, zero included, truth values, lists, objects and any
    other text all pass [valid_num], as long as [str] renders no float as
    the empty text. *)
Theorem valid_num_spec (x : pyval) :
  (∀ f, float_str f ≠ "") →
  valid_num x = false ↔ x = PNone ∨ x = PStr "".
Proof.
  intros Hfloat. unfold valid_num. split.
  - destruct x as [|b|z|f|s|l|d]; cbn [Py.is_None negb andb Py.str Py.repr].
    + by left.
    + by destruct b.
    + intros Hz%negb_false_iff%String.eqb_eq. by apply pretty_Z_nonempty in Hz.
    + intros Hf%negb_false_iff%String.eqb_eq. by apply Hfloat in Hf.
    + intros Hs%negb_false_iff%String.eqb_eq. right. by subst s.
    + done.
    + done.
  - by intros [->| ->].
Qed.

End Requests.

End DescriptorProperties.

Lemma extract_metadata_succeeds_iff_witness :
  aux_functions.extract_metadata Examples.list_descriptor_world
    "/takeout/album/photo.jpg.json" = Raise AttributeError.
Proof.
  refine (proj1 (proj2 (extract_metadata_succeeds_iff Examples.list_descriptor_world
                          "/takeout/album/photo.jpg.json")) _ (PList []) eq_refl
            eq_refl eq_refl).
Defined.

Lemma creation_time_reaches_request_witness :
  ∃ meta args,
    aux_functions.extract_metadata Examples.creation_world
      "/takeout/album/photo.jpg.json" = Ok meta
    ∧ aux_functions.timestamp meta = Some 1600000000%Z
    ∧ @aux_functions.build_exiftool_args Examples.working_exiftool Examples.epoch_world
        "/out/album/photo.jpg" meta = Ok args
    ∧ In "-DateTimeOriginal=2020:09:13 12:26:40" args
    ∧ In "-CreateDate=2020:09:13 12:26:40" args
    ∧ In "-ModifyDate=2020:09:13 12:26:40" args.
Proof.
  refine (@creation_time_reaches_request Examples.working_exiftool
            Examples.creation_world Examples.epoch_world
            "/takeout/album/photo.jpg.json" "/out/album/photo.jpg" _ _
            (PStr "1600000000") 1600000000%Z eq_refl eq_refl _ _ eq_refl eq_refl
            eq_refl _ _).
  - exact I.
  - left. reflexivity.
  - discriminate.
  - unfold Py.MIN_TIMESTAMP, Py.MAX_TIMESTAMP. lia.
Defined.

Lemma position_reaches_request_witness :
  In "-GPSLatitude=48"
     ["-overwrite_original"; "-DateTimeOriginal=2020:09:13 12:26:40";
      "-CreateDate=2020:09:13 12:26:40"; "-ModifyDate=2020:09:13 12:26:40"; "-P";
      "-FileCreateDate<CreateDate"; "-FileModifyDate<ModifyDate";
      "-GPSLatitude=48"; "-GPSLongitude=2"; "-GPSAltitude=35"].
Proof.
  refine (proj1 (proj2 (proj2
    (@position_reaches_request Examples.working_exiftool Examples.one_photo_world
       Examples.epoch_world "/takeout/album/photo.jpg.json" "/out/album/photo.jpg"
       _ _ _ (PInt 48) (PInt 2) _ _ eq_refl eq_refl eq_refl eq_refl eq_refl
       eq_refl eq_refl eq_refl _)))).
  vm_compute. reflexivity.
Defined.

Lemma valid_num_spec_witness :
  @aux_functions.valid_num Examples.working_exiftool (PInt 0) = false
  ↔ PInt 0 = PNone ∨ PInt 0 = PStr "".
Proof.
  apply (@valid_num_spec Examples.working_exiftool). intros f. discriminate.
Defined.

(** Dates as the request carries them: the year is not padded, and the
    first day of year 1 is refused. *)
Example fmt_ts_early_years :
  aux_functions.fmt_ts (-50000000000) = Ok "385:07:25 07:06:40"
  ∧ aux_functions.fmt_ts (-62135510400) = Ok "1:01:02 00:00:00"
  ∧ aux_functions.fmt_ts (-62135510401) = Raise ValueError
  ∧ aux_functions.fmt_ts (-62135596800) = Raise ValueError
  ∧ aux_functions.fmt_ts 253402300799 = Ok "9999:12:31 23:59:59"
  ∧ aux_functions.fmt_ts 253402300800 = Raise ValueError.
Proof. repeat split; vm_compute; reflexivity. Qed.

(** [int] skips tab, newline and blank around the digits, not the
    separators U+001C to U+001F. *)
Example int_white_space :
  Py.int (PStr (String (Str.chr 9) "5" ++ Str.LF)) = Ok 5%Z
  ∧ Py.int (PStr " 5 ") = Ok 5%Z
  ∧ Py.int (PStr (String (Str.chr 28) "5")) = Raise ValueError
  ∧ Py.int (PStr ("5" ++ String (Str.chr 31) "")) = Raise ValueError.
Proof. repeat split; vm_compute; reflexivity. Qed.

(** ** Timestamps out of range, and what the fallback touches *)

Section FallbackLemmas.
Import Props FS aux_functions.

Lemma same_content_refl w : same_content w w.
Proof. intros cs. by destruct (walk cs w) as [[f|es]|]. Qed.

Lemma untouched_but_refl cs w : untouched_but cs w w.
Proof. intros cs' _. split; eauto. Qed.

Lemma untouched_but_trans cs w1 w2 w3 :
  untouched_but cs w1 w2 → untouched_but cs w2 w3 → untouched_but cs w1 w3.
Proof.
  intros H12 H23 cs' Hne. destruct (H12 cs' Hne) as [Hf Hd].
  destruct (H23 cs' Hne) as [Hf' Hd']. split.
  - intros f Hw. by apply Hf', Hf.
  - intros es Hw. destruct (Hd es Hw) as [es' Hw']. by apply (Hd' es').
Qed.

Lemma untouched_preserved cs w0 w w' :
  preserved w0 w → walk cs w0 = None → untouched_but cs w w' → preserved w0 w'.
Proof.
  intros Hpres Hnone Hun cs'. destruct (Hpres cs') as [Hf Hd].
  assert (is_Some (walk cs' w0) → cs' ≠ cs) as Hne.
  { intros [x Hx] ->. congruence. }
  split.
  - intros f Hw. apply Hun; [by apply Hne; eexists|]. by apply Hf.
  - intros es Hw. destruct (Hd es Hw) as [es' Hw'].
    eapply Hun; [by apply Hne; eexists|done].
Qed.

(** Setting times rewrites one node and nothing but its times. *)
Lemma update_set_times cs a m n n' :
  update cs (set_times a m) n = Ok n' → same_content n n' ∧ untouched_but cs n n'.
Proof.
  revert n n'. induction cs as [|c cs IH]; intros n n'; simpl.
  - destruct n as [f|es]; intros [= <-].
    + split.
      * intros [|c0 cs0]; simpl; done.
      * intros [|c0 cs0] Hne; [done|]. simpl. split; [done|]. by intros es.
    + split; [apply same_content_refl|apply untouched_but_refl].
  - destruct n as [f|es]; [done|].
    destruct (entry_lookup c es) as [child|] eqn:Hc.
    + destruct (update cs _ child) as [child'|] eqn:Hu; simpl; [|done].
      intros [= <-]. destruct (IH _ _ Hu) as [Hsame Hun]. split.
      * intros [|c0 cs0]; simpl; [done|].
        destruct (decide (c = c0)) as [<-|Hne].
        -- rewrite Hc, entry_lookup_set_eq. apply Hsame.
        -- rewrite entry_lookup_set_ne by done.
           destruct (entry_lookup c0 es) as [x|]; [|done].
           apply same_content_refl.
      * intros [|c0 cs0] Hne'; simpl; [split; [done|eauto]|].
        destruct (decide (c = c0)) as [<-|Hne].
        -- rewrite Hc, entry_lookup_set_eq. apply Hun. congruence.
        -- rewrite entry_lookup_set_ne by done.
           destruct (entry_lookup c0 es); [|done]. split; eauto.
    + destruct cs as [|c' cs]; [|done]. done.
Qed.

Lemma same_content_exists w w' p : same_content w w' → exists_ w' p = exists_ w p.
Proof.
  intros Hsame. unfold exists_, resolve. destruct (p =? ""); [done|].
  specialize (Hsame (components p)).
  by destruct (walk (components p) w) as [[f|es]|],
              (walk (components p) w') as [[f'|es']|].
Qed.

Lemma fmt_ts_out_of_range ts :
  ¬ (Py.MIN_TIMESTAMP ≤ ts ≤ Py.MAX_TIMESTAMP)%Z →
  ∃ e, Py.fromtimestamp ts = Raise e ∧ fmt_ts ts = Raise e.
Proof.
  intros Hout. destruct (fromtimestamp_out_of_range ts Hout) as [e He].
  exists e. split; [done|]. unfold fmt_ts. by rewrite He.
Qed.

End FallbackLemmas.

Section FallbackProperties.
Import Props FS aux_functions process_folder.
Context `{External}.

Lemma set_fs_times_fallback_frame w path ts :
  same_content w (set_fs_times_fallback w path ts)
  ∧ untouched_but (components path) w (set_fs_times_fallback w path ts).
Proof.
  unfold set_fs_times_fallback.
  destruct (Py.fromtimestamp ts) as [dt|]; cbn [mbind result_bind];
    [|split; [apply same_content_refl|apply untouched_but_refl]].
  unfold utime. destruct (path =? "");
    [split; [apply same_content_refl|apply untouched_but_refl]|].
  destruct (update _ _ w) as [w'|] eqn:Hu;
    [|split; [apply same_content_refl|apply untouched_but_refl]].
  by apply update_set_times in Hu.
Qed.

Lemma apply_out_of_range w target meta ts :
  timestamp meta = Some ts → ts ≠ 0%Z →
  ¬ (Py.MIN_TIMESTAMP ≤ ts ≤ Py.MAX_TIMESTAMP)%Z →
  ∃ e, build_exiftool_args w target meta = Raise e
       ∧ apply_metadata_and_fs_times w target meta = Raise e.
Proof.
  intros Hts Hnz Hout. destruct (fmt_ts_out_of_range ts Hout) as (e & _ & Hfmt).
  exists e.
  assert (build_exiftool_args w target meta = Raise e) as Hbuild.
  { rewrite build_exiftool_args_eq, Hts, ts_truthy_nonzero by done.
    cbn [default from_option id]. by rewrite Hfmt. }
  split; [done|]. unfold apply_metadata_and_fs_times. by rewrite Hbuild.
Qed.

(** X14. A timestamp that is not 0 and lies outside the range of
    [datetime] (one given in milliseconds, say) makes the request builder
    raise: [apply_metadata_and_fs_times] raises before the tool is run, and
    the unit that carries it raises out of the loop body once its media is
    copied.  The filesystem fallback, which guards the same conversion,
    would have left the world as it was. *)
Theorem out_of_range_timestamp_aborts (w : world) (target : string)
    (meta : metadata) (ts : Z) :
  timestamp meta = Some ts → ts ≠ 0%Z →
  ¬ (Py.MIN_TIMESTAMP ≤ ts ≤ Py.MAX_TIMESTAMP)%Z →
  raises (build_exiftool_args w target meta) = true
  ∧ raises (apply_metadata_and_fs_times w target meta) = true
  ∧ set_fs_times_fallback w target ts = w
  ∧ ∀ root out r json_path media out_media w1,
      media ≠ "" →
      copy_media_to_output (disk r) root out media = Ok (out_media, w1) →
      extract_metadata w1 json_path = Ok meta →
      raises (process_one root out r (json_path, Some media)) = true.
Proof.
  intros Hts Hnz Hout.
  destruct (apply_out_of_range w target meta ts Hts Hnz Hout) as (e & -> & ->).
  split; [done|]. split; [done|]. split.
  - unfold set_fs_times_fallback.
    destruct (fromtimestamp_out_of_range ts Hout) as [e' ->]. done.
  - intros root out r json_path media out_media w1 Hmedia Hcopy Hmeta.
    unfold process_one.
    assert (no_path (Some media) = false) as -> by by destruct media.
    cbn [default from_option id]. rewrite Hcopy. cbn [mbind result_bind].
    rewrite Hmeta. cbn [mbind result_bind].
    destruct (apply_out_of_range w1 out_media meta ts Hts Hnz Hout) as (e' & _ & ->).
    done.
Qed.

(** X15. The filesystem fallback changes times and nothing else: the tree
    keeps its shape, every regular file its bytes and descriptor value, and
    away from the given path every file is exactly as it was.  It never
    raises: on a missing path or a timestamp out of range it returns the
    world unchanged. *)
Theorem fallback_changes_times_only (w : world) (path : string) (ts : Z) :
  same_content w (set_fs_times_fallback w path ts)
  ∧ untouched_but (components path) w (set_fs_times_fallback w path ts)
  ∧ (exists_ w path = false → set_fs_times_fallback w path ts = w)
  ∧ (¬ (Py.MIN_TIMESTAMP ≤ ts ≤ Py.MAX_TIMESTAMP)%Z →
     set_fs_times_fallback w path ts = w).
Proof.
  destruct (set_fs_times_fallback_frame w path ts) as [Hsame Hun].
  split; [done|]. split; [done|]. split.
  - unfold set_fs_times_fallback, exists_, resolve, utime.
    destruct (Py.fromtimestamp ts) as [dt|]; cbn [mbind result_bind]; [|done].
    destruct (path =? ""); [done|].
    destruct (walk (components path) w) eqn:Hwalk; [done|]. intros _.
    destruct (update _ _ w) as [w'|] eqn:Hu; [|done].
    apply update_walk in Hu as (x & Hx & _). by rewrite Hwalk in Hx.
  - intros Hout. unfold set_fs_times_fallback.
    destruct (fromtimestamp_out_of_range ts Hout) as [e ->]. done.
Qed.

End FallbackProperties.

Lemma out_of_range_timestamp_aborts_witness :
  raises (@aux_functions.apply_metadata_and_fs_times Examples.working_exiftool
            Examples.epoch_world "/out/album/photo.jpg" Examples.millis_meta) = true.
Proof.
  refine (proj1 (proj2
    (@out_of_range_timestamp_aborts Examples.working_exiftool Examples.epoch_world
       "/out/album/photo.jpg" Examples.millis_meta 1600000000000%Z eq_refl _ _))).
  - discriminate.
  - unfold Py.MIN_TIMESTAMP, Py.MAX_TIMESTAMP. lia.
Defined.

Lemma fallback_changes_times_only_witness :
  aux_functions.set_fs_times_fallback Examples.epoch_world "/out/album/missing.jpg"
    1600000000%Z = Examples.epoch_world.
Proof.
  refine (proj1 (proj2 (proj2
    (fallback_changes_times_only Examples.epoch_world "/out/album/missing.jpg"
       1600000000%Z))) eq_refl).
Defined.

(** ** What a placement writes, and where *)

Section PlacementLemmas.
Import Props FS aux_functions.

(** [makedirs] makes directories only: a regular file it leaves was there. *)
Lemma mkdirs_reflects cs n n' cs0 f :
  mkdirs cs n = Ok n' → walk cs0 n' = Some (File f) → walk cs0 n = Some (File f).
Proof.
  revert n n' cs0. induction cs as [|c cs IH]; intros n n' cs0; simpl.
  - destruct n; [done|]. by intros [= <-].
  - destruct n as [f0|es]; [done|].
    destruct (mkdirs cs _) as [child'|] eqn:Hm; simpl; [|done].
    intros [= <-]. destruct cs0 as [|c0 cs0]; [done|]. simpl.
    destruct (decide (c = c0)) as [<-|Hne].
    + rewrite entry_lookup_set_eq. intros Hw. apply (IH _ _ _ Hm) in Hw.
      destruct (entry_lookup c es); [done|]. by destruct cs0.
    + by rewrite entry_lookup_set_ne.
Qed.

Lemma makedirs_reflects w p w' q f :
  makedirs w p = Ok w' → open_ w' q = Ok f → open_ w q = Ok f.
Proof.
  unfold makedirs, open_, resolve. destruct (p =? ""); [done|]. intros Hm.
  destruct (q =? ""); [done|].
  destruct (walk (components q) w') as [[f'|es]|] eqn:Hw; [|done|done].
  intros [= ->]. by rewrite (mkdirs_reflects _ _ _ _ _ Hm Hw).
Qed.

Lemma compute_normalized_output_reflects w root out m dst w' q f :
  compute_normalized_output w root out m = Ok (dst, w') →
  open_ w' q = Ok f → open_ w q = Ok f.
Proof.
  unfold compute_normalized_output.
  destruct (PosixPath.relpath _ root) as [rel_dir|]; simpl; [|done].
  destruct (collapse_extensions _) as [base last_ext].
  rewrite sniff_type_ok. simpl.
  destruct (makedirs w _) as [w1|] eqn:Hmk; simpl; [|done].
  destruct (exists_ w1 (PosixPath.join _ _)).
  - destruct (PosixPath.splitext _) as [stem ext].
    destruct (next_free _ _ _ _ _ _) as [c|]; [|done].
    intros [= <- <-]. apply (makedirs_reflects _ _ _ _ _ Hmk).
  - intros [= <- <-]. apply (makedirs_reflects _ _ _ _ _ Hmk).
Qed.

End PlacementLemmas.

Section PlacementProperties.
Import Props FS aux_functions.

(** X16. A placement is a faithful copy to a place that was free: the
    source is a regular file, the destination did not exist before, and
    afterwards it is a regular file with the bytes, the descriptor value
    and the modification time of the source, which keeps its own. *)
Theorem placed_copy_is_faithful (w : world) (root out media dst : string)
    (w' : world) :
  copy_media_to_output w root out media = Ok (dst, w') →
  exists_ w dst = false
  ∧ ∃ f f' g,
      open_ w media = Ok f
      ∧ open_ w' media = Ok f' ∧ same_file f f'
      ∧ open_ w' dst = Ok g ∧ same_file f g.
Proof.
  intros Hcopy.
  destruct (copy_media_to_output_spec _ _ _ _ _ _ Hcopy) as (Hfresh & Hpres & f & Hm & Hd).
  split.
  { destruct (exists_ w dst) eqn:Hex; [|done]. by destruct (Hfresh dst Hex). }
  exists f, f, f. split; [|by repeat split; try apply same_file_refl].
  revert Hcopy. unfold copy_media_to_output.
  destruct (compute_normalized_output w root out media) as [[dst' w1]|] eqn:Hc;
    cbn [mbind result_bind]; [|done].
  destruct (compute_normalized_output_free _ _ _ _ _ _ Hc) as [Hfree _].
  rewrite Hfree. cbn [negb]. unfold copy2.
  destruct (open_ w1 media) as [f1|] eqn:Hf1; cbn [mbind result_bind]; [|done].
  intros _. apply (compute_normalized_output_reflects _ _ _ _ _ _ _ _ Hc) in Hf1.
  pose proof (preserved_open _ _ _ _ Hpres Hf1) as Hm'. congruence.
Qed.

(** X17. For a file whose content is recognized, the destination bears
    the base of the source name with the extension of the content,
    whatever extension the source name has; when that name is taken it
    bears the first counter, from 1 up, whose numbered name is free.  In
    both cases the destination is a path that does not exist. *)
Theorem destination_is_first_free (w : world) (root out media k e dst : string)
    (w1 : world) :
  sniff_type w media = Ok (Some (k, e)) →
  compute_normalized_output w root out media = Ok (dst, w1) →
  exists_ w1 dst = false
  ∧ ∃ rel name d,
      PosixPath.relpath (PosixPath.dirname media) root = Ok rel
      ∧ name = fst (collapse_extensions (PosixPath.basename media)) ++ "." ++ e
      ∧ d = PosixPath.join out rel
      ∧ ((exists_ w1 (PosixPath.join d name) = false ∧ dst = PosixPath.join d name)
         ∨ (exists_ w1 (PosixPath.join d name) = true
            ∧ ∃ n, (1 ≤ n)%nat
                   ∧ dst = PosixPath.join d (numbered name n)
                   ∧ exists_ w1 (PosixPath.join d (numbered name n)) = false
                   ∧ ∀ i, (1 ≤ i < n)%nat →
                       exists_ w1 (PosixPath.join d (numbered name i)) = true)).
Proof.
  intros Hsniff Hcompute.
  pose proof (proj1 (compute_normalized_output_free _ _ _ _ _ _ Hcompute)) as Hfree.
  split; [exact Hfree|].
  revert Hcompute. unfold compute_normalized_output. rewrite Hsniff.
  destruct (PosixPath.relpath _ root) as [rel|]; cbn [mbind result_bind]; [|done].
  destruct (collapse_extensions _) as [base last_ext]. cbn [fst].
  assert (negb (e =? "") = true) as ->.
  { rewrite sniff_type_ok in Hsniff. injection Hsniff as Hsniff.
    destruct (read_header w media) as [header|]; [|done].
    apply sniff_header_kinds in Hsniff. simpl in Hsniff.
    by repeat (destruct Hsniff as [[= <- <-]|Hsniff]; [done|]). }
  destruct (makedirs w _) as [w'|]; cbn [mbind result_bind]; [|done].
  destruct (exists_ w' (PosixPath.join _ _)) eqn:Hex.
  - destruct (PosixPath.splitext (base ++ "." ++ e)) as [stem ext] eqn:Hsplit.
    destruct (next_free _ _ _ _ _ _) as [c|] eqn:Hnext; [|done].
    intros [= <- <-].
    exists rel, (base ++ "." ++ e), (PosixPath.join out rel).
    do 3 (split; [done|]). right. split; [done|].
    apply next_free_first in Hnext as (n & -> & Hn). unfold numbered. rewrite Hsplit.
    exists (1 + n)%nat. split; [lia|]. split; [done|]. split; [exact Hfree|].
    intros i Hi. replace i with (1 + (i - 1))%nat by lia. apply Hn. lia.
  - intros [= <- <-].
    exists rel, (base ++ "." ++ e), (PosixPath.join out rel).
    do 3 (split; [done|]). by left.
Qed.

End PlacementProperties.

Lemma placed_copy_is_faithful_witness :
  FS.exists_ Examples.single_world "/out/album/photo.jpg" = false
  ∧ ∃ f f' g,
      FS.open_ Examples.single_world "/takeout/album/photo.jpg" = Ok f
      ∧ FS.open_ Examples.single_world_1 "/takeout/album/photo.jpg" = Ok f'
      ∧ Props.same_file f f'
      ∧ FS.open_ Examples.single_world_1 "/out/album/photo.jpg" = Ok g
      ∧ Props.same_file f g.
Proof.
  refine (placed_copy_is_faithful Examples.single_world "/takeout" "/out"
            "/takeout/album/photo.jpg" "/out/album/photo.jpg" _ _).
  vm_compute. reflexivity.
Defined.

Lemma destination_is_first_free_witness :
  ∃ rel name d,
    PosixPath.relpath (PosixPath.dirname "/takeout/album/photo.v2.jpg") "/takeout"
    = Ok rel
    ∧ name = fst (aux_functions.collapse_extensions
                    (PosixPath.basename "/takeout/album/photo.v2.jpg")) ++ "." ++ "jpg"
    ∧ d = PosixPath.join "/out" rel
    ∧ ((FS.exists_ Examples.collision_world_1 (PosixPath.join d name) = false
        ∧ "/out/album/photo(1).jpg" = PosixPath.join d name)
       ∨ (FS.exists_ Examples.collision_world_1 (PosixPath.join d name) = true
          ∧ ∃ n, (1 ≤ n)%nat
                 ∧ "/out/album/photo(1).jpg" = PosixPath.join d (Props.numbered name n)
                 ∧ FS.exists_ Examples.collision_world_1
                     (PosixPath.join d (Props.numbered name n)) = false
                 ∧ ∀ i, (1 ≤ i < n)%nat →
                     FS.exists_ Examples.collision_world_1
                       (PosixPath.join d (Props.numbered name i)) = true)).
Proof.
  refine (proj2 (destination_is_first_free Examples.collision_world_1 "/takeout" "/out"
            "/takeout/album/photo.v2.jpg" "jpeg" "jpg" "/out/album/photo(1).jpg"
            Examples.collision_world_1 _ _)); vm_compute; reflexivity.
Defined.

(** ** What a whole run does *)

Section RunLemmas.
Import Props FS aux_functions process_folder.
Context `{External}.

Lemma untouched_exists cs w w' target o :
  components target = cs →
  untouched_but cs w w' →
  (exists_ w target = true → exists_ w' target = true) →
  exists_ w target = true →
  exists_ w o = true → exists_ w' o = true.
Proof.
  intros <- Hun Htarget Ht. specialize (Htarget Ht). revert Htarget Ht.
  unfold exists_, resolve. destruct (o =? ""); [done|].
  destruct (target =? ""); [done|]. intros Htarget _.
  destruct (decide (components o = components target)) as [->|Hne]; [done|].
  destruct (Hun _ Hne) as [Hf Hd].
  destruct (walk (components o) w) as [[f|es]|]; [|by destruct (Hd es eq_refl) as [? ->]|done].
  by rewrite (Hf f).
Qed.

(** The tool and the fallback together change at most the target. *)
Lemma apply_metadata_frame w target meta rc log w' :
  confined_tool →
  apply_metadata_and_fs_times w target meta = Ok (rc, log, w') →
  untouched_but (components target) w w'
  ∧ (exists_ w target = true → exists_ w' target = true).
Proof.
  intros Htool. unfold apply_metadata_and_fs_times.
  destruct (build_exiftool_args w target meta) as [args|]; cbn [mbind result_bind];
    [|done].
  unfold run_exiftool.
  assert (∀ wt,
            untouched_but (components target) w wt
            ∧ (exists_ w target = true → exists_ wt target = true) →
            ∀ w2, (if ts_truthy (timestamp meta)
                   then set_fs_times_fallback wt target (default 0%Z (timestamp meta))
                   else wt) = w2 →
            untouched_but (components target) w w2
            ∧ (exists_ w target = true → exists_ w2 target = true)) as Hfallback.
  { intros wt [Hun Hex] w2 <-. destruct (ts_truthy _); [|done].
    destruct (set_fs_times_fallback_frame wt target (default 0%Z (timestamp meta)))
      as [Hsame Hun']. split.
    - by eapply untouched_but_trans.
    - intros Ht. rewrite (same_content_exists _ _ _ Hsame). by apply Hex. }
  destruct (subprocess_run _ w) as [[[rc' log'] wt]|] eqn:Hrun.
  - intros [= <- <- Hw2]. by apply (Hfallback wt (Htool _ _ _ _ _ _ Hrun)).
  - intros [= <- <- Hw2]. apply (Hfallback w); [|done].
    split; [apply untouched_but_refl|done].
Qed.

Lemma outputs_app h b : outputs (h ++ b) = (outputs h ++ outputs b)%list.
Proof. unfold outputs. by rewrite flat_map_app. Qed.

Lemma preserved_absent w0 w cs : preserved w0 w → walk cs w = None → walk cs w0 = None.
Proof.
  intros Hpres Hnone. destruct (Hpres cs) as [Hf Hd].
  destruct (walk cs w0) as [[f|es]|]; [|by destruct (Hd es eq_refl) as [? ?]; congruence|done].
  specialize (Hf f eq_refl). congruence.
Qed.

(** One placement followed by one fusion keeps what a run keeps. *)
Lemma placement_keeps w0 w h root out media dst w1 meta rc log w2 :
  confined_tool →
  preserved w0 w → NoDup (outputs h) →
  Forall (fun o => exists_ w o = true) (outputs h) →
  copy_media_to_output w root out media = Ok (dst, w1) →
  apply_metadata_and_fs_times w1 dst meta = Ok (rc, log, w2) →
  preserved w0 w2
  ∧ NoDup (outputs h ++ [dst])
  ∧ Forall (fun o => exists_ w2 o = true) (outputs h ++ [dst]).
Proof.
  intros Htool Hpres Hnd Hall Hcopy Happly.
  destruct (copy_media_to_output_spec _ _ _ _ _ _ Hcopy) as (Hfresh & Hpres1 & f & _ & Hdst).
  destruct (apply_metadata_frame _ _ _ _ _ _ Htool Happly) as [Hun Hkeep].
  assert (exists_ w1 dst = true) as Hex1 by (unfold exists_, open_ in *; by destruct (resolve w1 dst)).
  assert (exists_ w dst = false) as Hex0.
  { destruct (exists_ w dst) eqn:Hex; [|done]. by destruct (Hfresh dst Hex). }
  assert (walk (components dst) w0 = None) as Hnone.
  { apply (preserved_absent _ w); [done|]. revert Hex0 Hex1.
    unfold exists_, resolve. destruct (dst =? ""); [done|].
    by destruct (walk (components dst) w). }
  split; [|split].
  - eapply untouched_preserved; [|exact Hnone|exact Hun]. by eapply preserved_trans.
  - apply NoDup_app. split; [done|]. split; [|apply NoDup_singleton].
    intros o Ho ->%list_elem_of_singleton.
    rewrite List.Forall_forall in Hall. apply list_elem_of_In, Hall in Ho. congruence.
  - apply Forall_app. split; [|by repeat constructor; apply Hkeep].
    eapply Forall_impl; [exact Hall|]. intros o Ho. cbn beta in Ho |- *.
    apply (untouched_exists (components dst) w1 w2 dst); [done|done|done|done|].
    by eapply preserved_exists.
Qed.

Lemma link_live_keeps w0 root out media meta r r' :
  confined_tool → keeps w0 r →
  link_live root out media meta r = Ok r' → keeps w0 r'.
Proof.
  intros Htool (Hpres & Hnd & Hall). unfold link_live.
  destruct (sniff_type (disk r) media) as [[[k e]|]|]; cbn [mbind result_bind];
    [|by intros [= <-]|done].
  destruct (negb (in_list k SNIFFED_VIDEO)); [|by intros [= <-]].
  destruct (PosixPath.splitext (PosixPath.basename media)) as [stem ext].
  destruct (find_live_video_partner _ _ _) as [live_path|]; cbn [mbind result_bind];
    [|done].
  destruct (negb (no_path live_path) && _); [|by intros [= <-]].
  destruct (copy_media_to_output _ _ _ _) as [[out_live w]|] eqn:Hcopy;
    cbn [mbind result_bind]; [|done].
  destruct (apply_metadata_and_fs_times _ _ _) as [[[rc2 log2] w']|] eqn:Happly;
    cbn [mbind result_bind]; [|done].
  destruct (placement_keeps _ _ _ _ _ _ _ _ _ _ _ _ Htool Hpres Hnd Hall Hcopy Happly)
    as (Hpres' & Hnd' & Hall').
  destruct (negb (rc2 =? 0)%Z); intros [= <-]; unfold keeps;
    cbn [disk history]; rewrite ?outputs_app; cbn [outputs flat_map List.app];
    rewrite ?app_nil_r; done.
Qed.

Lemma process_one_keeps w0 root out r u r' :
  confined_tool → keeps w0 r →
  process_one root out r u = Ok r' → keeps w0 r'.
Proof.
  intros Htool (Hpres & Hnd & Hall). destruct u as [json_path media].
  unfold process_one. destruct (no_path media).
  { intros [= <-]. unfold keeps. cbn [disk history].
    rewrite outputs_app. cbn [outputs flat_map List.app]. by rewrite app_nil_r. }
  destruct (copy_media_to_output _ _ _ _) as [[out_media w]|] eqn:Hcopy;
    cbn [mbind result_bind]; [|done].
  destruct (extract_metadata _ _) as [meta|]; cbn [mbind result_bind]; [|done].
  destruct (apply_metadata_and_fs_times _ _ _) as [[[rc log] w']|] eqn:Happly;
    cbn [mbind result_bind]; [|done].
  destruct (placement_keeps _ _ _ _ _ _ _ _ _ _ _ _ Htool Hpres Hnd Hall Hcopy Happly)
    as (Hpres' & Hnd' & Hall').
  apply link_live_keeps; [done|]. unfold keeps. cbn [disk history].
  rewrite outputs_app. cbn [outputs flat_map List.app]. done.
Qed.

Lemma process_all_keeps w0 root out sidecars r r' :
  confined_tool → keeps w0 r →
  process_all root out r sidecars = Ok r' → keeps w0 r'.
Proof.
  intros Htool. revert r. induction sidecars as [|u rest IH]; intros r Hkeeps; simpl.
  { by intros [= <-]. }
  destruct (process_one root out r u) as [r1|] eqn:Hone; cbn [mbind result_bind]; [|done].
  apply IH. by eapply process_one_keeps.
Qed.

Lemma main_keeps w source_folder output_folder edited_word r :
  confined_tool →
  merge_metadata.main w source_folder output_folder edited_word = Ok r →
  ∃ w0, makedirs w output_folder = Ok w0 ∧ keeps w0 r.
Proof.
  intros Htool. unfold merge_metadata.main.
  destruct (negb (exists_ w source_folder)); [done|].
  destruct (makedirs w output_folder) as [w0|] eqn:Hmk; cbn [mbind result_bind]; [|done].
  unfold process_folder.
  destruct (get_sidecars w0 source_folder edited_word) as [sidecars|];
    cbn [mbind result_bind]; [|done].
  intros Hall. exists w0. split; [done|].
  apply (process_all_keeps w0) in Hall; [done|done|].
  unfold keeps. cbn [disk history outputs flat_map].
  split; [apply preserved_refl|]. split; [apply NoDup_nil_2|done].
Qed.

(** *** Counters *)

Lemma link_live_bounds root out media meta r r' :
  link_live root out media meta r = Ok r' →
  success r' = success r ∧ failed r' = failed r
  ∧ (linked_live r ≤ linked_live r' ≤ linked_live r + 1)%nat.
Proof.
  intros [->|[(p & o & w & rc2 & _ & _ & ->)|(p & o & w & _ & ->)]]%link_live_cases;
    cbn [success failed linked_live]; lia.
Qed.

Lemma process_one_bounds root out r u r' :
  process_one root out r u = Ok r' →
  (success r ≤ success r')%nat ∧ (failed r ≤ failed r')%nat
  ∧ (linked_live r ≤ linked_live r')%nat
  ∧ (success r' + failed r' ≤ success r + failed r + 1)%nat
  ∧ (linked_live r' + failed r' ≤ linked_live r + failed r + 1)%nat.
Proof.
  destruct u as [json_path media].
  intros [[_ ->]|(m & out_media & meta & rc & w & _ & Hlink)]%process_one_cases.
  - cbn [success failed linked_live]. lia.
  - apply link_live_bounds in Hlink as (Hs & Hf & Hl).
    cbn [success failed linked_live] in *. destruct (rc =? 0)%Z; lia.
Qed.

Lemma process_all_bounds root out sidecars r r' :
  process_all root out r sidecars = Ok r' →
  (success r' + failed r' ≤ success r + failed r + length sidecars)%nat
  ∧ (linked_live r' + failed r' ≤ linked_live r + failed r + length sidecars)%nat.
Proof.
  revert r. induction sidecars as [|u rest IH]; intros r; simpl.
  { intros [= <-]. lia. }
  destruct (process_one root out r u) as [r1|] eqn:Hone; cbn [mbind result_bind]; [|done].
  intros Hrest%IH. apply process_one_bounds in Hone. lia.
Qed.

(** *** The list of units *)

Lemma foldl_raise {A B} (step : result A → B → result A) e l :
  (∀ x, step (Raise e) x = Raise e) → foldl step (Raise e) l = Raise e.
Proof. intros Hstep. induction l as [|x l IH]; simpl; [done|]. by rewrite Hstep. Qed.

End RunLemmas.

Section UnitLemmas.
Import Props FS aux_functions process_folder.

(** What makes a pair a unit of the run. *)
Lemma get_sidecars_rec_sound depth w folder edited_word pairs json_path media :
  get_sidecars_rec depth w folder edited_word = Ok pairs →
  In (json_path, media) pairs →
  ∃ d name base ext,
    json_path = PosixPath.join d name
    ∧ PosixPath.splitext name = (base, ext)
    ∧ Str.lower ext = ".json"
    ∧ in_list base EXCLUDE_JSON_BASE = false
    ∧ search_media w d base edited_word = Ok media.
Proof.
  revert folder pairs json_path media.
  induction depth as [|depth IH]; intros folder pairs json_path media; [done|].
  cbn [get_sidecars_rec].
  destruct (scandir w folder) as [es|] eqn:Hscan; cbn [mbind result_bind]; [|done].
  apply scandir_Ok in Hscan as (es0 & _ & Hes).
  assert (∀ entry, In entry es → e_path entry = PosixPath.join folder (e_name entry))
    as Hpaths.
  { intros entry Hin. rewrite Hes in Hin.
    by apply in_map_iff in Hin as ([name n] & <- & _). }
  clear Hes es0.
  set (Q := fun jm : string * option string =>
              ∃ d name base ext,
                jm.1 = PosixPath.join d name
                ∧ PosixPath.splitext name = (base, ext)
                ∧ Str.lower ext = ".json"
                ∧ in_list base EXCLUDE_JSON_BASE = false
                ∧ search_media w d base edited_word = Ok jm.2).
  assert (∀ acc, (∀ jm, In jm acc → Q jm) →
            foldl (fun pairs entry =>
                     pairs ← pairs;
                     if e_is_dir entry then
                       more ← get_sidecars_rec depth w (e_path entry) edited_word;
                       Ok (List.app pairs more)
                     else if e_is_file entry then
                       let '(base, ext) := PosixPath.splitext (e_name entry) in
                       if (Str.lower ext =? ".json")
                          && negb (in_list base EXCLUDE_JSON_BASE) then
                         media ← search_media w folder base edited_word;
                         Ok (List.app pairs [(e_path entry, media)])
                       else Ok pairs
                     else Ok pairs) (Ok acc) es = Ok pairs →
            ∀ jm, In jm pairs → Q jm) as Hfold.
  { induction es as [|entry es IHes]; intros acc Hacc.
    { by intros [= <-]. }
    cbn [foldl mbind result_bind].
    assert (∀ e, foldl (fun pairs entry =>
                     pairs ← pairs;
                     if e_is_dir entry then
                       more ← get_sidecars_rec depth w (e_path entry) edited_word;
                       Ok (List.app pairs more)
                     else if e_is_file entry then
                       let '(base, ext) := PosixPath.splitext (e_name entry) in
                       if (Str.lower ext =? ".json")
                          && negb (in_list base EXCLUDE_JSON_BASE) then
                         media ← search_media w folder base edited_word;
                         Ok (List.app pairs [(e_path entry, media)])
                       else Ok pairs
                     else Ok pairs) (Raise e) es ≠ Ok pairs) as Hraise.
    { intros e. by rewrite foldl_raise. }
    specialize (IHes (fun entry Hin => Hpaths entry (or_intror Hin))).
    destruct (e_is_dir entry).
    - destruct (get_sidecars_rec depth w (e_path entry) edited_word) as [more|] eqn:Hmore;
        cbn [mbind result_bind]; [|by intros ?%Hraise].
      apply IHes. intros [j m] [Hin|Hin]%in_app_or; [by apply Hacc|].
      exact (IH _ _ j m Hmore Hin).
    - destruct (e_is_file entry); [|by apply IHes].
      destruct (PosixPath.splitext (e_name entry)) as [base ext] eqn:Hsplit.
      destruct (Str.lower ext =? ".json") eqn:Hext; cbn [andb]; [|by apply IHes].
      destruct (in_list base EXCLUDE_JSON_BASE) eqn:Hbase; cbn [negb];
        [by apply IHes|].
      destruct (search_media w folder base edited_word) as [m|] eqn:Hsearch;
        cbn [mbind result_bind]; [|by intros ?%Hraise].
      apply IHes. intros jm [Hin|Hin]%in_app_or; [by apply Hacc|].
      destruct Hin as [<-|[]]. exists folder, (e_name entry), base, ext.
      cbn [fst snd]. apply String.eqb_eq in Hext.
      repeat split; [|done..]. apply Hpaths. by left. }
  intros Hpairs Hin. by apply (Hfold [] ltac:(done) Hpairs (json_path, media)).
Qed.

End UnitLemmas.

Section RunProperties.
Import Props FS aux_functions process_folder.
Context `{External}.

(** X18. A pair that [get_sidecars] lists is a descriptor and what the
    resolver finds for it: the path of an entry whose extension, lower
    case, is [.json] and whose base is neither [metadata] nor
    [shared_album_comments], with the result of [search_media] on that
    base in the directory that holds the entry. *)
Theorem sidecars_are_descriptors (w : world) (folder edited_word : string)
    (pairs : list (string * option string)) (json_path : string)
    (media : option string) :
  get_sidecars w folder edited_word = Ok pairs →
  In (json_path, media) pairs →
  ∃ d name base ext,
    json_path = PosixPath.join d name
    ∧ PosixPath.splitext name = (base, ext)
    ∧ Str.lower ext = ".json"
    ∧ name ≠ "metadata.json" ∧ name ≠ "shared_album_comments.json"
    ∧ search_media w d base edited_word = Ok media.
Proof.
  intros Hpairs Hin.
  destruct (get_sidecars_rec_sound _ _ _ _ _ _ _ Hpairs Hin)
    as (d & name & base & ext & -> & Hsplit & Hext & Hbase & Hsearch).
  exists d, name, base, ext. repeat split; try done.
  - intros ->. vm_compute in Hsplit. injection Hsplit as <- <-. done.
  - intros ->. vm_compute in Hsplit. injection Hsplit as <- <-. done.
Qed.

(** X19. The counters of a run never exceed the number of descriptors:
    each unit adds at most one to the successes or to the failures, never
    to both, and a unit whose media is missing links no companion. *)
Theorem counters_bounded (w : world) (root edited_word out : string)
    (sidecars : list (string * option string)) (r : run) :
  get_sidecars w root edited_word = Ok sidecars →
  process_folder w root edited_word out = Ok r →
  (success r + failed r ≤ length sidecars)%nat
  ∧ (linked_live r + failed r ≤ length sidecars)%nat.
Proof.
  intros Hside. unfold process_folder. rewrite Hside. cbn [mbind result_bind].
  intros Hall%process_all_bounds. cbn [success failed linked_live] in Hall. lia.
Qed.

(** X20. A run changes nothing of what was there when it started, as long
    as [exiftool] changes only the file it is given: every regular file of
    the initial world, the export included, is there at the end with the
    same bytes, descriptor value and modification time, every directory is
    still a directory, and the output folder exists.  (Access times are
    left out: the run reads the files.) *)
Theorem run_keeps_what_was_there (w : world)
    (source_folder output_folder edited_word : string) (r : run) :
  confined_tool →
  merge_metadata.main w source_folder output_folder edited_word = Ok r →
  kept w (disk r) ∧ exists_ (disk r) output_folder = true.
Proof.
  intros Htool Hmain.
  destruct (main_keeps _ _ _ _ _ Htool Hmain) as (w0 & Hmk & Hpres & _).
  apply makedirs_spec in Hmk as [Hpres0 [es Hes]]. split.
  - apply preserved_kept. by eapply preserved_trans.
  - assert (exists_ w0 output_folder = true) by (unfold exists_; by rewrite Hes).
    by eapply preserved_exists.
Qed.

(** X21. Under the same assumption on [exiftool], the destinations a run
    writes, media and companions together, are pairwise different and all
    there at the end: no placement of the run lands on another's. *)
Theorem outputs_are_distinct (w : world)
    (source_folder output_folder edited_word : string) (r : run) :
  confined_tool →
  merge_metadata.main w source_folder output_folder edited_word = Ok r →
  NoDup (outputs (history r))
  ∧ Forall (fun o => exists_ (disk r) o = true) (outputs (history r)).
Proof.
  intros Htool Hmain.
  by destruct (main_keeps _ _ _ _ _ Htool Hmain) as (w0 & _ & _ & ? & ?).
Qed.

End RunProperties.

Lemma working_exiftool_confined : @Props.confined_tool Examples.working_exiftool.
Proof.
  intros args target w rc log w' [= <- <- <-].
  split; [apply untouched_but_refl|done].
Defined.

Lemma sidecars_are_descriptors_witness :
  ∃ d name base ext,
    "/takeout/album/photo.jpg.json" = PosixPath.join d name
    ∧ PosixPath.splitext name = (base, ext)
    ∧ Str.lower ext = ".json"
    ∧ name ≠ "metadata.json" ∧ name ≠ "shared_album_comments.json"
    ∧ aux_functions.search_media Examples.one_photo_world d base "edited"
      = Ok (Some "/takeout/album/photo.jpg").
Proof.
  refine (sidecars_are_descriptors Examples.one_photo_world "/takeout" "edited"
            [("/takeout/album/photo.jpg.json", Some "/takeout/album/photo.jpg")]
            "/takeout/album/photo.jpg.json" (Some "/takeout/album/photo.jpg") _ _).
  - vm_compute. reflexivity.
  - left. reflexivity.
Defined.

Lemma counters_bounded_witness :
  (process_folder.success Examples.linked_run + process_folder.failed Examples.linked_run
   ≤ 2)%nat
  ∧ (process_folder.linked_live Examples.linked_run
     + process_folder.failed Examples.linked_run ≤ 2)%nat.
Proof.
  refine (@counters_bounded Examples.working_exiftool Examples.shared_video_world
            "/takeout" "edited" "/out"
            [("/takeout/album/photo.jpg.json", Some "/takeout/album/photo.jpg");
             ("/takeout/album/photo.v2.jpg.json", Some "/takeout/album/photo.v2.jpg")]
            Examples.linked_run _ _); vm_compute; reflexivity.
Defined.

Lemma run_keeps_what_was_there_witness :
  Props.kept Examples.shared_video_world (process_folder.disk Examples.whole_run)
  ∧ FS.exists_ (process_folder.disk Examples.whole_run) "/out" = true.
Proof.
  refine (@run_keeps_what_was_there Examples.working_exiftool Examples.shared_video_world
            "/takeout" "/out" "edited" Examples.whole_run working_exiftool_confined _).
  vm_compute. reflexivity.
Defined.

Lemma outputs_are_distinct_witness :
  NoDup (Props.outputs (process_folder.history Examples.whole_run))
  ∧ Forall (fun o => FS.exists_ (process_folder.disk Examples.whole_run) o = true)
      (Props.outputs (process_folder.history Examples.whole_run)).
Proof.
  refine (@outputs_are_distinct Examples.working_exiftool Examples.shared_video_world
            "/takeout" "/out" "edited" Examples.whole_run working_exiftool_confined _).
  vm_compute. reflexivity.
Defined.

(** The destinations of that run. *)
Example whole_run_outputs :
  Props.outputs (process_folder.history Examples.whole_run)
  = ["/out/album/photo.jpg"; "/out/album/photo.mov"; "/out/album/photo(1).jpg"].
Proof. vm_compute. reflexivity. Qed.

(** ** The list of units is complete *)

Section ListingLemmas.
Import Props FS aux_functions process_folder.

Lemma first_where_total {A} (test : A → result bool) l :
  (∀ x, ∃ b, test x = Ok b) → ∃ r, first_where test l = Ok r.
Proof.
  intros Htest. induction l as [|x l [r IH]]; simpl; [by eexists|].
  destruct (Htest x) as [[] ->]; cbn [mbind result_bind]; eauto.
Qed.

Lemma sniffs_as_total w kinds p : ∃ b, sniffs_as w kinds p = Ok b.
Proof.
  unfold sniffs_as. rewrite sniff_type_ok. cbn [mbind result_bind]. by eexists.
Qed.

Lemma search_media_on_directory w d es title edited_word :
  resolve w d = Some (Dir es) → ∃ m, search_media w d title edited_word = Ok m.
Proof.
  intros Hres. unfold search_media.
  destruct (PosixPath.splitext (sanitize_json_title title)) as [file_name json_ext].
  destruct (List.find _ _) as [c|]; [by eexists|].
  unfold scandir. rewrite Hres.
  destruct (first_some _ _) as [p|]; [by eexists|].
  cbn [mbind result_bind].
  match goal with
  | |- context [first_where ?test ?l] =>
      destruct (first_where_total test l) as [r ->]
  end.
  - intros e. destruct (_ && _); [apply sniffs_as_total|by eexists].
  - cbn [mbind result_bind]. by eexists.
Qed.

Lemma height_child (kc : string * node) es :
  In kc es →
  (height (snd kc)
   ≤ foldr (fun (kc : string * node) acc => Nat.max (height (snd kc)) acc) 0 es)%nat.
Proof.
  induction es as [|kc' es IH]; [done|]. simpl. intros [->|Hin]; [lia|].
  specialize (IH Hin). lia.
Qed.

Lemma entry_lookup_elem k n es : entry_lookup k es = Some n → In (k, n) es.
Proof.
  induction es as [|[k' m] es IH]; simpl; [done|].
  destruct (k' =? k) eqn:Hk; [|by right; apply IH].
  apply String.eqb_eq in Hk as ->. intros [= ->]. by left.
Qed.

Lemma well_formed_entries es :
  well_formed (Dir es) = true →
  NoDup (List.map fst es)
  ∧ ∀ kc, In kc es → simple_name (fst kc) = true ∧ well_formed (snd kc) = true.
Proof.
  cbn [well_formed]. intros [Hall Hnd]%andb_true_iff.
  apply bool_decide_eq_true in Hnd. split; [done|].
  rewrite forallb_forall in Hall. intros kc Hkc.
  by apply Hall, andb_true_iff in Hkc.
Qed.

Lemma well_formed_sub cs n m :
  well_formed n = true → walk cs n = Some m → well_formed m = true.
Proof.
  revert n. induction cs as [|c cs IH]; intros n Hwf; simpl.
  { by intros [= <-]. }
  destruct n as [f|es]; [done|].
  destruct (entry_lookup c es) as [child|] eqn:Hc; [|done].
  apply IH. apply entry_lookup_elem in Hc.
  by destruct (proj2 (well_formed_entries _ Hwf) _ Hc).
Qed.

Lemma descriptor_places_flat_map es :
  descriptor_places (Dir es) = flat_map entry_places es.
Proof.
  induction es as [|kc es IH]; [done|].
  cbn [flat_map]. rewrite <-IH. reflexivity.
Qed.

Lemma walk_file_nonempty cs c f : walk (cs ++ [c]) (File f) = None.
Proof. by destruct cs. Qed.

(** The places are the regular files of the tree that bear a descriptor
    name. *)
Lemma descriptor_places_spec h n ds name :
  (height n ≤ h)%nat → well_formed n = true →
  In (ds, name) (descriptor_places n)
  ↔ is_descriptor_name name = true ∧ ∃ f, walk (ds ++ [name]) n = Some (File f).
Proof.
  revert n ds. induction h as [|h IH]; intros n ds Hh Hwf.
  { destruct n as [f|es]; [|simpl in Hh; lia]. simpl. rewrite walk_file_nonempty.
    split; [done|]. by intros (_ & f' & ?). }
  destruct n as [f|es].
  { simpl. rewrite walk_file_nonempty. split; [done|]. by intros (_ & f' & ?). }
  destruct (well_formed_entries _ Hwf) as [Hnd Hentries].
  rewrite descriptor_places_flat_map, in_flat_map. split.
  - intros ([k child] & Hkc & Hin). unfold entry_places in Hin. cbn [fst snd] in Hin.
    destruct child as [f|es'].
    + destruct (is_descriptor_name k) eqn:Hk; [|done].
      destruct Hin as [[= <- <-]|[]]. split; [done|]. exists f. simpl.
      by rewrite (entry_lookup_unique _ _ _ Hnd Hkc).
    + apply in_map_iff in Hin as ([ds' name'] & [= <- <-] & Hin).
      apply IH in Hin as [Hname [f Hf]].
      * split; [done|]. exists f. simpl.
        by rewrite (entry_lookup_unique _ _ _ Hnd Hkc).
      * pose proof (height_child _ _ Hkc) as Hc. cbn [snd] in Hc.
        cbn [height] in Hh, Hc |- *. lia.
      * by destruct (Hentries _ Hkc).
  - intros (Hname & f & Hf). destruct ds as [|c ds]; simpl in Hf.
    + destruct (entry_lookup name es) as [child|] eqn:Hc; [|done].
      injection Hf as ->. apply entry_lookup_elem in Hc.
      exists (name, File f). split; [done|]. unfold entry_places. cbn [fst snd].
      rewrite Hname. by left.
    + destruct (entry_lookup c es) as [child|] eqn:Hc; [|done].
      apply entry_lookup_elem in Hc. exists (c, child). split; [done|].
      unfold entry_places. cbn [fst snd]. destruct child as [f'|es'].
      { by rewrite walk_file_nonempty in Hf. }
      apply in_map_iff. exists (ds, name). split; [done|].
      apply IH.
      * pose proof (height_child _ _ Hc) as Hc'. cbn [snd] in Hc'.
        cbn [height] in Hh, Hc' |- *. lia.
      * by destruct (Hentries _ Hc).
      * split; [done|]. by exists f.
Qed.

Lemma entry_places_key kc place : In place (entry_places kc) → place_key place = fst kc.
Proof.
  destruct kc as [k child]. unfold entry_places. cbn [fst snd].
  destruct child as [f|es'].
  - destruct (is_descriptor_name k); [|done]. by intros [<-|[]].
  - by intros ([ds name] & <- & _)%in_map_iff.
Qed.

Lemma NoDup_flat_map_keys {A B} (key : B → string) (G : string * A → list B) es :
  NoDup (List.map fst es) →
  (∀ kc, In kc es → NoDup (G kc)) →
  (∀ kc x, In kc es → In x (G kc) → key x = fst kc) →
  NoDup (flat_map G es).
Proof.
  induction es as [|kc es IH]; intros Hnd Hone Hkey; simpl; [apply NoDup_nil_2|].
  apply NoDup_cons in Hnd as [Hfresh Hnd].
  apply NoDup_app. split; [apply Hone; by left|]. split.
  - intros x Hx%list_elem_of_In Hx'%list_elem_of_In.
    apply in_flat_map in Hx' as (kc' & Hkc' & Hx').
    apply Hfresh, list_elem_of_In, in_map_iff. exists kc'. split; [|done].
    rewrite <-(Hkey kc x) by (by left || done).
    symmetry. apply Hkey; [by right|done].
  - apply IH; [done|intros; apply Hone; by right|].
    intros kc' x Hkc'. apply Hkey. by right.
Qed.

(** No place comes twice. *)
Lemma descriptor_places_NoDup h n :
  (height n ≤ h)%nat → well_formed n = true → NoDup (descriptor_places n).
Proof.
  revert n. induction h as [|h IH]; intros n Hh Hwf.
  { destruct n as [f|es]; [apply NoDup_nil_2|simpl in Hh; lia]. }
  destruct n as [f|es]; [apply NoDup_nil_2|].
  destruct (well_formed_entries _ Hwf) as [Hnd Hentries].
  rewrite descriptor_places_flat_map.
  apply (NoDup_flat_map_keys place_key); [done| |].
  - intros [k child] Hkc. unfold entry_places. cbn [fst snd].
    destruct child as [f|es'].
    + destruct (is_descriptor_name k); [apply NoDup_singleton|apply NoDup_nil_2].
    + assert (Inj eq eq (fun place : list string * string =>
                           (k :: fst place, snd place))) as Hinj.
      { intros [a b] [c d] [= -> ->]. done. }
      apply (NoDup_fmap_2 _). apply IH.
        -- pose proof (height_child _ _ Hkc) as Hc. cbn [snd] in Hc.
           cbn [height] in Hh, Hc |- *. lia.
        -- by destruct (Hentries _ Hkc).
  - intros kc x _. apply entry_places_key.
Qed.

(** With room on the stack for the depth of the tree, [get_sidecars]
    returns the pair of every place, in order. *)
Lemma get_sidecars_rec_complete depth w folder edited_word es :
  well_formed w = true → resolve w folder = Some (Dir es) →
  (height (Dir es) ≤ depth)%nat →
  ∃ pairs, get_sidecars_rec depth w folder edited_word = Ok pairs
           ∧ Forall2 (listed_for w folder edited_word) pairs
               (descriptor_places (Dir es)).
Proof.
  intros Hwf. revert folder es.
  induction depth as [|depth IH]; intros folder es Hres Hheight.
  { simpl in Hheight. lia. }
  cbn [get_sidecars_rec]. unfold scandir at 1. rewrite Hres. cbn [mbind result_bind].
  assert (walk (components folder) w = Some (Dir es)) as Hwalk.
  { unfold resolve in Hres. by destruct (folder =? ""). }
  destruct (well_formed_walk _ _ _ Hwf Hwalk) as (Hsimple & Hnd & _).
  rewrite List.Forall_forall in Hsimple.
  rewrite descriptor_places_flat_map.
  match goal with
  | |- context [foldl ?step _ _] => set (step0 := step)
  end.
  assert (∀ l acc places,
            (∀ kc, In kc l → In kc es) →
            Forall2 (listed_for w folder edited_word) acc places →
            ∃ pairs,
              foldl step0 (Ok acc)
                (List.map (fun '(name, n) =>
                   mk_entry name (PosixPath.join folder name)
                     (match n with File _ => true | Dir _ => false end)) l) = Ok pairs
              ∧ Forall2 (listed_for w folder edited_word) pairs
                  (places ++ flat_map entry_places l)%list) as Hfold.
  { induction l as [|[name child] l IHl]; intros acc places Hl Hacc.
    { exists acc. simpl. by rewrite app_nil_r. }
    assert (In (name, child) es) as Hin by (apply Hl; by left).
    assert (resolve w (PosixPath.join folder name) = Some child) as Hchild.
    { rewrite (resolve_join w folder name es Hres (Hsimple _ Hin)).
      by apply entry_lookup_unique. }
    specialize (IHl) with (1 := fun kc Hkc => Hl kc (or_intror Hkc)).
    cbn [List.map foldl flat_map]. unfold step0 at 2. unfold e_is_dir.
    cbn [mbind result_bind e_is_file e_path e_name].
    unfold entry_places at 1. cbn [fst snd].
    destruct child as [f|es'].
    - cbn [negb]. unfold is_descriptor_name.
      destruct (PosixPath.splitext name) as [base ext] eqn:Hsplit.
      destruct ((Str.lower ext =? ".json") && negb (in_list base EXCLUDE_JSON_BASE)).
      + destruct (search_media_on_directory w folder es base edited_word Hres)
          as [m Hm]. rewrite Hm. cbn [mbind result_bind].
        destruct (IHl (acc ++ [(PosixPath.join folder name, m)])%list
                      (places ++ [([], name)])%list) as (pairs & Hpairs & Hall).
        { apply Forall2_app; [done|]. constructor; [|constructor].
          unfold listed_for, join_under. cbn [fst snd fold_left].
          by rewrite Hsplit. }
        exists pairs. split; [done|]. by rewrite <-app_assoc in Hall.
      + destruct (IHl acc places Hacc) as (pairs & Hpairs & Hall).
        exists pairs. split; [done|]. done.
    - cbn [negb].
      destruct (IH (PosixPath.join folder name) es' Hchild) as (more & Hmore & Hlisted).
      { pose proof (height_child _ _ Hin) as Hc. cbn [snd] in Hc.
        cbn [height] in Hheight, Hc |- *. lia. }
      rewrite Hmore. cbn [mbind result_bind].
      destruct (IHl (acc ++ more)%list
                    (places
                     ++ List.map (fun place : list string * string =>
                                    (name :: fst place, snd place))
                          (descriptor_places (Dir es')))%list)
        as (pairs & Hpairs & Hall).
      { apply Forall2_app; [done|]. apply Forall2_fmap_r.
        eapply Forall2_impl; [exact Hlisted|]. by intros pair [ds n]. }
      exists pairs. split; [done|]. by rewrite <-app_assoc in Hall. }
  destruct (Hfold es [] [] ltac:(done) ltac:(constructor)) as (pairs & -> & Hall).
  exists pairs. split; [done|]. exact Hall.
Qed.

End ListingLemmas.

Section ListingProperties.
Import Props FS aux_functions process_folder.

(** X22. On a directory the resolver never raises: whatever the title and
    the contents of the directory, it returns a path or [None]. *)
Theorem search_media_total_on_directory (w : world) (d title edited_word : string)
    (es : list (string * node)) :
  resolve w d = Some (Dir es) →
  ∃ m, search_media w d title edited_word = Ok m.
Proof. apply search_media_on_directory. Qed.

(** X23. Over a directory tree that stays well below the recursion limit,
    [get_sidecars] returns, and its list is that of the descriptors of the
    tree, each once and none left out: it runs, in the order of
    [os.scandir] and with every subdirectory gone through where it
    stands, over the regular files whose extension is [.json] in any
    letter case and whose base is not an excluded one, and holds for each
    of them its path and what the resolver finds for its base in its
    directory. *)
Theorem sidecars_cover_descriptors (w : world) (folder edited_word : string)
    (es : list (string * node)) :
  well_formed w = true →
  resolve w folder = Some (Dir es) →
  (height (Dir es) + STACK_MARGIN ≤ RECURSION_LIMIT)%nat →
  ∃ pairs,
    get_sidecars w folder edited_word = Ok pairs
    ∧ Forall2 (listed_for w folder edited_word) pairs (descriptor_places (Dir es))
    ∧ NoDup (descriptor_places (Dir es))
    ∧ ∀ ds name,
        In (ds, name) (descriptor_places (Dir es))
        ↔ is_descriptor_name name = true
          ∧ ∃ f, walk (ds ++ [name]) (Dir es) = Some (File f).
Proof.
  intros Hwf Hres Hheight.
  assert (well_formed (Dir es) = true) as Hsub.
  { apply (well_formed_sub (components folder) w); [done|].
    unfold resolve in Hres. by destruct (folder =? ""). }
  destruct (get_sidecars_rec_complete (RECURSION_LIMIT - CALLER_FRAMES) w folder
              edited_word es Hwf Hres) as (pairs & Hpairs & Hall).
  { unfold STACK_MARGIN, RECURSION_LIMIT, CALLER_FRAMES in *. lia. }
  exists pairs. split; [exact Hpairs|]. split; [exact Hall|]. split.
  - by apply (descriptor_places_NoDup (height (Dir es))).
  - intros ds name. by apply (descriptor_places_spec (height (Dir es))).
Qed.

End ListingProperties.

Lemma search_media_total_on_directory_witness :
  ∃ m, aux_functions.search_media Examples.one_photo_world "/takeout/album"
         "no such photo" "edited" = Ok m.
Proof.
  refine (search_media_total_on_directory Examples.one_photo_world "/takeout/album"
            "no such photo" "edited" _ eq_refl).
Defined.

Lemma sidecars_cover_descriptors_witness :
  ∃ pairs,
    process_folder.get_sidecars Examples.shared_video_world "/takeout" "edited" = Ok pairs
    ∧ Forall2 (Props.listed_for Examples.shared_video_world "/takeout" "edited") pairs
        [(["album"], "photo.jpg.json"); (["album"], "photo.v2.jpg.json")].
Proof.
  destruct (sidecars_cover_descriptors Examples.shared_video_world "/takeout" "edited"
              _ eq_refl eq_refl) as (pairs & Hpairs & Hall & _).
  - vm_compute. lia.
  - exists pairs. split; [exact Hpairs|exact Hall].
Defined.

(** The list of that witness. *)
Example shared_video_sidecars :
  process_folder.get_sidecars Examples.shared_video_world "/takeout" "edited"
  = Ok [("/takeout/album/photo.jpg.json", Some "/takeout/album/photo.jpg");
        ("/takeout/album/photo.v2.jpg.json", Some "/takeout/album/photo.v2.jpg")].
Proof. vm_compute. reflexivity. Qed.

(** The recursion limit: 997 directories one inside the other below the
    source folder are gone through, 998 are not. *)
Example nested_directories :
  process_folder.get_sidecars (FS.Dir [("takeout", Examples.nested 997)]) "/takeout"
    "edited" = Ok []
  ∧ process_folder.get_sidecars (FS.Dir [("takeout", Examples.nested 998)]) "/takeout"
      "edited" = Raise RecursionError.
Proof. split; vm_compute; reflexivity. Qed.

(** ** The progress bar *)

Section ProgressLemmas.
Import Props aux_functions.

Lemma yields_turns {A} (r : nat → string) (items : list A) k :
  yields (flat_map (fun '(i, item) => [Yielded item; Printed (r i)])
            (combine (seq k (List.length items)) items)) = items.
Proof.
  revert k. induction items as [|x items IH]; intros k; [done|].
  cbn [List.length seq combine flat_map]. unfold yields in *.
  rewrite flat_map_app. cbn [flat_map List.app]. by rewrite IH.
Qed.

Lemma prints_turns {A} (r : nat → string) (items : list A) k :
  prints (flat_map (fun '(i, item) => [Yielded item; Printed (r i)])
            (combine (seq k (List.length items)) items))
  = List.map r (seq k (List.length items)).
Proof.
  revert k. induction items as [|x items IH]; intros k; [done|].
  cbn [List.length seq combine flat_map List.map]. unfold prints in *.
  rewrite flat_map_app. cbn [flat_map List.app]. by rewrite IH.
Qed.

Lemma turns_length {A} (r : nat → string) (items : list A) k :
  List.length (flat_map (fun '(i, item) => [Yielded item; Printed (r i)])
                 (combine (seq k (List.length items)) items))
  = (2 * List.length items)%nat.
Proof.
  revert k. induction items as [|x items IH]; intros k; [done|].
  cbn [List.length seq combine flat_map List.app]. rewrite IH. lia.
Qed.

(** Turn [i] of the loop yields item [i], then prints its line. *)
Lemma turns_lookup {A} (r : nat → string) (items : list A) k i x :
  items !! i = Some x →
  flat_map (fun '(i, item) => [Yielded item; Printed (r i)])
    (combine (seq k (List.length items)) items) !! (2 * i)%nat = Some (Yielded x)
  ∧ flat_map (fun '(i, item) => [Yielded item; Printed (r i)])
      (combine (seq k (List.length items)) items) !! S (2 * i) = Some (Printed (r (k + i)%nat)).
Proof.
  revert k i. induction items as [|y items IH]; intros k i; [done|].
  cbn [List.length seq combine flat_map List.app].
  destruct i as [|i]; simpl.
  - intros [= ->]. by rewrite Nat.add_0_r.
  - intros Hx. destruct (IH (S k) i Hx) as [H1 H2].
    replace (i + S (i + 0))%nat with (S (2 * i)) by lia. simpl.
    replace (k + S i)%nat with (S k + i)%nat by lia.
    split; [exact H1|exact H2].
Qed.

Lemma times_length s n : String.length (Py.times s n) = (String.length s * Z.to_nat n)%nat.
Proof.
  unfold Py.times. induction (Z.to_nat n) as [|k IH]; [simpl; lia|].
  destruct k as [|k]; [simpl; lia|].
  change (String.length (s ++ "" ++ String.concat "" (repeat s (S k)))
          = (String.length s * S (S k))%nat).
  rewrite !string_app_length, IH. simpl. lia.
Qed.

Lemma filled_range total len i :
  (0 ≤ len)%Z → (0 ≤ i ≤ total)%Z → (0 ≤ filled total len i ≤ len)%Z.
Proof.
  intros Hlen Hi. unfold filled. destruct (Z.eqb_spec total 0) as [->|Hne]; [lia|].
  split.
  - apply Z.div_pos; nia.
  - apply Z.div_le_upper_bound; nia.
Qed.

Lemma filled_mono total len i j :
  (0 ≤ len)%Z → (0 ≤ i)%Z → (i ≤ j)%Z → (0 ≤ total)%Z →
  (filled total len i ≤ filled total len j)%Z.
Proof.
  intros Hlen Hi Hij Htotal. unfold filled.
  destruct (Z.eqb_spec total 0) as [->|Hne]; [lia|].
  apply Z.div_le_mono; nia.
Qed.

End ProgressLemmas.

Section ProgressProperties.
Import Props aux_functions.
Context `{Console}.

(** X24. The progress bar prints a line, then for each item of the list,
    in order, hands the item to the loop and prints a line once the loop
    is done with it, and ends with a newline: the events are the line of 0,
    then item [i] and the line of [i + 1] in turn, then the newline.  The
    line of [i] shows, between the brackets, [fill] on its first cells and
    [-] on the others.  With a width that is not negative, the filled
    cells of every line are between none and all, never fewer than on the
    line before, all of them on the last line and, when there are items,
    none on the first; with a one-character [fill] the bar has the width
    asked for on every line. *)
Theorem progress_bar_passes_items {A} (items : list A) (prefix suffix : string)
    (decimals len : Z) (fill : string) :
  let total := Z.of_nat (List.length items) in
  let line := render total prefix suffix decimals len fill in
  let out := progress_bar items prefix suffix decimals len fill in
  List.length out = (2 * List.length items + 2)%nat
  ∧ out !! 0%nat = Some (Printed (line 0%Z))
  ∧ (∀ i x, items !! i = Some x →
       out !! (2 * i + 1)%nat = Some (Yielded x)
       ∧ out !! (2 * i + 2)%nat = Some (Printed (line (Z.of_nat (S i)))))
  ∧ out !! (2 * List.length items + 1)%nat = Some (Printed Str.LF)
  ∧ yields out = items
  ∧ prints out
    = (List.map (fun i => line (Z.of_nat i)) (seq 0 (S (List.length items)))
       ++ [Str.LF])%list
  ∧ (∀ i, ∃ percent,
       line i
       = String (Str.chr 13) "" ++ prefix ++ " ["
         ++ (Py.times fill (filled total len i)
             ++ Py.times "-" (len - filled total len i))
         ++ "] " ++ percent ++ "% " ++ suffix)
  ∧ ((0 ≤ len)%Z →
     (∀ i, (0 ≤ i ≤ total)%Z → (0 ≤ filled total len i ≤ len)%Z)
     ∧ (∀ i j, (0 ≤ i)%Z → (i ≤ j)%Z → (filled total len i ≤ filled total len j)%Z)
     ∧ filled total len total = len
     ∧ ((0 < total)%Z → filled total len 0 = 0%Z)
     ∧ (String.length fill = 1%nat →
        ∀ i, (0 ≤ i ≤ total)%Z →
          String.length (bar total len fill i) = Z.to_nat len)).
Proof.
  intros total line out.
  set (r := fun i : nat => line (Z.of_nat i)).
  set (turns := flat_map (fun '(i, item) => [Yielded item; Printed (r i)])
                  (combine (seq 1 (List.length items)) items)).
  assert (out = Printed (line 0%Z) :: (turns ++ [Printed Str.LF])%list) as Hout
    by reflexivity.
  pose proof (turns_length r items 1) as Hlen. fold turns in Hlen.
  split; [|split; [|split; [|split; [|split; [|split; [|split]]]]]].
  - rewrite Hout. cbn [List.length]. rewrite length_app, Hlen. simpl. lia.
  - by rewrite Hout.
  - intros i x Hx. destruct (turns_lookup r items 1 i x Hx) as [H1 H2].
    fold turns in H1, H2. rewrite Hout.
    replace (2 * i + 1)%nat with (S (2 * i)) by lia.
    replace (2 * i + 2)%nat with (S (S (2 * i))) by lia.
    cbn [lookup list_lookup]. split.
    + by apply lookup_app_l_Some.
    + apply lookup_app_l_Some. rewrite H2. unfold r.
      by replace (1 + i)%nat with (S i) by lia.
  - rewrite Hout. replace (2 * List.length items + 1)%nat
      with (S (2 * List.length items)) by lia.
    change ((turns ++ [Printed Str.LF])%list !! (2 * List.length items)%nat
            = Some (@Printed A Str.LF)).
    rewrite lookup_app_r by lia.
    by replace (2 * List.length items - List.length turns)%nat with 0%nat by lia.
  - rewrite Hout. unfold yields. cbn [flat_map List.app]. rewrite flat_map_app.
    cbn [flat_map List.app]. rewrite app_nil_r. apply (yields_turns r).
  - rewrite Hout. unfold prints. cbn [flat_map List.app]. rewrite flat_map_app.
    cbn [flat_map List.app seq List.map].
    pose proof (prints_turns r items 1) as Hp. unfold prints in Hp.
    fold turns in Hp. by rewrite Hp.
  - intros i. unfold line, render, bar. eexists. reflexivity.
  - intros Hpos. split; [|split; [|split; [|split]]].
    + intros i Hi. by apply filled_range.
    + intros i j Hi Hij. apply filled_mono; lia.
    + unfold filled. destruct (Z.eqb_spec total 0) as [Hz|Hne]; [done|].
      by apply Z.div_mul.
    + intros Htotal. unfold filled. destruct (Z.eqb_spec total 0) as [Hz|Hne]; [lia|].
      by rewrite Z.mul_0_r.
    + intros Hfill i Hi. unfold bar.
      pose proof (filled_range total len i Hpos Hi) as Hk.
      rewrite string_app_length, !times_length, Hfill. simpl. lia.
Qed.

End ProgressProperties.

Lemma progress_bar_passes_items_witness :
  Props.prints (@aux_functions.progress_bar Examples.plain_console string ["a"; "b"]
                  "" "" 1 4 "#")
  = [String (Str.chr 13) " [----] ?% "; String (Str.chr 13) " [##--] ?% ";
     String (Str.chr 13) " [####] ?% "; Str.LF].
Proof.
  exact (proj1 (proj2 (proj2 (proj2 (proj2 (proj2
    (@progress_bar_passes_items Examples.plain_console string ["a"; "b"]
       "" "" 1 4 "#"))))))).
Defined.

(** The events of a run over two items, the percentages left out. *)
Example progress_bar_events :
  @aux_functions.progress_bar Examples.plain_console string ["a"; "b"] "" "" 1 4 "#"
  = [aux_functions.Printed (String (Str.chr 13) " [----] ?% ");
     aux_functions.Yielded "a";
     aux_functions.Printed (String (Str.chr 13) " [##--] ?% ");
     aux_functions.Yielded "b";
     aux_functions.Printed (String (Str.chr 13) " [####] ?% ");
     aux_functions.Printed Str.LF].
Proof. vm_compute. reflexivity. Qed.
